(** * tpm2-totp command-line tool: shallow embedding and verified properties

    This development embeds [src/tpm2-totp.c] (option parsing, the base32
    encoder, the terminal QR rasterizer and the five command handlers of
    [main]) and proves or refutes the properties stated for it.

    Conventions.
    - C integers are [Z]; [size_t] arithmetic wraps modulo [2^64] and the
      wrap is written out ([size_t]); signed [int] arithmetic that leaves
      the [int] range is a fault ([chk_int]).
    - A C buffer is a list of cells indexed from 0; a cell of [malloc]ed
      memory is [None] until it is written.  Every access is bounds
      checked and an access outside the object is a [Fault].
    - Code that can fail or leave the process runs in the result type
      [res]: [Ok] (normal completion), [Exit] (a call of [exit]) and
      [Fault] (undefined behaviour reached: an access outside an
      object, a read of a cell never written, signed overflow, a null
      pointer handed to a library function that reads through it). *)

From Stdlib Require Import ZArith Lia ZifyNat List String Ascii Bool.
From Stdlib.Strings Require Import Byte.
From stdpp Require Import base tactics option list numbers.
Import ListNotations.
Local Open Scope Z_scope.

(** ** Results of running C code *)

Inductive buffer := BufIn | BufR | BufBase32 | BufQrpic | BufQrdata.

Inductive fault :=
| OobRead (b : buffer) (idx : Z)
| OobWrite (b : buffer) (idx : Z)
| UninitRead (b : buffer) (idx : Z)
| SignedOverflow (v : Z)
| NullPointer
| OutOfFuel.

Inductive res (A : Type) :=
| Ok (a : A)
| Exit (status : Z)
| Fault (f : fault).
Arguments Ok {A} a.
Arguments Exit {A} status.
Arguments Fault {A} f.

#[global] Instance res_ret : MRet res := λ A a, Ok a.
#[global] Instance res_bind : MBind res := λ A B f m,
  match m with
  | Ok a => f a
  | Exit s => Exit s
  | Fault e => Fault e
  end.
#[global] Instance res_fmap : FMap res := λ A B f m,
  match m with
  | Ok a => Ok (f a)
  | Exit s => Exit s
  | Fault e => Fault e
  end.

(** ** Machine integers *)

Definition INT_MIN : Z := - 2^31.
Definition INT_MAX : Z := 2^31 - 1.

(** Unsigned 64-bit wrap-around of [size_t] arithmetic. *)
Definition size_t (z : Z) : Z := z mod 2^64.

(** Conversion to [unsigned char] on assignment. *)
Definition u8 (z : Z) : Z := z mod 256.

(** Signed [int] arithmetic: a result outside the range is undefined. *)
Definition chk_int (z : Z) : res Z :=
  if (INT_MIN <=? z) && (z <=? INT_MAX) then Ok z else Fault (SignedOverflow z).

Definition byte_val (b : byte) : Z := Z.of_N (Byte.to_N b).

(** ** Buffers *)

Abbreviation cell := (option Z).

(** [malloc n]: [n] uninitialised cells. *)
Definition malloc (n : Z) : list cell := replicate (Z.to_nat n) None.

Definition zget {A} (l : list A) (k : Z) : option A :=
  if k <? 0 then None else l !! Z.to_nat k.

Definition zset {A} (l : list A) (k : Z) (v : A) : option (list A) :=
  match zget l k with
  | Some _ => Some (<[Z.to_nat k := v]> l)
  | None => None
  end.

(** Read of an initialised cell of buffer [b] at index [k]. *)
Definition load (b : buffer) (m : list cell) (k : Z) : res Z :=
  match zget m k with
  | Some (Some v) => Ok v
  | Some None => Fault (UninitRead b k)
  | None => Fault (OobRead b k)
  end.

(** Write of an [unsigned char] into buffer [b] at index [k]. *)
Definition store (b : buffer) (m : list cell) (k : Z) (v : Z) : res (list cell) :=
  match zset m k (Some (u8 v)) with
  | Some m' => Ok m'
  | None => Fault (OobWrite b k)
  end.

(** Read of a constant array ([const uint8_t *], a string literal). *)
Definition load_const (b : buffer) (m : list Z) (k : Z) : res Z :=
  match zget m k with
  | Some v => Ok v
  | None => Fault (OobRead b k)
  end.

(** The C string stored at the start of a buffer: the bytes before the
    first NUL. *)
Fixpoint cstring (b : buffer) (pos : Z) (m : list cell) : res (list Z) :=
  match m with
  | [] => Fault (OobRead b pos)
  | None :: _ => Fault (UninitRead b pos)
  | Some c :: m' =>
      if c =? 0 then Ok [] else (c ::.) <$> cstring b (pos + 1) m'
  end.

Definition char_of (c : Z) : ascii := ascii_of_N (Z.to_N c).
Definition code_of (a : ascii) : Z := Z.of_N (N_of_ascii a).

Fixpoint string_of_chars (l : list Z) : string :=
  match l with
  | [] => EmptyString
  | c :: l' => String (char_of c) (string_of_chars l')
  end.

Fixpoint chars_of_string (s : string) : list Z :=
  match s with
  | EmptyString => []
  | String a s' => code_of a :: chars_of_string s'
  end.

(** ** The base32 encoder, [base32enc] *)

Module Base32.

(** [static unsigned char base32[] = "ABCDEFGHIJKLMNOPQRSTUVWXYZ234567"],
    with the terminating NUL of the literal. *)
Definition base32 : list Z :=
  chars_of_string "ABCDEFGHIJKLMNOPQRSTUVWXYZ234567" ++ [0].

(** The local variables [r], [i] and [j]. *)
Record state := St { st_r : list cell; st_i : Z; st_j : Z }.

(** [r[i++] = f(in[j])] *)
Definition assign (f : Z → Z) (inb : list byte) (s : state) : res state :=
  x ← load_const BufIn (byte_val <$> inb) (st_j s);
  r' ← store BufR (st_r s) (st_i s) (f x);
  Ok (St r' (size_t (st_i s + 1)) (st_j s)).

(** [r[i++] |= f(in[j])] *)
Definition assign_or (f : Z → Z) (inb : list byte) (s : state) : res state :=
  x ← load_const BufIn (byte_val <$> inb) (st_j s);
  old ← load BufR (st_r s) (st_i s);
  r' ← store BufR (st_r s) (st_i s) (Z.lor old (f x));
  Ok (St r' (size_t (st_i s + 1)) (st_j s)).

(** [if (++j >= in_size) break; else i--;] returns [true] on [break]. *)
Definition advance (in_size : Z) (s : state) : bool * state :=
  let j' := size_t (st_j s + 1) in
  if in_size <=? j' then (true, St (st_r s) (st_i s) j')
  else (false, St (st_r s) (size_t (st_i s - 1)) j').

(** [if (++j >= in_size) break;] at the end of the loop body. *)
Definition advance_last (in_size : Z) (s : state) : bool * state :=
  let j' := size_t (st_j s + 1) in
  (in_size <=? j', St (st_r s) (st_i s) j').

(** One pass through the body of [while (1)]; [true] when it left the
    loop through a [break]. *)
Definition loop_body (inb : list byte) (in_size : Z) (s : state)
  : res (bool * state) :=
  s ← assign (λ x, Z.land (x ≫ 3) 0x1F) inb s;
  s ← assign (λ x, Z.land (x ≪ 2) 0x1F) inb s;
  let '(brk, s) := advance in_size s in
  if brk : bool then Ok (true, s) else
  s ← assign_or (λ x, Z.land (x ≫ 6) 0x1F) inb s;
  s ← assign (λ x, Z.land (x ≫ 1) 0x1F) inb s;
  s ← assign (λ x, Z.land (x ≪ 4) 0x1F) inb s;
  let '(brk, s) := advance in_size s in
  if brk : bool then Ok (true, s) else
  s ← assign_or (λ x, Z.land (x ≫ 4) 0x1F) inb s;
  s ← assign (λ x, Z.land (x ≪ 1) 0x1F) inb s;
  let '(brk, s) := advance in_size s in
  if brk : bool then Ok (true, s) else
  s ← assign_or (λ x, Z.land (x ≫ 7) 0x1F) inb s;
  s ← assign (λ x, Z.land (x ≫ 2) 0x1F) inb s;
  s ← assign (λ x, Z.land (x ≪ 3) 0x1F) inb s;
  let '(brk, s) := advance in_size s in
  if brk : bool then Ok (true, s) else
  s ← assign_or (λ x, Z.land (x ≫ 5) 0x1F) inb s;
  s ← assign (λ x, Z.land x 0x1F) inb s;
  Ok (advance_last in_size s).

(** [while (1) { ... }] *)
Fixpoint while_1 (fuel : nat) (inb : list byte) (in_size : Z) (s : state)
  : res state :=
  match fuel with
  | O => Fault OutOfFuel
  | S fuel' =>
      '(brk, s') ← loop_body inb in_size s;
      if brk : bool then Ok s' else while_1 fuel' inb in_size s'
  end.

(** [for (j = 0; j < i; j++) r[j] = base32[r[j]];] with [n] passes left. *)
Fixpoint translate (n : nat) (j : Z) (r : list cell) : res (list cell) :=
  match n with
  | O => Ok r
  | S n' =>
      v ← load BufR r j;
      c ← load_const BufBase32 base32 v;
      r' ← store BufR r j c;
      translate n' (size_t (j + 1)) r'
  end.

(** [while (i < out_size) r[i++] = '=';] with [n] passes left. *)
Fixpoint pad (n : nat) (i : Z) (r : list cell) : res (Z * list cell) :=
  match n with
  | O => Ok (i, r)
  | S n' =>
      r' ← store BufR r i (code_of "=");
      pad n' (size_t (i + 1)) r'
  end.

(** The body of [base32enc] once [r] has been allocated; the result is
    the C string at [r]. *)
Definition encode_into (r : list cell) (out_size : Z) (inb : list byte)
    (in_size : Z) : res string :=
  s ← while_1 (S (Z.to_nat in_size)) inb in_size (St r 0 0);
  let i := st_i s in
  r ← translate (Z.to_nat i) 0 (st_r s);
  '(i, r) ← pad (Z.to_nat (out_size - i)) i r;
  r ← store BufR r i 0;
  string_of_chars <$> cstring BufR 0 r.

(** [base32enc(in, in_size)], [r] being [malloc(out_size + 1)]. *)
Definition base32enc (inb : list byte) (in_size : Z) : res string :=
  let out_size := size_t (size_t (in_size + 4) / 5 * 8) in
  encode_into (malloc (size_t (out_size + 1))) out_size inb in_size.

End Base32.

(** ** What the encoder computes, and the RFC 4648 reference *)

Module Base32Spec.

(** [in[j] >> n & 0x1F], [in[j] << n & 0x1F] and [in[j] & 0x1F] on a byte. *)
Definition shr5 (b : byte) (n : Z) : Z := Z.land (byte_val b ≫ n) 0x1F.
Definition shl5 (b : byte) (n : Z) : Z := Z.land (byte_val b ≪ n) 0x1F.
Definition low5 (b : byte) : Z := Z.land (byte_val b) 0x1F.

(** The symbol values left in [r[0..i)] by the [while (1)] loop of
    [base32enc], read off the loop body group by group. *)
Fixpoint loop_symbols (l : list byte) : list Z :=
  match l with
  | [] => []
  | [a] => [shr5 a 3; shl5 a 2]
  | [a; b] =>
      [shr5 a 3; Z.lor (shl5 a 2) (shr5 b 6); shr5 b 1; shl5 b 4]
  | [a; b; c] =>
      [shr5 a 3; Z.lor (shl5 a 2) (shr5 b 6); shr5 b 1;
       Z.lor (shl5 b 4) (shr5 c 4); shl5 c 1]
  | [a; b; c; d] =>
      [shr5 a 3; Z.lor (shl5 a 2) (shr5 b 6); shr5 b 1;
       Z.lor (shl5 b 4) (shr5 c 4); Z.lor (shl5 c 1) (shr5 d 7);
       shr5 d 2; shl5 d 3]
  | a :: b :: c :: d :: e :: l' =>
      [shr5 a 3; Z.lor (shl5 a 2) (shr5 b 6); shr5 b 1;
       Z.lor (shl5 b 4) (shr5 c 4); Z.lor (shl5 c 1) (shr5 d 7);
       shr5 d 2; Z.lor (shl5 d 3) (shr5 e 5); low5 e] ++ loop_symbols l'
  end.

(** The encoder's variables when [r] holds the cells [D] followed by the
    cells [T], [i] is the index of the first cell of [T], and [j = n]. *)
Definition mk (D T : list cell) (n : nat) : Base32.state :=
  Base32.St (D ++ T) (Z.of_nat (length D)) (Z.of_nat n).

(** Symbols the loop writes for a last group of [k < 5] bytes. *)
Definition tail_symbols (k : nat) : nat :=
  match k with
  | 0 => 0 | 1 => 2 | 2 => 4 | 3 => 5 | _ => 7
  end%nat.

(** The character [base32[v]] of a symbol value. *)
Definition base32_char (v : Z) : Z := default 0 (zget Base32.base32 v).

(** The text [base32enc] builds from the symbols: their characters, then
    ['='] up to [out_size]. *)
Definition enc_chars (l : list byte) : list Z :=
  let syms := loop_symbols l in
  let out_size := (8 * ((length l + 4) / 5))%nat in
  (base32_char <$> syms) ++ replicate (out_size - length syms) (code_of "=").

(** *** RFC 4648, section 6, from its words

    The input is a stream of bits, each byte most significant bit first.
    The stream is cut into groups of 5 bits, the last group filled with
    zero bits on the right.  Each group, read as a number with its first
    bit most significant, selects a character of the alphabet
    [A-Z], [2-7].  The text is then filled with ['='] to a multiple of 8
    characters. *)

Definition bit (b : byte) (k : Z) : bool := Z.testbit (byte_val b) k.

Definition bits_msb_first (b : byte) : list bool :=
  [bit b 7; bit b 6; bit b 5; bit b 4; bit b 3; bit b 2; bit b 1; bit b 0].

Fixpoint groups5 (bs : list bool) : list (list bool) :=
  match bs with
  | [] => []
  | [b0] => [[b0; false; false; false; false]]
  | [b0; b1] => [[b0; b1; false; false; false]]
  | [b0; b1; b2] => [[b0; b1; b2; false; false]]
  | [b0; b1; b2; b3] => [[b0; b1; b2; b3; false]]
  | b0 :: b1 :: b2 :: b3 :: b4 :: bs' => [b0; b1; b2; b3; b4] :: groups5 bs'
  end.

(** The number a group of bits denotes, first bit most significant. *)
Definition bits_value (bs : list bool) : Z :=
  fold_left (λ acc x, 2 * acc + Z.b2z x) bs 0.

(** The alphabet: values 0..25 are [A]..[Z], values 26..31 are [2]..[7]. *)
Definition rfc4648_alphabet (v : Z) : Z :=
  if v <? 26 then code_of "A" + v else code_of "2" + (v - 26).

Definition rfc4648_symbols (l : list byte) : list Z :=
  bits_value <$> groups5 (l ≫= bits_msb_first).

Definition rfc4648_base32 (l : list byte) : string :=
  let syms := rfc4648_symbols l in
  let fill := ((8 - length syms mod 8) mod 8)%nat in
  string_of_chars ((rfc4648_alphabet <$> syms) ++ replicate fill (code_of "=")).

(** Number of ['='] characters of a text. *)
Fixpoint count_pad (s : string) : nat :=
  match s with
  | EmptyString => 0
  | String a s' => (if Ascii.eqb a "=" then 1 else 0) + count_pad s'
  end%nat.

(** The padding table as the specification words it: 0, 1, 3, 4, 6
    characters for a length that is 0, 1, 2, 3, 4 modulo 5. *)
Definition claimed_padding (n : nat) : nat :=
  match (n mod 5)%nat with
  | 0 => 0 | 1 => 1 | 2 => 3 | 3 => 4 | _ => 6
  end%nat.

(** The padding table of RFC 4648: 0, 6, 4, 3, 1. *)
Definition rfc4648_padding (n : nat) : nat :=
  match (n mod 5)%nat with
  | 0 => 0 | 1 => 6 | 2 => 4 | 3 => 3 | _ => 1
  end%nat.

(** Every byte, for exhaustive checks. *)
Definition all_bytes : list byte :=
  omap (λ n, Byte.of_N (N.of_nat n)) (seq 0 256).

End Base32Spec.

(** ** The terminal QR rasterizer, [qrencode] *)

Module Qr.

(** [QRcode] of libqrencode: [int version; int width; unsigned char *data],
    [data] holding [width * width] modules, bit 0 set for a dark module. *)
Record QRcode := { version : Z; width : Z; data : list Z }.

Definition strlen (s : string) : Z := Z.of_nat (String.length s).

Definition ESC : string := String "027"%char EmptyString.
Definition LF : string := String "010"%char EmptyString.

(** The string literals of [qrencode]. *)
Definition fmt_margin : string := (ESC ++ "[47m%*s" ++ ESC ++ "[0m" ++ LF)%string.
Definition light : string := (ESC ++ "[47m  ")%string.
Definition dark : string := (ESC ++ "[40m  ")%string.
Definition line_end : string := (ESC ++ "[47m  " ++ ESC ++ "[0m" ++ LF)%string.

(** What [printf]'s ["\033[47m%*s\033[0m\n"] expands to for a field width
    [n] and the empty string: [n] blanks between the two sequences. *)
Definition margin_text (n : Z) : string :=
  (ESC ++ "[47m" ++ string_of_chars (replicate (Z.to_nat (Z.abs n)) (code_of " "))
       ++ ESC ++ "[0m" ++ LF)%string.

(** The argument of [malloc]:
    [2 * ((width+2) * 2 - 2 + strlen(fmt_margin))
     + width * (strlen(light) * (width + 1) + strlen(line_end)) + 1],
    the [int] subexpressions checked, the rest in [size_t]. *)
Definition qrpic_size (w : Z) : res Z :=
  a ← chk_int (w + 2);
  a ← chk_int (a * 2);
  a ← chk_int (a - 2);
  let margins := size_t (2 * size_t (size_t a + strlen fmt_margin)) in
  b ← chk_int (w + 1);
  let line := size_t (size_t (strlen light * size_t b) + strlen line_end) in
  let lines := size_t (size_t w * line) in
  Ok (size_t (size_t (margins + lines) + 1)).

(** The bytes [sprintf] stores from index [k] on. *)
Fixpoint write_chars (m : list cell) (k : Z) (cs : list Z) : res (list cell) :=
  match cs with
  | [] => Ok m
  | c :: cs' => m' ← store BufQrpic m k c; write_chars m' (k + 1) cs'
  end.

(** [sprintf(&qrpic[idx], ...)] producing [text]: the characters and a
    terminating NUL are stored, the number of characters is returned. *)
Definition sprintf (m : list cell) (idx : Z) (text : string) : res (list cell * Z) :=
  m' ← write_chars m idx (chars_of_string text ++ [0]);
  Ok (m', strlen text).

(** [idx += sprintf(&qrpic[idx], "\033[47m%*s\033[0m\n", 2*(width+2), "")] *)
Definition put_margin (w : Z) (m : list cell) (idx : Z) : res (list cell * Z) :=
  a ← chk_int (w + 2);
  n ← chk_int (2 * a);
  '(m, c) ← sprintf m idx (margin_text n);
  Ok (m, size_t (idx + size_t c)).

(** [for (x = ...; x < width; x++)] with [n] passes left: one block per
    module of row [y]. *)
Fixpoint put_cells (n : nat) (q : QRcode) (y x : Z) (m : list cell) (idx : Z)
  : res (list cell * Z) :=
  match n with
  | O => Ok (m, idx)
  | S n' =>
      a ← chk_int (y * width q);
      k ← chk_int (a + x);
      d ← load_const BufQrdata (data q) k;
      '(m, c) ← sprintf m idx (if Z.land d 0x01 =? 0 then light else dark);
      x' ← chk_int (x + 1);
      put_cells n' q y x' m (size_t (idx + size_t c))
  end.

(** [for (y = ...; y < width; y++)] with [n] passes left: one line per row. *)
Fixpoint put_lines (n : nat) (q : QRcode) (y : Z) (m : list cell) (idx : Z)
  : res (list cell * Z) :=
  match n with
  | O => Ok (m, idx)
  | S n' =>
      '(m, c) ← sprintf m idx light;
      let idx := size_t (idx + size_t c) in
      '(m, idx) ← put_cells (Z.to_nat (width q)) q y 0 m idx;
      '(m, c) ← sprintf m idx line_end;
      let idx := size_t (idx + size_t c) in
      y' ← chk_int (y + 1);
      put_lines n' q y' m idx
  end.

(** The body of [qrencode] after the matrix has been obtained: the buffer
    [qrpic] as it is returned, and the final [idx]. *)
Definition rasterize (q : QRcode) : res (list cell * Z) :=
  size ← qrpic_size (width q);
  let qrpic := malloc size in
  '(m, idx) ← put_margin (width q) qrpic 0;
  '(m, idx) ← put_lines (Z.to_nat (width q)) q 0 m idx;
  put_margin (width q) m idx.

(** The text at [qrpic], as [printf("%s")] reads it. *)
Definition qrencode_text (q : QRcode) : res string :=
  '(m, _) ← rasterize q;
  string_of_chars <$> cstring BufQrpic 0 m.

(** The picture of a matrix, row by row. *)
Definition cell_text (d : Z) : string :=
  if Z.land d 0x01 =? 0 then light else dark.

Definition line_text (row : list Z) : string :=
  (light ++ fold_right (λ d s, cell_text d ++ s) line_end row)%string.

Fixpoint rows (w : nat) (n : nat) (ds : list Z) : list (list Z) :=
  match n with
  | O => []
  | S n' => take w ds :: rows w n' (drop w ds)
  end.

Definition picture (q : QRcode) : string :=
  let w := Z.to_nat (width q) in
  let margin := margin_text (2 * (width q + 2)) in
  (margin ++ fold_right (λ row s, line_text row ++ s) margin (rows w w (data q)))%string.

Definition cells_text (row : list Z) : string :=
  fold_right (λ d s, cell_text d ++ s)%string EmptyString row.

Definition lines_text (rs : list (list Z)) : string :=
  fold_right (λ row s, line_text row ++ s)%string EmptyString rs.

(** A buffer holding [txt] and its NUL, followed by [k] cells never
    written. *)
Definition filled (txt : string) (k : nat) : list cell :=
  (Some <$> chars_of_string txt) ++ Some 0 :: replicate k None.

(** Number of line breaks of a text. *)
Fixpoint line_breaks (s : string) : nat :=
  match s with
  | EmptyString => 0
  | String a s' => (if Ascii.eqb a "010" then 1 else 0) + line_breaks s'
  end%nat.

(** Cells of a buffer that have been written. *)
Fixpoint written (m : list cell) : nat :=
  match m with
  | [] => 0
  | Some _ :: m' => S (written m')
  | None :: m' => written m'
  end.

End Qr.

(** ** The C library's [getopt_long]

    [getopt_long] belongs to the C library, not to the program.  It is
    modelled as glibc documents and implements it, for an [optstring]
    that begins with none of ['+'], ['-'] and [':'] and with [opterr]
    left at its initial value 1, which is how the program calls it.
    Scanning starts at [argv[1]].  In the default mode an element that is
    not an option is skipped and ends up after the options; with
    [POSIXLY_CORRECT] set in the environment the scan stops at the first
    such element.  ["--"] ends the scan.  A character that is not in
    [optstring], an unknown or ambiguous long name, and a missing or
    unexpected argument all yield ['?'], and before it returns ['?']
    [getopt_long] writes a line of its own to the error stream.  The
    successive return values do not depend on what the caller does between
    the calls, so the scan is presented as the list of those returns,
    each with the line written before it, together with the non-option
    elements in their order: after the call that returns [-1],
    [argv[optind]], [argv[optind+1]], ... are exactly those elements. *)

Module Getopt.

Inductive has_arg_t := no_argument | required_argument | optional_argument.

(** [struct option] with its [flag] field null. *)
Record option_t := { name : string; has_arg : has_arg_t; val : Z }.

(** What [getopt_long] writes to the error stream before it returns
    ['?']: the program name [argv[0]], [": "], and one of these lines. *)
Inductive complaint :=
| InvalidOption (c : ascii)
    (* "invalid option -- 'c'" *)
| ArgumentMissing (c : ascii)
    (* "option requires an argument -- 'c'" *)
| Unrecognized (text : string)
    (* "unrecognized option '--text'" *)
| Ambiguous (text : string) (possibilities : list string)
    (* "option '--text' is ambiguous; possibilities: '--a' '--b' ..." *)
| ArgumentNotAllowed (name : string)
    (* "option '--name' doesn't allow an argument" *)
| LongArgumentMissing (name : string).
    (* "option '--name' requires an argument" *)

(** One return of [getopt_long]: the value returned, [optarg], the index
    stored through [longindex] when a long option was recognised, and the
    line written to the error stream before the return, if any. *)
Record ret_t := {
  ret_c : Z;
  ret_optarg : option string;
  ret_longind : option Z;
  ret_err : option complaint
}.

(** A return of ['?'] after the line [e]. *)
Definition unknown (e : complaint) : ret_t :=
  {| ret_c := code_of "?"; ret_optarg := None; ret_longind := None;
     ret_err := Some e |}.

Definition has_arg_eqb (a b : has_arg_t) : bool :=
  match a, b with
  | no_argument, no_argument
  | required_argument, required_argument
  | optional_argument, optional_argument => true
  | _, _ => false
  end.

(** [strchr(optstring, c)] and the colons that follow the character. *)
Fixpoint find_short (c : ascii) (optstring : string) : option has_arg_t :=
  match optstring with
  | EmptyString => None
  | String o rest =>
      if Ascii.eqb o c then
        Some match rest with
             | String ":" (String ":" _) => optional_argument
             | String ":" _ => required_argument
             | _ => no_argument
             end
      else find_short c rest
  end.

(** The characters after the ['-'] of an element, one return per option
    character; [next] is the following element of [argv], if any, and the
    boolean tells whether it was taken as an argument. *)
Fixpoint scan_cluster (optstring : string) (cl : string) (next : option string)
  : list ret_t * bool :=
  match cl with
  | EmptyString => ([], false)
  | String c cl' =>
      let found :=
        if Ascii.eqb c ":" || Ascii.eqb c ";" then None
        else find_short c optstring in
      let here oa :=
        {| ret_c := code_of c; ret_optarg := oa; ret_longind := None;
           ret_err := None |} in
      match found with
      | None =>
          let '(rs, used) := scan_cluster optstring cl' next in
          (unknown (InvalidOption c) :: rs, used)
      | Some no_argument =>
          let '(rs, used) := scan_cluster optstring cl' next in
          (here None :: rs, used)
      | Some required_argument =>
          match cl', next with
          | String _ _, _ => ([here (Some cl')], false)
          | EmptyString, Some a => ([here (Some a)], true)
          | EmptyString, None => ([unknown (ArgumentMissing c)], false)
          end
      | Some optional_argument =>
          match cl' with
          | String _ _ => ([here (Some cl')], false)
          | EmptyString => ([here None], false)
          end
      end
  end.

(** A long option's text split at its first ['=']. *)
Fixpoint split_eq (s : string) : string * option string :=
  match s with
  | EmptyString => (EmptyString, None)
  | String c s' =>
      if Ascii.eqb c "=" then (EmptyString, Some s')
      else let '(n, v) := split_eq s' in (String c n, v)
  end.

Fixpoint indexed {A} (i : Z) (l : list A) : list (Z * A) :=
  match l with
  | [] => []
  | x :: l' => (i, x) :: indexed (i + 1) l'
  end.

(** The table entry a long name selects: an exact match, or else the
    entries it abbreviates when they all mean the same. *)
Definition find_long (longopts : list option_t) (nm : string)
  : option (Z * option_t) :=
  let entries := indexed 0 longopts in
  match filter (λ e, String.eqb (name e.2) nm = true) entries with
  | e :: _ => Some e
  | [] =>
      match filter (λ e, String.prefix nm (name e.2) = true) entries with
      | [] => None
      | e :: es =>
          if forallb (λ e', has_arg_eqb (has_arg e'.2) (has_arg e.2)
                            && (val e'.2 =? val e.2)) es
          then Some e else None
      end
  end.

(** The line written when a long name selects no entry: the name is
    unknown when it abbreviates nothing; otherwise it is ambiguous, and
    the possibilities listed are the first entry it abbreviates and the
    later ones that differ from it. *)
Definition not_found (longopts : list option_t) (nm body : string) : complaint :=
  match filter (λ e, String.prefix nm (name e.2) = true) (indexed 0 longopts) with
  | [] => Unrecognized body
  | e :: es =>
      Ambiguous body
        (name e.2 ::
         ((λ e', name e'.2) <$>
          filter (λ e', (has_arg_eqb (has_arg e'.2) (has_arg e.2)
                         && (val e'.2 =? val e.2)) = false) es))
  end.

(** An element ["--name"] or ["--name=value"], without its dashes. *)
Definition scan_long (longopts : list option_t) (body : string)
    (next : option string) : ret_t * bool :=
  let '(nm, value) := split_eq body in
  match find_long longopts nm with
  | None => (unknown (not_found longopts nm body), false)
  | Some (i, o) =>
      let here oa :=
        {| ret_c := val o; ret_optarg := oa; ret_longind := Some i;
           ret_err := None |} in
      match value, has_arg o, next with
      | Some _, no_argument, _ => (unknown (ArgumentNotAllowed (name o)), false)
      | Some v, _, _ => (here (Some v), false)
      | None, required_argument, Some a => (here (Some a), true)
      | None, required_argument, None =>
          (unknown (LongArgumentMissing (name o)), false)
      | None, _, _ => (here None, false)
      end
  end.

Inductive element :=
| Terminator                 (* the element "--" *)
| LongOption (body : string) (* "--" followed by more *)
| ShortOptions (cl : string) (* "-" followed by more *)
| NonOption.                 (* anything else, "-" included *)

Definition classify (a : string) : element :=
  match a with
  | String "-" EmptyString => NonOption
  | String "-" (String "-" EmptyString) => Terminator
  | String "-" (String "-" body) => LongOption body
  | String "-" cl => ShortOptions cl
  | _ => NonOption
  end.

(** The scan of [argv[1..]]: the returns before [-1], and the elements
    left at [argv[optind..]].  [posixly_correct] tells whether
    [POSIXLY_CORRECT] is set in the environment. *)
Fixpoint scan (posixly_correct : bool) (optstring : string)
    (longopts : list option_t) (args : list string)
  : list ret_t * list string :=
  match args with
  | [] => ([], [])
  | a :: rest =>
      let continue (rs : list ret_t) (used : bool) :=
        match rest with
        | [] => (rs, [])
        | b :: rest' =>
            let '(rs', nonopts) :=
              if used then scan posixly_correct optstring longopts rest'
              else scan posixly_correct optstring longopts rest in
            (rs ++ rs', nonopts)
        end in
      match classify a with
      | Terminator => ([], rest)
      | NonOption =>
          if posixly_correct then ([], a :: rest)
          else
            let '(rs, nonopts) := scan posixly_correct optstring longopts rest in
            (rs, a :: nonopts)
      | LongOption body =>
          let '(r, used) := scan_long longopts body (head rest) in
          continue [r] used
      | ShortOptions cl =>
          let '(rs, used) := scan_cluster optstring cl (head rest) in
          continue rs used
      end
  end.

(** [getopt_long(argc, argv, optstring, longopts, &longindex)] called until
    it returns [-1]. *)
Definition getopt_long (posixly_correct : bool) (argv : list string)
    (optstring : string) (longopts : list option_t)
  : list ret_t * list string :=
  scan posixly_correct optstring longopts (tail argv).

End Getopt.

(** ** The program: options, collaborators and [main] *)

Module Tool.

(** *** The process and its environment *)

(** [enum { CMD_NONE, CMD_GENERATE, ... }] *)
Inductive cmd_t :=
| CMD_NONE | CMD_GENERATE | CMD_CALCULATE | CMD_RESEAL | CMD_RECOVER | CMD_CLEAN.

(** [static struct opt { cmd; nvindex; password; time; verbose; } opt] *)
Record opt_t := Opt {
  cmd : cmd_t;
  nvindex : Z;
  password : option string;
  time : Z;
  verbose : Z
}.

(** What is written to the error stream: literal text, the two
    formatted diagnostics of the program, and the line [getopt_long]
    writes on its own account. *)
Inductive message :=
| Text (s : string)
| UnknownOptionAt (opt_idx : Z)     (* "Unknown option at index %i.\n\n" *)
| ErrorIn (line : Z) (rc : Z)       (* chkrc: "ERROR in %s (%s:%i): 0x%08x\n" *)
| GetoptSays (argv0 : string) (e : Getopt.complaint).
                                    (* "%s: <complaint>\n", by getopt_long *)

(** The calls made to the secure-storage library, with their arguments. *)
Inductive call :=
| GenerateKey (pcrs banks : Z) (pw : option string)
| StoreKey (blob : list byte) (nv : Z)
| LoadKey (nv : Z)
| Calculate (blob : list byte)
| Reseal (blob : list byte) (pw : option string) (pcrs banks : Z)
| GetSecret (blob : list byte) (pw : option string)
| DeleteKey (nv : Z).

(** The C library, its environment and libqrencode, as far as the program
    uses them. *)
Record libs := {
  (** whether [POSIXLY_CORRECT] is set in the environment, which
      [getopt_long] consults *)
  posixly_correct : bool;
  (** [sscanf(s, "0x%x", &n)]: the value stored when it returns 1 *)
  sscanf_0x_x : string → option Z;
  (** [sscanf(s, "%i", &n)]: the value stored when it returns 1 *)
  sscanf_i : string → option Z;
  (** whether [localtime(&now)] returns a null pointer (the year does not
      fit in an [int]) *)
  localtime_null : Z → bool;
  (** the text ["%Y-%m-%d %H:%M:%S: "] yields for [localtime(&now)] *)
  strftime_local : Z → string;
  (** [QRcode_encodeString(url, 0, QR_ECLEVEL_L, QR_MODE_8, 1)], [None]
      for a null result *)
  QRcode_encodeString : string → option Qr.QRcode
}.

Definition TSS2_RC_SUCCESS : Z := 0.

Section Process.

(** The state of the secure-storage subsystem, whatever it is. *)
Context {Dev : Type}.

(** The secure-storage library [tpm2-totp.h]: each function returns its
    [rc], its outputs, and the subsystem's new state. *)
Record tpm := {
  tpm2totp_generateKey :
    Z → Z → option string → Dev → (Z * list byte * list byte) * Dev;
  tpm2totp_storeKey_nv : list byte → Z → Dev → Z * Dev;
  tpm2totp_loadKey_nv : Z → Dev → (Z * list byte) * Dev;
  tpm2totp_calculate : list byte → Dev → (Z * Z * Z) * Dev;
  tpm2totp_reseal :
    list byte → option string → Z → Z → Dev → (Z * list byte) * Dev;
  tpm2totp_getSecret : list byte → option string → Dev → (Z * list byte) * Dev;
  tpm2totp_deleteKey_nv : Z → Dev → Z * Dev
}.

(** The process: the global [opt], both output streams, the calls made so
    far and the state of the subsystem. *)
Record world := World {
  w_opt : opt_t;
  w_out : string;
  w_err : list message;
  w_calls : list call;
  w_tpm : Dev
}.

(** Nothing was printed, no call was made, and the subsystem is as it
    was. *)
Definition quiet (w w' : world) : Prop :=
  w_out w' = w_out w ∧ w_calls w' = w_calls w ∧ w_tpm w' = w_tpm w.

(** A computation of the process. *)
Definition M (A : Type) : Type := world → res A * world.

#[global] Instance M_ret : MRet M := λ A a w, (Ok a, w).
#[global] Instance M_bind : MBind M := λ A B f m w,
  match m w with
  | (Ok a, w') => f a w'
  | (Exit s, w') => (Exit s, w')
  | (Fault e, w') => (Fault e, w')
  end.

Definition exit {A} (status : Z) : M A := λ w, (Exit status, w).

(** Undefined behaviour inside a helper ends the run. *)
Definition lift {A} (r : res A) : M A := λ w, (r, w).

Definition get_opt : M opt_t := λ w, (Ok (w_opt w), w).

Definition set_opt (f : opt_t → opt_t) : M unit := λ w,
  (Ok tt, World (f (w_opt w)) (w_out w) (w_err w) (w_calls w) (w_tpm w)).

(** [printf("%s", s)] *)
Definition printf (s : string) : M unit := λ w,
  (Ok tt, World (w_opt w) (w_out w ++ s) (w_err w) (w_calls w) (w_tpm w)).

(** [ERR(...)] *)
Definition ERR (m : message) : M unit := λ w,
  (Ok tt, World (w_opt w) (w_out w) (w_err w ++ [m]) (w_calls w) (w_tpm w)).

(** A call of the secure-storage library: it is recorded, and runs on the
    subsystem's state. *)
Definition invoke {A} (c : call) (f : Dev → A * Dev) : M A := λ w,
  let '(a, t) := f (w_tpm w) in
  (Ok a, World (w_opt w) (w_out w) (w_err w) (w_calls w ++ [c]) t).

(** [chkrc(rc, exit(1))] at source line [line]. *)
Definition chkrc (line : Z) (rc : Z) : M unit :=
  if rc =? TSS2_RC_SUCCESS then mret tt
  else (ERR (ErrorIn line rc);; exit 1).

(** *** [parse_opts] *)

Definition help : string :=
  ("Usage: [options] {generate|calculate|reseal|recover|clean}" ++ Qr.LF ++
   "Options:" ++ Qr.LF ++
   "    -h, --help      print help" ++ Qr.LF ++
   "    -N, --nvindex   TPM NV index to store data (default: 0x018094AF)" ++ Qr.LF ++
   "    -P, --password  Password for recovery/resealing (default: None)" ++ Qr.LF ++
   "    -t, --time      Show the time used for calculation" ++ Qr.LF ++
   "    -v, --verbose   print verbose messages" ++ Qr.LF ++
   Qr.LF)%string.

Definition optstr : string := "N:P:tv".

Definition long_options : list Getopt.option_t :=
  [ {| Getopt.name := "nvindex";  Getopt.has_arg := Getopt.required_argument; Getopt.val := code_of "N" |};
    {| Getopt.name := "password"; Getopt.has_arg := Getopt.required_argument; Getopt.val := code_of "P" |};
    {| Getopt.name := "time";     Getopt.has_arg := Getopt.no_argument;       Getopt.val := code_of "t" |};
    {| Getopt.name := "verbose";  Getopt.has_arg := Getopt.no_argument;       Getopt.val := code_of "v" |} ].

(** The values [getopt_long] can return for [optstr] and [long_options],
    apart from [-1]. *)
Definition returned_codes : list Z :=
  [code_of "N"; code_of "P"; code_of "t"; code_of "v"; code_of "?"].

(** A return as [getopt_long] makes them for this table: one of those
    values, with a line on the error stream exactly when it is ['?']. *)
Definition ok_ret (r : Getopt.ret_t) : Prop :=
  Getopt.ret_c r ∈ returned_codes ∧
  (Getopt.ret_err r = None ↔ Getopt.ret_c r ≠ code_of "?").

Variable L : libs.

(** The body of [switch (c)] for one return of [getopt_long]. *)
Definition handle_option (c : Z) (optarg : option string) (opt_idx : Z) : M unit :=
  if c =? code_of "h" then
    printf help;; exit 0
  else if c =? code_of "e" then
    match sscanf_0x_x L (default EmptyString optarg) with
    | Some n => set_opt (λ o, Opt (cmd o) n (password o) (time o) (verbose o))
    | None =>
        match sscanf_i L (default EmptyString optarg) with
        | Some n => set_opt (λ o, Opt (cmd o) n (password o) (time o) (verbose o))
        | None => ERR (Text ("Error parsing nvindex." ++ Qr.LF));; exit 1
        end
    end
  else if c =? code_of "P" then
    set_opt (λ o, Opt (cmd o) (nvindex o) optarg (time o) (verbose o))
  else if c =? code_of "t" then
    set_opt (λ o, Opt (cmd o) (nvindex o) (password o) 1 (verbose o))
  else if c =? code_of "v" then
    set_opt (λ o, Opt (cmd o) (nvindex o) (password o) (time o) 1)
  else
    ERR (UnknownOptionAt opt_idx);; ERR (Text help);; exit 1.

(** What a call of [getopt_long] itself writes to the error stream
    before it returns. *)
Definition getopt_writes (argv0 : string) (r : Getopt.ret_t) : M unit :=
  match Getopt.ret_err r with
  | Some e => ERR (GetoptSays argv0 e)
  | None => mret tt
  end.

(** [while (-1 != (c = getopt_long(...))) switch (c) ...] over the returns
    of [getopt_long]; [opt_idx] is the local the calls store into. *)
Fixpoint options_loop (argv0 : string) (rs : list Getopt.ret_t) (opt_idx : Z)
  : M unit :=
  match rs with
  | [] => mret tt
  | r :: rs' =>
      getopt_writes argv0 r;;
      let opt_idx := default opt_idx (Getopt.ret_longind r) in
      handle_option (Getopt.ret_c r) (Getopt.ret_optarg r) opt_idx;;
      options_loop argv0 rs' opt_idx
  end.

Definition set_cmd (c : cmd_t) : M unit :=
  set_opt (λ o, Opt c (nvindex o) (password o) (time o) (verbose o)).

(** [parse_opts(argc, argv)]; [nonopts] is [argv[optind..argc)] after the
    option loop. *)
Definition parse_opts (argv : list string) : M Z :=
  set_opt (λ _, Opt CMD_NONE 0 None 0 0);;
  let '(rs, nonopts) :=
    Getopt.getopt_long (posixly_correct L) argv optstr long_options in
  options_loop (default EmptyString (head argv)) rs 0;;
  match nonopts with
  | [] =>
      ERR (Text ("Missing command: generate, calculate, reseal, recover, clean."
                 ++ Qr.LF ++ Qr.LF));;
      ERR (Text help);; exit 1
  | arg :: more =>
      (if String.eqb arg "generate" then set_cmd CMD_GENERATE
       else if String.eqb arg "calculate" then set_cmd CMD_CALCULATE
       else if String.eqb arg "reseal" then set_cmd CMD_RESEAL
       else if String.eqb arg "recover" then set_cmd CMD_RECOVER
       else if String.eqb arg "clean" then set_cmd CMD_CLEAN
       else
         ERR (Text ("Unknown command: generate, calculate, reseal, recover, clean."
                    ++ Qr.LF ++ Qr.LF));;
         ERR (Text help);; exit 1);;
      match more with
      | [] => mret 0
      | _ :: _ => ERR (Text ("Unknown argument provided." ++ Qr.LF ++ Qr.LF));; ERR (Text help);; exit 1
      end
  end.

(** *** [qrencode] and the output of a secret *)

Definition qrencode (url : string) : M string :=
  match QRcode_encodeString L url with
  | None => ERR (Text "QRcode failed.");; exit 1
  | Some qrcode => lift (Qr.qrencode_text qrcode)
  end.

Definition URL_PREFIX : string := "otpauth://totp/TPM2-TOTP?secret=".

(** The common tail of the generate and recover branches. *)
Definition show_secret (secret : list byte) : M unit :=
  base32key ← lift (Base32.base32enc secret (Z.of_nat (length secret)));
  let url := (URL_PREFIX ++ base32key)%string in
  qrpic ← qrencode url;
  printf (qrpic ++ Qr.LF);;
  printf (url ++ Qr.LF).

(** *** Formatting the code *)

Definition digit (d : Z) : ascii := char_of (code_of "0" + d).

(** Decimal digits of a non-negative number, at most [fuel] of them. *)
Fixpoint decimal (fuel : nat) (n : Z) : string :=
  match fuel with
  | O => EmptyString
  | S fuel' =>
      if n <? 10 then String (digit n) EmptyString
      else (decimal fuel' (n / 10) ++ String (digit (n mod 10)) EmptyString)%string
  end.

Fixpoint zeros (n : nat) : string :=
  match n with
  | O => EmptyString
  | S n' => String "0" (zeros n')
  end.

(** The [uint64_t] argument read as the [long] that ["%ld"] expects. *)
Definition as_long (v : Z) : Z :=
  let u := v mod 2^64 in if u <? 2^63 then u else u - 2^64.

(** ["%06ld"]: at least six characters, zeros after the sign. *)
Definition fmt_06ld (v : Z) : string :=
  let v := as_long v in
  let ds := decimal 20 (Z.abs v) in
  if v <? 0 then
    ("-" ++ zeros (5 - String.length ds) ++ ds)%string
  else (zeros (6 - String.length ds) ++ ds)%string.

(** [strftime(timestr, sizeof(timestr)-1, fmt, localtime(&now))]: the
    result of [localtime] is passed on unchecked, and [strftime] reads
    through it; the text is stored and its length returned when it fits
    with its NUL in 99 bytes; otherwise 0 is returned. *)
Definition strftime (now : Z) : res (Z * string) :=
  if localtime_null L now then Fault NullPointer
  else
    let s := strftime_local L now in
    if Z.of_nat (String.length s) + 1 <=? 99
    then Ok (Z.of_nat (String.length s), s)
    else Ok (0, EmptyString).

(** *** [main] *)

Variable T : tpm.

Definition do_generate (o : opt_t) : M unit :=
  '(rc, secret, keyBlob) ←
    invoke (GenerateKey 0x00 0x00 (password o))
           (tpm2totp_generateKey T 0x00 0x00 (password o));
  chkrc 232 rc;;
  rc ← invoke (StoreKey keyBlob (nvindex o))
              (tpm2totp_storeKey_nv T keyBlob (nvindex o));
  chkrc 236 rc;;
  show_secret secret.

Definition do_calculate (o : opt_t) : M unit :=
  '(rc, keyBlob) ← invoke (LoadKey (nvindex o)) (tpm2totp_loadKey_nv T (nvindex o));
  chkrc 252 rc;;
  '(rc, now, totp) ← invoke (Calculate keyBlob) (tpm2totp_calculate T keyBlob);
  chkrc 256 rc;;
  timestr ←
    (if time o =? 0 then mret EmptyString
     else
       '(n, s) ← lift (strftime now);
       chkrc 260 (if n =? 0 then 1 else 0);;
       mret s);
  printf (timestr ++ fmt_06ld totp).

Definition do_reseal (o : opt_t) : M unit :=
  '(rc, keyBlob) ← invoke (LoadKey (nvindex o)) (tpm2totp_loadKey_nv T (nvindex o));
  chkrc 266 rc;;
  '(rc, newBlob) ←
    invoke (Reseal keyBlob (password o) 0x00 0x00)
           (tpm2totp_reseal T keyBlob (password o) 0x00 0x00);
  chkrc 271 rc;;
  rc ← invoke (DeleteKey (nvindex o)) (tpm2totp_deleteKey_nv T (nvindex o));
  chkrc 275 rc;;
  rc ← invoke (StoreKey newBlob (nvindex o))
              (tpm2totp_storeKey_nv T newBlob (nvindex o));
  chkrc 279 rc.

Definition do_recover (o : opt_t) : M unit :=
  '(rc, keyBlob) ← invoke (LoadKey (nvindex o)) (tpm2totp_loadKey_nv T (nvindex o));
  chkrc 283 rc;;
  '(rc, secret) ←
    invoke (GetSecret keyBlob (password o))
           (tpm2totp_getSecret T keyBlob (password o));
  chkrc 288 rc;;
  show_secret secret.

Definition do_clean (o : opt_t) : M unit :=
  rc ← invoke (DeleteKey (nvindex o)) (tpm2totp_deleteKey_nv T (nvindex o));
  chkrc 305 rc.

(** The labels of [switch (opt.cmd)]. *)
Inductive branch :=
| CaseGenerate | CaseCalculate | CaseReseal | CaseRecover | CaseClean | CaseDefault.

Definition switch (c : cmd_t) : branch :=
  match c with
  | CMD_GENERATE => CaseGenerate
  | CMD_CALCULATE => CaseCalculate
  | CMD_RESEAL => CaseReseal
  | CMD_RECOVER => CaseRecover
  | CMD_CLEAN => CaseClean
  | CMD_NONE => CaseDefault
  end.

Definition run_branch (b : branch) (o : opt_t) : M unit :=
  match b with
  | CaseGenerate => do_generate o
  | CaseCalculate => do_calculate o
  | CaseReseal => do_reseal o
  | CaseRecover => do_recover o
  | CaseClean => do_clean o
  | CaseDefault => exit 1
  end.

(** [main(argc, argv)]: its return value, or the status of [exit]. *)
Definition main (argv : list string) : M Z :=
  rc ← parse_opts argv;
  (if rc =? 0 then mret tt else exit 1);;
  o ← get_opt;
  run_branch (switch (cmd o)) o;;
  mret 0.

End Process.

(** ["%06ld"] of a code below one million, digit by digit. *)
Definition six_digits (n : Z) : string :=
  String (digit (n / 100000 mod 10))
    (String (digit (n / 10000 mod 10))
       (String (digit (n / 1000 mod 10))
          (String (digit (n / 100 mod 10))
             (String (digit (n / 10 mod 10))
                (String (digit (n mod 10)) EmptyString))))).

(** The process before [main] runs: [opt] zero-initialised, nothing
    written, no call made. *)
Definition start {Dev} (t : Dev) : world :=
  World (Opt CMD_NONE 0 None 0 0) EmptyString [] [] t.

End Tool.

(** ** Test doubles for the collaborators *)

Module Double.
Import Tool.

(** A secure-storage double with one NV slot: the subsystem's state is the
    blob stored in the slot, if any.  Storing into an occupied slot, and
    loading or deleting an empty one, fail with [rc = 1]. *)
Definition nv := option (list byte).

Definition secret5 : list byte := [x00; x00; x00; x00; x00].
Definition blob1 : list byte := [x01; x02; x03].
Definition blob2 : list byte := [x04; x05; x06].

Definition fake_tpm (code : Z) : @tpm nv := {|
  tpm2totp_generateKey := λ _ _ _ s, ((0, secret5, blob1), s);
  tpm2totp_storeKey_nv := λ blob _ s,
    match s with Some _ => (1, s) | None => (0, Some blob) end;
  tpm2totp_loadKey_nv := λ _ s,
    match s with Some blob => ((0, blob), s) | None => ((1, []), s) end;
  tpm2totp_calculate := λ _ s, ((0, 1514764800, code), s);
  tpm2totp_reseal := λ _ _ _ _ s, ((0, blob2), s);
  tpm2totp_getSecret := λ _ _ s, ((0, secret5), s);
  tpm2totp_deleteKey_nv := λ _ s,
    match s with Some _ => (0, None) | None => (1, s) end
|}.

(** A double whose delete always fails, the slot staying as it is. *)
Definition stuck_tpm : @tpm nv := {|
  tpm2totp_generateKey := tpm2totp_generateKey (fake_tpm 0);
  tpm2totp_storeKey_nv := tpm2totp_storeKey_nv (fake_tpm 0);
  tpm2totp_loadKey_nv := tpm2totp_loadKey_nv (fake_tpm 0);
  tpm2totp_calculate := tpm2totp_calculate (fake_tpm 0);
  tpm2totp_reseal := tpm2totp_reseal (fake_tpm 0);
  tpm2totp_getSecret := tpm2totp_getSecret (fake_tpm 0);
  tpm2totp_deleteKey_nv := λ _ s, (5, s)
|}.

(** Library doubles: [POSIXLY_CORRECT] is not set, no number is ever
    scanned, the clock text is fixed, and every payload yields the same
    one-module matrix. *)
Definition fake_libs : libs := {|
  posixly_correct := false;
  sscanf_0x_x := λ _, None;
  sscanf_i := λ _, None;
  localtime_null := λ _, false;
  strftime_local := λ _, "2018-01-01 00:00:00: "%string;
  QRcode_encodeString := λ _,
    Some {| Qr.version := 1; Qr.width := 1; Qr.data := [1] |}
|}.

(** A double whose store always fails, the slot staying as it is. *)
Definition readonly_tpm : @tpm nv := {|
  tpm2totp_generateKey := tpm2totp_generateKey (fake_tpm 0);
  tpm2totp_storeKey_nv := λ _ _ s, (7, s);
  tpm2totp_loadKey_nv := tpm2totp_loadKey_nv (fake_tpm 0);
  tpm2totp_calculate := tpm2totp_calculate (fake_tpm 0);
  tpm2totp_reseal := tpm2totp_reseal (fake_tpm 0);
  tpm2totp_getSecret := tpm2totp_getSecret (fake_tpm 0);
  tpm2totp_deleteKey_nv := tpm2totp_deleteKey_nv (fake_tpm 0)
|}.

(** Library doubles whose QR encoder always returns null, and whose clock
    text is empty, so that [strftime] returns 0. *)
Definition no_qr_libs : libs := {|
  posixly_correct := false;
  sscanf_0x_x := sscanf_0x_x fake_libs;
  sscanf_i := sscanf_i fake_libs;
  localtime_null := localtime_null fake_libs;
  strftime_local := strftime_local fake_libs;
  QRcode_encodeString := λ _, None
|}.

Definition blank_clock_libs : libs := {|
  posixly_correct := false;
  sscanf_0x_x := sscanf_0x_x fake_libs;
  sscanf_i := sscanf_i fake_libs;
  localtime_null := localtime_null fake_libs;
  strftime_local := λ _, EmptyString;
  QRcode_encodeString := QRcode_encodeString fake_libs
|}.

End Double.

(** ** Summaries used to state further properties *)

Module Summary.
Import Tool.

(** The returns of [getopt_long] that the [switch] of [parse_opts] handles
    without leaving: ['P'], ['t'] and ['v']. *)
Definition accepted (r : Getopt.ret_t) : bool :=
  (Getopt.ret_c r =? code_of "P") || (Getopt.ret_c r =? code_of "t")
  || (Getopt.ret_c r =? code_of "v").

(** What such a return stores in [opt]. *)
Definition record_option (o : opt_t) (r : Getopt.ret_t) : opt_t :=
  if Getopt.ret_c r =? code_of "P" then
    Opt (cmd o) (nvindex o) (Getopt.ret_optarg r) (time o) (verbose o)
  else if Getopt.ret_c r =? code_of "t" then
    Opt (cmd o) (nvindex o) (password o) 1 (verbose o)
  else if Getopt.ret_c r =? code_of "v" then
    Opt (cmd o) (nvindex o) (password o) (time o) 1
  else o.

(** The command a word names, compared as [strcmp] does. *)
Definition command_of (arg : string) : option cmd_t :=
  if String.eqb arg "generate" then Some CMD_GENERATE
  else if String.eqb arg "calculate" then Some CMD_CALCULATE
  else if String.eqb arg "reseal" then Some CMD_RESEAL
  else if String.eqb arg "recover" then Some CMD_RECOVER
  else if String.eqb arg "clean" then Some CMD_CLEAN
  else None.

(** The argument of the last ['P'] among the returns, [dflt] without one. *)
Definition last_password (dflt : option string) (rs : list Getopt.ret_t)
  : option string :=
  fold_left (λ pw r, if Getopt.ret_c r =? code_of "P"
                     then Getopt.ret_optarg r else pw) rs dflt.

(** 1 when a return with value [c] occurs, 0 otherwise. *)
Definition flag (c : ascii) (rs : list Getopt.ret_t) : Z :=
  if existsb (λ r, Getopt.ret_c r =? code_of c) rs then 1 else 0.

(** What [getopt_long] itself wrote to the error stream before a
    return. *)
Definition getopt_line (argv0 : string) (r : Getopt.ret_t) : list message :=
  match Getopt.ret_err r with
  | Some e => [GetoptSays argv0 e]
  | None => []
  end.

(** The first return of a scan that the [switch] does not accept. *)
Definition first_rejected (rs : list Getopt.ret_t) : option Getopt.ret_t :=
  find (λ r, negb (accepted r)) rs.

(** What is written to the error stream when [parse_opts] leaves.  At a
    return the [switch] does not accept: the line of [getopt_long], if it
    wrote one, then the two messages of the [default] label.  Otherwise:
    one of the three texts about the command word, then the usage text. *)
Definition leaving_lines (argv0 : string) (rs : list Getopt.ret_t)
    (msgs : list message) : Prop :=
  match first_rejected rs with
  | Some r =>
      ∃ idx, msgs = getopt_line argv0 r ++ [UnknownOptionAt idx; Text help]
  | None => ∃ text, msgs = [Text text; Text help]
  end.

(** The calls a command's branch makes when each of them succeeds, in
    their order; a blob passed to a call is the one [T] returned to the
    call before. *)
Definition command_calls {Dev} (T : @tpm Dev) (o : opt_t) (t : Dev) : list call :=
  let nv := nvindex o in
  let pw := password o in
  match cmd o with
  | CMD_GENERATE =>
      let '((_, _, keyBlob), _) := tpm2totp_generateKey T 0 0 pw t in
      [GenerateKey 0 0 pw; StoreKey keyBlob nv]
  | CMD_CALCULATE =>
      let '((_, keyBlob), _) := tpm2totp_loadKey_nv T nv t in
      [LoadKey nv; Calculate keyBlob]
  | CMD_RESEAL =>
      let '((_, keyBlob), t1) := tpm2totp_loadKey_nv T nv t in
      let '((_, newBlob), _) := tpm2totp_reseal T keyBlob pw 0 0 t1 in
      [LoadKey nv; Reseal keyBlob pw 0 0; DeleteKey nv; StoreKey newBlob nv]
  | CMD_RECOVER =>
      let '((_, keyBlob), _) := tpm2totp_loadKey_nv T nv t in
      [LoadKey nv; GetSecret keyBlob pw]
  | CMD_CLEAN => [DeleteKey nv]
  | CMD_NONE => []
  end.

(** The NV index a call names, if it names one. *)
Definition call_nv (c : call) : option Z :=
  match c with
  | StoreKey _ nv | LoadKey nv | DeleteKey nv => Some nv
  | _ => None
  end.

(** The PCR selection and bank arguments of a call, if it has them. *)
Definition call_pcrs (c : call) : option (Z * Z) :=
  match c with
  | GenerateKey pcrs banks _ | Reseal _ _ pcrs banks => Some (pcrs, banks)
  | _ => None
  end.

(** The password argument of a call, if it has one. *)
Definition call_pw (c : call) : option (option string) :=
  match c with
  | GenerateKey _ _ pw | Reseal _ pw _ _ | GetSecret _ pw => Some pw
  | _ => None
  end.

(** A call whose NV index and password are those of [o], and whose PCR
    selection and banks are both [0x00]. *)
Definition call_uses (o : opt_t) (c : call) : Prop :=
  (∀ nv, call_nv c = Some nv → nv = nvindex o) ∧
  (∀ p, call_pcrs c = Some p → p = (0, 0)) ∧
  (∀ pw, call_pw c = Some pw → pw = password o).

(** What a run of one branch of [main]'s [switch] leaves behind: [opt] as
    it was, calls that use [o], and a diagnostic exactly when the process
    leaves. *)
Definition branch_outcome {Dev} (o : opt_t) (b : branch) (w w' : @world Dev)
    (r : res unit) : Prop :=
  w_opt w' = w_opt w ∧
  ∃ calls errs,
    w_calls w' = w_calls w ++ calls ∧
    w_err w' = w_err w ++ errs ∧
    Forall (call_uses o) calls ∧
    match r with
    | Ok _ => errs = [] ∧ b ≠ CaseDefault
    | Exit s => s = 1 ∧ w_out w' = w_out w ∧ (b = CaseDefault ∨ ∃ m, errs = [m])
    | Fault _ => errs = [] ∧ w_out w' = w_out w
    end.

(** Two processes that differ at most in the global [opt]. *)
Definition agree {Dev} (w w' : @world Dev) : Prop :=
  w_out w = w_out w' ∧ w_err w = w_err w' ∧ w_calls w = w_calls w' ∧
  w_tpm w = w_tpm w'.

(** Two computations that, started in such processes, end alike. *)
Definition alike {Dev A} (m m' : @M Dev A) : Prop :=
  ∀ w w', agree w w' → (m w).1 = (m' w').1 ∧ agree (m w).2 (m' w').2.

(** A helper's result that is not a call of [exit]. *)
Definition no_exit {A} (r : res A) : Prop := ∀ s, r ≠ Exit s.

End Summary.

(** ** Matrices that look the same *)

Module QrSame.

(** Two module bytes with the same bit 0, the bit [qrencode] tests. *)
Definition same_module (d d' : Z) : Prop := Z.land d 0x01 = Z.land d' 0x01.

(** Two matrices of the same width whose modules agree in bit 0. *)
Definition same_modules (q q' : Qr.QRcode) : Prop :=
  Qr.width q = Qr.width q' ∧ Forall2 same_module (Qr.data q) (Qr.data q').

End QrSame.

(** ** A reference decoder for RFC 4648 base32 *)

Module Base32Decode.
Import Base32Spec.

(** The five bits of a symbol value, most significant first. *)
Definition bits5 (v : Z) : list bool :=
  [Z.testbit v 4; Z.testbit v 3; Z.testbit v 2; Z.testbit v 1; Z.testbit v 0].

(** Whole bytes of a bit stream; bits left over at the end are dropped. *)
Fixpoint bytes_of_bits (bs : list bool) : list byte :=
  match bs with
  | b7 :: b6 :: b5 :: b4 :: b3 :: b2 :: b1 :: b0 :: bs' =>
      Byte.of_bits (b0, (b1, (b2, (b3, (b4, (b5, (b6, b7))))))) :: bytes_of_bits bs'
  | _ => []
  end.

(** The symbol value of a character of the alphabet. *)
Definition symbol_of_char (c : Z) : Z :=
  if c <? code_of "A" then c - code_of "2" + 26 else c - code_of "A".

(** The characters before the first ['=']. *)
Fixpoint before_pad (cs : list Z) : list Z :=
  match cs with
  | [] => []
  | c :: cs' => if c =? code_of "=" then [] else c :: before_pad cs'
  end.

Definition rfc4648_decode (s : string) : list byte :=
  bytes_of_bits ((symbol_of_char <$> before_pad (chars_of_string s)) ≫= bits5).

End Base32Decode.

(** * Proofs *)

(** ** Test vectors *)

Example base32enc_foobar :
  Base32.base32enc [x66; x6f; x6f; x62; x61; x72] 6 = Ok "MZXW6YTBOI======"%string.
Proof. vm_compute. reflexivity. Qed.

Example rfc4648_foobar :
  Base32Spec.rfc4648_base32 [x66; x6f; x6f; x62; x61; x72] = "MZXW6YTBOI======"%string.
Proof. vm_compute. reflexivity. Qed.

Example rfc4648_foob :
  Base32Spec.rfc4648_base32 [x66; x6f; x6f; x62] = "MZXW6YQ="%string.
Proof. vm_compute. reflexivity. Qed.

Example qr_one_dark :
  Qr.qrencode_text {| Qr.version := 1; Qr.width := 1; Qr.data := [1] |} =
  Ok (Qr.picture {| Qr.version := 1; Qr.width := 1; Qr.data := [1] |}).
Proof. vm_compute. reflexivity. Qed.

Example qr_two :
  Qr.rasterize {| Qr.version := 1; Qr.width := 2; Qr.data := [1; 0; 2; 3] |} =
  Ok ((Some <$> chars_of_string
         (Qr.picture {| Qr.version := 1; Qr.width := 2; Qr.data := [1; 0; 2; 3] |}))
        ++ [Some 0; None; None], 102).
Proof. vm_compute. reflexivity. Qed.

Example run_clean_empty :
  Tool.main Double.fake_libs (Double.fake_tpm 42) ["tpm2-totp"; "clean"]%string
    (Tool.start None) =
  (Exit 1,
   Tool.World (Tool.Opt Tool.CMD_CLEAN 0 None 0 0) EmptyString
     [Tool.ErrorIn 305 1] [Tool.DeleteKey 0] None).
Proof. vm_compute. reflexivity. Qed.

Example run_calculate_time :
  Tool.main Double.fake_libs (Double.fake_tpm 42)
    ["tpm2-totp"; "--time"; "calculate"]%string (Tool.start (Some Double.blob1)) =
  (Ok 0,
   Tool.World (Tool.Opt Tool.CMD_CALCULATE 0 None 1 0)
     "2018-01-01 00:00:00: 000042"%string
     [] [Tool.LoadKey 0; Tool.Calculate Double.blob1] (Some Double.blob1)).
Proof. vm_compute. reflexivity. Qed.

Example run_generate :
  Tool.w_out
    (Tool.main Double.fake_libs (Double.fake_tpm 42)
       ["tpm2-totp"; "generate"; "-v"]%string (Tool.start None)).2 =
  (Qr.picture {| Qr.version := 1; Qr.width := 1; Qr.data := [1] |} ++ Qr.LF ++
   "otpauth://totp/TPM2-TOTP?secret=AAAAAAAA" ++ Qr.LF)%string.
Proof. vm_compute. reflexivity. Qed.

Example getopt_permutes :
  Getopt.getopt_long false
    ["prog"; "x"; "-tv"; "--pass=a"; "-P"; "b"; "--"; "-t"]%string
    Tool.optstr Tool.long_options =
  ([ {| Getopt.ret_c := 116; Getopt.ret_optarg := None;
        Getopt.ret_longind := None; Getopt.ret_err := None |};
     {| Getopt.ret_c := 118; Getopt.ret_optarg := None;
        Getopt.ret_longind := None; Getopt.ret_err := None |};
     {| Getopt.ret_c := 80; Getopt.ret_optarg := Some "a";
        Getopt.ret_longind := Some 1; Getopt.ret_err := None |};
     {| Getopt.ret_c := 80; Getopt.ret_optarg := Some "b";
        Getopt.ret_longind := None; Getopt.ret_err := None |} ],
   ["x"; "-t"])%string.
Proof. vm_compute. reflexivity. Qed.

Example getopt_posixly_correct :
  Getopt.getopt_long true ["prog"; "-t"; "x"; "-v"]%string
    Tool.optstr Tool.long_options =
  ([ {| Getopt.ret_c := 116; Getopt.ret_optarg := None;
        Getopt.ret_longind := None; Getopt.ret_err := None |} ],
   ["x"; "-v"])%string.
Proof. vm_compute. reflexivity. Qed.

Example getopt_complains :
  Getopt.ret_err <$>
    (Getopt.getopt_long false
       ["prog"; "-h"; "--help"; "--time=1"; "--"; "-P"]%string
       Tool.optstr Tool.long_options).1 =
  [ Some (Getopt.InvalidOption "h");
    Some (Getopt.Unrecognized "help");
    Some (Getopt.ArgumentNotAllowed "time") ].
Proof. vm_compute. reflexivity. Qed.

Example getopt_missing_argument :
  Getopt.ret_err <$>
    (Getopt.getopt_long false ["prog"; "-tP"]%string
       Tool.optstr Tool.long_options).1 =
  [ None; Some (Getopt.ArgumentMissing "P") ].
Proof. vm_compute. reflexivity. Qed.

(** ** Basic facts about machine integers and buffers *)

(** Linear arithmetic with division and remainder by constants. *)
Ltac zlia := zify; Z.to_euclidean_division_equations; lia.

Lemma size_t_small z : 0 ≤ z < 2^64 → size_t z = z.
Proof. intros. unfold size_t. by apply Z.mod_small. Qed.

Lemma land_31_bounds x : 0 ≤ Z.land x 31 < 32.
Proof.
  change 31 with (Z.ones 5). rewrite Z.land_ones; [|lia].
  apply Z.mod_pos_bound. lia.
Qed.

Lemma lor_32_bounds x y : 0 ≤ x < 32 → 0 ≤ y < 32 → 0 ≤ Z.lor x y < 32.
Proof.
  intros Hx Hy. split; [apply Z.lor_nonneg; lia|].
  destruct (Z.eq_dec (Z.lor x y) 0) as [->|Hne]; [lia|].
  change 32 with (2^5). apply Z.log2_lt_pow2.
  - assert (0 ≤ Z.lor x y) by (apply Z.lor_nonneg; lia). lia.
  - rewrite Z.log2_lor by lia.
    assert (∀ v, 0 ≤ v < 32 → Z.log2 v < 5) as Hlog.
    { intros v Hv. destruct (Z.eq_dec v 0) as [->|]; [done|].
      apply Z.log2_lt_pow2; lia. }
    apply Z.max_lub_lt; apply Hlog; lia.
Qed.

Lemma u8_small z : 0 ≤ z < 256 → u8 z = z.
Proof. intros. unfold u8. by apply Z.mod_small. Qed.

Lemma zget_nat {A} (l : list A) (n : nat) : zget l (Z.of_nat n) = l !! n.
Proof.
  unfold zget. destruct (Z.ltb_spec (Z.of_nat n) 0); [lia|].
  by rewrite Nat2Z.id.
Qed.

Lemma zset_nat {A} (l : list A) (n : nat) v :
  zset l (Z.of_nat n) v =
  match l !! n with Some _ => Some (<[n := v]> l) | None => None end.
Proof. unfold zset. by rewrite zget_nat, Nat2Z.id. Qed.

Lemma lookup_app_plus {A} (l1 l2 : list A) (k : nat) :
  (l1 ++ l2) !! (length l1 + k)%nat = l2 !! k.
Proof. rewrite lookup_app_r by lia. f_equal. lia. Qed.

Lemma load_mid b (D T : list cell) v :
  load b (D ++ Some v :: T) (Z.of_nat (length D)) = Ok v.
Proof.
  unfold load. rewrite zget_nat.
  by rewrite (list_lookup_middle D T (Some v)).
Qed.

Lemma store_mid b (D T : list cell) c v :
  store b (D ++ c :: T) (Z.of_nat (length D)) v =
  Ok ((D ++ [Some (u8 v)]) ++ T).
Proof.
  unfold store. rewrite zset_nat.
  rewrite (list_lookup_middle D T c) by done.
  replace (length D) with (length D + 0)%nat at 1 by lia.
  rewrite insert_app_r. simpl. by rewrite <- app_assoc.
Qed.

Lemma store_end b (D : list cell) v :
  store b D (Z.of_nat (length D)) v = Fault (OobWrite b (Z.of_nat (length D))).
Proof.
  unfold store. rewrite zset_nat.
  by rewrite lookup_ge_None_2 by lia.
Qed.

(** ** The [while (1)] loop of [base32enc] *)

Module Base32Loop.
Import Base32 Base32Spec.

Lemma assign_mk f inb a D c T n :
  inb !! n = Some a →
  (∀ x, 0 ≤ f x < 32) →
  Z.of_nat (length D) + 1 < 2^64 →
  assign f inb (mk D (c :: T) n) = Ok (mk (D ++ [Some (f (byte_val a))]) T n).
Proof.
  intros Hin Hf Hb. unfold assign, mk, load_const. cbn.
  rewrite zget_nat, list_lookup_fmap, Hin. cbn.
  rewrite store_mid. cbn. rewrite size_t_small by lia.
  rewrite u8_small by (specialize (Hf (byte_val a)); lia).
  rewrite length_app. cbn. do 2 f_equal. lia.
Qed.

Lemma assign_or_mk f inb a D old T n :
  inb !! n = Some a →
  (∀ x, 0 ≤ f x < 32) →
  0 ≤ old < 32 →
  Z.of_nat (length D) + 1 < 2^64 →
  assign_or f inb (mk D (Some old :: T) n) =
  Ok (mk (D ++ [Some (Z.lor old (f (byte_val a)))]) T n).
Proof.
  intros Hin Hf Hold Hb. unfold assign_or, mk, load_const. cbn.
  rewrite zget_nat, list_lookup_fmap, Hin. cbn.
  rewrite load_mid. cbn. rewrite store_mid. cbn.
  rewrite size_t_small by lia.
  rewrite u8_small by (pose proof (lor_32_bounds old _ Hold (Hf (byte_val a))); lia).
  rewrite length_app. cbn. do 2 f_equal. lia.
Qed.

Lemma advance_break in_size D T n :
  in_size = Z.of_nat (S n) → in_size < 2^64 →
  advance in_size (mk D T n) = (true, mk D T (S n)).
Proof.
  intros -> Hb. unfold advance, mk. cbn [st_j st_i st_r].
  rewrite size_t_small by lia.
  replace (Z.of_nat n + 1) with (Z.of_nat (S n)) by lia.
  by rewrite Z.leb_refl.
Qed.

Lemma advance_cont in_size D x T n :
  Z.of_nat (S n) < in_size < 2^64 →
  Z.of_nat (length D) < 2^64 →
  advance in_size (mk (D ++ [x]) T n) = (false, mk D (x :: T) (S n)).
Proof.
  intros Hb HD. unfold advance, mk. cbn [st_j st_i st_r].
  rewrite (size_t_small (_ + 1)) by lia.
  replace (Z.of_nat n + 1) with (Z.of_nat (S n)) by lia.
  destruct (Z.leb_spec in_size (Z.of_nat (S n))); [lia|].
  rewrite length_app. cbn [length].
  rewrite size_t_small by lia.
  rewrite <- app_assoc. cbn. do 2 f_equal. lia.
Qed.

Lemma advance_last_mk in_size D T n :
  Z.of_nat (S n) < 2^64 →
  advance_last in_size (mk D T n) = (in_size <=? Z.of_nat (S n), mk D T (S n)).
Proof.
  intros Hb. unfold advance_last, mk. cbn [st_j st_i st_r].
  rewrite size_t_small by lia.
  by replace (Z.of_nat n + 1) with (Z.of_nat (S n)) by lia.
Qed.

Lemma lookup_after {A} (pre l : list A) (k : nat) :
  (pre ++ l) !! (k + length pre)%nat = l !! k.
Proof. rewrite Nat.add_comm. apply lookup_app_plus. Qed.

#[local] Arguments mk : simpl never.
#[local] Arguments assign : simpl never.
#[local] Arguments assign_or : simpl never.
#[local] Arguments advance : simpl never.
#[local] Arguments advance_last : simpl never.
#[local] Arguments Nat.mul : simpl never.

Ltac b32_step :=
  first
    [ erewrite assign_mk;
        [ | eassumption | intros; apply land_31_bounds
          | rewrite ?length_app in *; simpl in *; lia ]
    | erewrite assign_or_mk;
        [ | eassumption | intros; apply land_31_bounds
          | first [ apply land_31_bounds | apply lor_32_bounds; apply land_31_bounds ]
          | rewrite ?length_app in *; simpl in *; lia ]
    | rewrite advance_break by (rewrite ?length_app in *; simpl in *; lia)
    | rewrite advance_cont by (rewrite ?length_app in *; simpl in *; lia)
    | rewrite advance_last_mk by (rewrite ?length_app in *; simpl in *; lia) ];
  cbn [mbind res_bind].

Lemma loop_symbols_full a b c d e l :
  loop_symbols (a :: b :: c :: d :: e :: l) =
  [shr5 a 3; Z.lor (shl5 a 2) (shr5 b 6); shr5 b 1;
   Z.lor (shl5 b 4) (shr5 c 4); Z.lor (shl5 c 1) (shr5 d 7);
   shr5 d 2; Z.lor (shl5 d 3) (shr5 e 5); low5 e] ++ loop_symbols l.
Proof. reflexivity. Qed.

Ltac b32_done :=
  rewrite <- ?app_assoc, ?length_app; simpl;
  rewrite ?Nat.add_succ_r, ?Nat.add_0_r; reflexivity.

Lemma while_1_spec fuel : ∀ rest pre D T,
  rest ≠ [] →
  (length rest ≤ 5 * fuel)%nat →
  (length (loop_symbols rest) ≤ length T)%nat →
  Z.of_nat (length D + length T) < 2^64 →
  Z.of_nat (length (pre ++ rest)) < 2^64 →
  while_1 fuel (pre ++ rest) (Z.of_nat (length (pre ++ rest)))
    (mk D T (length pre)) =
  Ok (mk (D ++ (Some <$> loop_symbols rest))
         (drop (length (loop_symbols rest)) T)
         (length (pre ++ rest))).
Proof.
  induction fuel as [|fuel IH]; intros rest pre D T Hne Hfuel Hroom HD Hin.
  { destruct rest; [done | simpl in Hfuel; lia]. }
  destruct rest as [|a [|b [|c [|d [|e [|f rest']]]]]]; [done | ..].
  - (* one byte left *)
    pose proof (lookup_after pre [a] 0) as H0.
    destruct T as [|c0 [|c1 T]]; try (simpl in Hroom; lia).
    simpl in *. unfold loop_body.
    do 3 b32_step. b32_done.
  - (* two bytes left *)
    pose proof (lookup_after pre [a; b] 0) as H0.
    pose proof (lookup_after pre [a; b] 1) as H1.
    destruct T as [|c0 [|c1 [|c2 [|c3 T]]]]; try (simpl in Hroom; lia).
    simpl in *. unfold loop_body.
    do 7 b32_step. b32_done.
  - (* three bytes left *)
    pose proof (lookup_after pre [a; b; c] 0) as H0.
    pose proof (lookup_after pre [a; b; c] 1) as H1.
    pose proof (lookup_after pre [a; b; c] 2) as H2.
    destruct T as [|c0 [|c1 [|c2 [|c3 [|c4 T]]]]]; try (simpl in Hroom; lia).
    simpl in *. unfold loop_body.
    do 10 b32_step. b32_done.
  - (* four bytes left *)
    pose proof (lookup_after pre [a; b; c; d] 0) as H0.
    pose proof (lookup_after pre [a; b; c; d] 1) as H1.
    pose proof (lookup_after pre [a; b; c; d] 2) as H2.
    pose proof (lookup_after pre [a; b; c; d] 3) as H3.
    destruct T as [|c0 [|c1 [|c2 [|c3 [|c4 [|c5 [|c6 T]]]]]]];
      try (simpl in Hroom; lia).
    simpl in *. unfold loop_body.
    do 14 b32_step. b32_done.
  - (* a last full group *)
    pose proof (lookup_after pre [a; b; c; d; e] 0) as H0.
    pose proof (lookup_after pre [a; b; c; d; e] 1) as H1.
    pose proof (lookup_after pre [a; b; c; d; e] 2) as H2.
    pose proof (lookup_after pre [a; b; c; d; e] 3) as H3.
    pose proof (lookup_after pre [a; b; c; d; e] 4) as H4.
    destruct T as [|c0 [|c1 [|c2 [|c3 [|c4 [|c5 [|c6 [|c7 T]]]]]]]];
      try (simpl in Hroom; lia).
    simpl in *. unfold loop_body.
    do 17 b32_step.
    destruct (Z.leb_spec (Z.of_nat (length (pre ++ [a; b; c; d; e])))
                (Z.of_nat (S (S (S (S (S (length pre)))))))) as [_|Hlt];
      [| rewrite length_app in Hlt; simpl in Hlt; lia].
    simpl. b32_done.
  - (* a full group followed by more input *)
    pose proof (lookup_after pre (a :: b :: c :: d :: e :: f :: rest') 0) as H0.
    pose proof (lookup_after pre (a :: b :: c :: d :: e :: f :: rest') 1) as H1.
    pose proof (lookup_after pre (a :: b :: c :: d :: e :: f :: rest') 2) as H2.
    pose proof (lookup_after pre (a :: b :: c :: d :: e :: f :: rest') 3) as H3.
    pose proof (lookup_after pre (a :: b :: c :: d :: e :: f :: rest') 4) as H4.
    simpl in H0, H1, H2, H3, H4.
    assert (length (loop_symbols (a :: b :: c :: d :: e :: f :: rest')) =
            (8 + length (loop_symbols (f :: rest')))%nat) as Hlen by done.
    rewrite Hlen in *.
    destruct T as [|c0 [|c1 [|c2 [|c3 [|c4 [|c5 [|c6 [|c7 T]]]]]]]];
      try (simpl in Hroom; lia).
    set (rest := f :: rest') in *.
    change (a :: b :: c :: d :: e :: rest) with ([a; b; c; d; e] ++ rest) in *.
    cbn [while_1]. unfold loop_body.
    cbn [length Nat.add] in HD, Hroom.
    do 17 b32_step.
    destruct (Z.leb_spec (Z.of_nat (length (pre ++ [a; b; c; d; e] ++ rest)))
                (Z.of_nat (S (S (S (S (S (length pre)))))))) as [Hle|_];
      [rewrite !length_app in Hle; simpl in Hle; lia|].
    cbn [mbind res_bind].
    replace (S (S (S (S (S (length pre))))))
      with (length (pre ++ [a; b; c; d; e]))
      by (rewrite length_app; simpl; lia).
    rewrite (app_assoc pre).
    assert (rest ≠ []) as Hne' by done.
    assert (length rest = S (length rest')) as Hlr by done.
    clearbody rest.
    rewrite IH.
    + change ([a; b; c; d; e] ++ rest) with (a :: b :: c :: d :: e :: rest).
      rewrite loop_symbols_full, fmap_app, <- !app_assoc. reflexivity.
    + done.
    + simpl in Hfuel. lia.
    + lia.
    + rewrite !length_app in *. simpl in *. lia.
    + rewrite <- app_assoc. done.
Qed.

End Base32Loop.

(** ** Symbols, characters and the passes after the loop *)

Module Base32Post.
Import Base32 Base32Spec.

(** Induction over a list five elements at a time. *)
Lemma list_ind5 {A} (P : list A → Prop) :
  P [] → (∀ a, P [a]) → (∀ a b, P [a; b]) → (∀ a b c, P [a; b; c]) →
  (∀ a b c d, P [a; b; c; d]) →
  (∀ a b c d e l, P l → P (a :: b :: c :: d :: e :: l)) →
  ∀ l, P l.
Proof.
  intros H0 H1 H2 H3 H4 H5 l.
  assert (∀ n l, (length l ≤ n)%nat → P l) as Hn.
  { clear l. induction n as [|n IH]; intros l Hl.
    - destruct l; [done | simpl in Hl; lia].
    - destruct l as [|a [|b [|c [|d [|e l]]]]]; auto.
      apply H5, IH. simpl in Hl. lia. }
  by apply (Hn (length l)).
Qed.

Lemma loop_symbols_length l :
  length (loop_symbols l) =
  (8 * (length l / 5) + tail_symbols (length l mod 5))%nat.
Proof.
  induction l as [| | | | |a b c d e l IH] using list_ind5; try reflexivity.
  rewrite Base32Loop.loop_symbols_full, length_app, IH.
  cbn [length].
  replace (S (S (S (S (S (length l)))))) with (length l + 1 * 5)%nat by lia.
  rewrite Nat.div_add, Nat.Div0.mod_add by lia. lia.
Qed.

Lemma loop_symbols_room l :
  (length (loop_symbols l) ≤ 8 * ((length l + 4) / 5))%nat.
Proof.
  rewrite loop_symbols_length.
  assert (length l mod 5 < 5)%nat as Hm by (apply Nat.mod_upper_bound; lia).
  destruct (length l mod 5)%nat as [|[|[|[|[|k]]]]] eqn:E;
    cbn [tail_symbols]; zlia.
Qed.

Lemma loop_symbols_bounds l : Forall (λ v, 0 ≤ v < 32) (loop_symbols l).
Proof.
  induction l as [| | | | |a b c d e l IH] using list_ind5;
    [constructor | ..];
    rewrite ?Base32Loop.loop_symbols_full; cbn [loop_symbols];
    repeat first
      [ apply Forall_nil_2 | apply Forall_cons_2 | apply Forall_app_2
      | apply land_31_bounds | apply lor_32_bounds | exact IH ].
Qed.

(** A property of every value below 32, from its 32 instances. *)
Lemma below_32_cases (P : Z → Prop) :
  Forall P (Z.of_nat <$> seq 0 32) → ∀ v, 0 ≤ v < 32 → P v.
Proof.
  intros HP v Hv. rewrite list.Forall_forall in HP. apply HP.
  apply list_elem_of_fmap. exists (Z.to_nat v). split; [lia|].
  apply elem_of_seq. lia.
Qed.

Lemma base32_char_facts v :
  0 ≤ v < 32 →
  zget base32 v = Some (base32_char v) ∧
  0 < base32_char v < 256 ∧
  base32_char v ≠ code_of "=" ∧
  base32_char v = rfc4648_alphabet v.
Proof.
  revert v. apply below_32_cases.
  repeat (apply Forall_cons_2; [vm_compute; by repeat split|]).
  apply Forall_nil_2.
Qed.

Lemma translate_spec syms : ∀ D T,
  Forall (λ v, 0 ≤ v < 32) syms →
  Z.of_nat (length D + length syms) < 2^64 →
  translate (length syms) (Z.of_nat (length D)) (D ++ (Some <$> syms) ++ T) =
  Ok (D ++ (Some <$> (base32_char <$> syms)) ++ T).
Proof.
  induction syms as [|v syms IH]; intros D T Hb Hlen; [done|].
  apply Forall_cons_1 in Hb as [Hv Hb].
  destruct (base32_char_facts v Hv) as (Hget & Hc & _).
  cbn [length translate fmap list_fmap app].
  rewrite load_mid. cbn [mbind res_bind].
  unfold load_const. rewrite Hget. cbn [mbind res_bind].
  rewrite store_mid. cbn [mbind res_bind].
  rewrite u8_small by lia.
  rewrite size_t_small by (cbn [length] in Hlen; lia).
  replace (Z.of_nat (length D) + 1)
    with (Z.of_nat (length (D ++ [Some (base32_char v)])))
    by (rewrite length_app; cbn [length]; lia).
  rewrite IH; [by rewrite <- app_assoc | done |].
  rewrite length_app. cbn [length] in *. lia.
Qed.

Lemma pad_spec n : ∀ D T,
  (n ≤ length T)%nat →
  Z.of_nat (length D + n) < 2^64 →
  pad n (Z.of_nat (length D)) (D ++ T) =
  Ok (Z.of_nat (length D + n),
      D ++ replicate n (Some (code_of "=")) ++ drop n T).
Proof.
  induction n as [|n IH]; intros D T Hn Hlen.
  { cbn [pad replicate app drop]. by rewrite Nat.add_0_r. }
  destruct T as [|c T]; [cbn [length] in Hn; lia|].
  cbn [pad]. rewrite store_mid. cbn [mbind res_bind].
  rewrite u8_small by (vm_compute; done).
  rewrite size_t_small by lia.
  replace (Z.of_nat (length D) + 1)
    with (Z.of_nat (length (D ++ [Some (code_of "=")])))
    by (rewrite length_app; cbn [length]; lia).
  rewrite IH.
  - rewrite length_app. cbn [length replicate drop].
    rewrite <- app_assoc. do 2 f_equal. lia.
  - cbn [length] in Hn. lia.
  - rewrite length_app. cbn [length]. lia.
Qed.

Lemma cstring_spec b cs : ∀ pos T,
  Forall (λ c, c ≠ 0) cs →
  cstring b pos ((Some <$> cs) ++ Some 0 :: T) = Ok cs.
Proof.
  induction cs as [|c cs IH]; intros pos T Hcs; [done|].
  apply Forall_cons_1 in Hcs as [Hc Hcs].
  cbn [fmap list_fmap app cstring].
  destruct (Z.eqb_spec c 0); [done|].
  by rewrite IH.
Qed.

Lemma enc_chars_nonzero l : Forall (λ c, c ≠ 0) (enc_chars l).
Proof.
  unfold enc_chars. apply Forall_app_2.
  - apply Forall_fmap. generalize (loop_symbols_bounds l). apply List.Forall_impl.
    intros v Hv. simpl. destruct (base32_char_facts v Hv) as (_ & ? & _). lia.
  - apply Forall_replicate. by vm_compute.
Qed.

Lemma enc_chars_length l :
  length (enc_chars l) = (8 * ((length l + 4) / 5))%nat.
Proof.
  unfold enc_chars. rewrite length_app, length_fmap, length_replicate.
  pose proof (loop_symbols_room l). lia.
Qed.

(** The encoder on a non-empty input whose size leaves [size_t]
    arithmetic free of wrap-around. *)
Lemma base32enc_nonempty (l : list byte) :
  l ≠ [] →
  Z.of_nat (length l) < 2^63 →
  base32enc l (Z.of_nat (length l)) = Ok (string_of_chars (enc_chars l)).
Proof.
  intros Hne Hsz. unfold base32enc, encode_into.
  set (n := length l) in *.
  set (out := (8 * ((n + 4) / 5))%nat).
  assert (size_t (size_t (Z.of_nat n + 4) / 5 * 8) = Z.of_nat out) as ->.
  { rewrite (size_t_small (_ + 4)) by lia.
    rewrite size_t_small; subst out; zlia. }
  assert (Z.of_nat out + 1 < 2^64) as Hout by (subst out; zlia).
  rewrite (size_t_small (_ + 1)) by lia.
  pose proof (loop_symbols_room l) as Hroom. fold n out in Hroom.
  set (syms := loop_symbols l) in *.
  (* the loop *)
  pose proof (Base32Loop.while_1_spec (S (Z.to_nat (Z.of_nat n))) l [] []
                (malloc (Z.of_nat out + 1))) as Hloop.
  cbn [app length] in Hloop. unfold mk in Hloop at 1.
  cbn [app length] in Hloop. change (Z.of_nat 0) with 0 in Hloop.
  fold n in Hloop.
  rewrite Hloop; clear Hloop.
  2: done.
  2: { rewrite Nat2Z.id. subst n. lia. }
  2: { unfold malloc. rewrite length_replicate. fold syms. lia. }
  2: { unfold malloc. rewrite length_replicate. lia. }
  2: lia.
  fold syms. cbn [mbind res_bind]. unfold mk. cbn [st_i st_r app].
  rewrite length_fmap, Nat2Z.id.
  (* what is left of the fresh buffer *)
  assert (drop (length syms) (malloc (Z.of_nat out + 1)) =
          replicate (out - length syms) None ++ [None]) as ->.
  { unfold malloc. rewrite drop_replicate.
    replace (Z.to_nat (Z.of_nat out + 1) - length syms)%nat
      with ((out - length syms) + 1)%nat by lia.
    by rewrite replicate_add. }
  (* the alphabet pass *)
  pose proof (translate_spec syms [] (replicate (out - length syms) None ++ [None]))
    as Htr.
  cbn [app length] in Htr. change (Z.of_nat 0) with 0 in Htr.
  rewrite Htr; clear Htr.
  2: apply loop_symbols_bounds.
  2: lia.
  cbn [mbind res_bind].
  (* the padding pass *)
  replace (Z.to_nat (Z.of_nat out - Z.of_nat (length syms)))
    with (out - length syms)%nat by lia.
  pose proof (pad_spec (out - length syms) (Some <$> (base32_char <$> syms))
                (replicate (out - length syms) None ++ [None])) as Hpad.
  rewrite !length_fmap in Hpad.
  rewrite Hpad; clear Hpad.
  2: { rewrite length_app, length_replicate. lia. }
  2: lia.
  cbn [mbind res_bind].
  rewrite drop_app_length' by (by rewrite length_replicate).
  (* the terminator *)
  rewrite !app_assoc.
  pose proof (store_mid BufR
                ((Some <$> (base32_char <$> syms)) ++
                 replicate (out - length syms) (Some (code_of "=")))
                [] None 0) as Hst.
  rewrite length_app, !length_fmap, length_replicate in Hst.
  rewrite Hst; clear Hst. cbn [mbind res_bind].
  change (u8 0) with 0.
  replace (replicate (out - length syms) (Some (code_of "=")))
    with (Some <$> replicate (out - length syms) (code_of "="))
    by apply fmap_replicate.
  rewrite <- fmap_app, app_nil_r.
  change ((base32_char <$> syms) ++ replicate (out - length syms) (code_of "="))
    with (enc_chars l).
  rewrite cstring_spec by apply enc_chars_nonzero.
  done.
Qed.

End Base32Post.

(** ** The encoder against RFC 4648 *)

Module Base32Rfc.
Import Base32 Base32Spec Base32Post.

Lemma all_bytes_complete (b : byte) : b ∈ all_bytes.
Proof.
  unfold all_bytes. apply list_elem_of_omap.
  exists (N.to_nat (Byte.to_N b)). split.
  - apply elem_of_seq. pose proof (Byte.to_N_bounded b). lia.
  - rewrite N2Nat.id. apply Byte.of_to_N.
Qed.

Lemma byte_forall (P : byte → bool) :
  forallb P all_bytes = true → ∀ b, P b = true.
Proof.
  intros H b. rewrite forallb_forall in H. apply H.
  apply list_elem_of_In, all_bytes_complete.
Qed.

Lemma byte_forall2 (P : byte → byte → bool) :
  forallb (λ a, forallb (P a) all_bytes) all_bytes = true →
  ∀ a b, P a b = true.
Proof.
  intros H a. apply byte_forall. revert a. by apply byte_forall.
Qed.

Ltac by_bytes1 P :=
  let a := fresh in
  intros a; apply Z.eqb_eq; revert a;
  apply (byte_forall P); vm_compute; reflexivity.

Ltac by_bytes2 P :=
  let a := fresh in let b := fresh in
  intros a b; apply Z.eqb_eq; revert a b;
  apply (byte_forall2 P); vm_compute; reflexivity.

(** The eight symbols of a group, bit by bit. *)

Lemma sym0_bits : ∀ a,
  shr5 a 3 = bits_value [bit a 7; bit a 6; bit a 5; bit a 4; bit a 3].
Proof.
  by_bytes1 (λ a, shr5 a 3 =?
                  bits_value [bit a 7; bit a 6; bit a 5; bit a 4; bit a 3]).
Qed.

Lemma sym1_bits : ∀ a b,
  Z.lor (shl5 a 2) (shr5 b 6) =
  bits_value [bit a 2; bit a 1; bit a 0; bit b 7; bit b 6].
Proof.
  by_bytes2 (λ a b, Z.lor (shl5 a 2) (shr5 b 6) =?
                    bits_value [bit a 2; bit a 1; bit a 0; bit b 7; bit b 6]).
Qed.

Lemma sym2_bits : ∀ b,
  shr5 b 1 = bits_value [bit b 5; bit b 4; bit b 3; bit b 2; bit b 1].
Proof.
  by_bytes1 (λ b, shr5 b 1 =?
                  bits_value [bit b 5; bit b 4; bit b 3; bit b 2; bit b 1]).
Qed.

Lemma sym3_bits : ∀ b c,
  Z.lor (shl5 b 4) (shr5 c 4) =
  bits_value [bit b 0; bit c 7; bit c 6; bit c 5; bit c 4].
Proof.
  by_bytes2 (λ b c, Z.lor (shl5 b 4) (shr5 c 4) =?
                    bits_value [bit b 0; bit c 7; bit c 6; bit c 5; bit c 4]).
Qed.

Lemma sym4_bits : ∀ c d,
  Z.lor (shl5 c 1) (shr5 d 7) =
  bits_value [bit c 3; bit c 2; bit c 1; bit c 0; bit d 7].
Proof.
  by_bytes2 (λ c d, Z.lor (shl5 c 1) (shr5 d 7) =?
                    bits_value [bit c 3; bit c 2; bit c 1; bit c 0; bit d 7]).
Qed.

Lemma sym5_bits : ∀ d,
  shr5 d 2 = bits_value [bit d 6; bit d 5; bit d 4; bit d 3; bit d 2].
Proof.
  by_bytes1 (λ d, shr5 d 2 =?
                  bits_value [bit d 6; bit d 5; bit d 4; bit d 3; bit d 2]).
Qed.

Lemma sym6_bits : ∀ d e,
  Z.lor (shl5 d 3) (shr5 e 5) =
  bits_value [bit d 1; bit d 0; bit e 7; bit e 6; bit e 5].
Proof.
  by_bytes2 (λ d e, Z.lor (shl5 d 3) (shr5 e 5) =?
                    bits_value [bit d 1; bit d 0; bit e 7; bit e 6; bit e 5]).
Qed.

Lemma sym7_bits : ∀ e,
  low5 e = bits_value [bit e 4; bit e 3; bit e 2; bit e 1; bit e 0].
Proof.
  by_bytes1 (λ e, low5 e =?
                  bits_value [bit e 4; bit e 3; bit e 2; bit e 1; bit e 0]).
Qed.

(** The last symbol of a short group: its missing bits are zero. *)

Lemma tail1_bits : ∀ a,
  shl5 a 2 = bits_value [bit a 2; bit a 1; bit a 0; false; false].
Proof.
  by_bytes1 (λ a, shl5 a 2 =?
                  bits_value [bit a 2; bit a 1; bit a 0; false; false]).
Qed.

Lemma tail2_bits : ∀ b,
  shl5 b 4 = bits_value [bit b 0; false; false; false; false].
Proof.
  by_bytes1 (λ b, shl5 b 4 =?
                  bits_value [bit b 0; false; false; false; false]).
Qed.

Lemma tail3_bits : ∀ c,
  shl5 c 1 = bits_value [bit c 3; bit c 2; bit c 1; bit c 0; false].
Proof.
  by_bytes1 (λ c, shl5 c 1 =?
                  bits_value [bit c 3; bit c 2; bit c 1; bit c 0; false]).
Qed.

Lemma tail4_bits : ∀ d,
  shl5 d 3 = bits_value [bit d 1; bit d 0; false; false; false].
Proof.
  by_bytes1 (λ d, shl5 d 3 =?
                  bits_value [bit d 1; bit d 0; false; false; false]).
Qed.

Lemma rfc4648_symbols_full a b c d e l :
  rfc4648_symbols (a :: b :: c :: d :: e :: l) =
  [bits_value [bit a 7; bit a 6; bit a 5; bit a 4; bit a 3];
   bits_value [bit a 2; bit a 1; bit a 0; bit b 7; bit b 6];
   bits_value [bit b 5; bit b 4; bit b 3; bit b 2; bit b 1];
   bits_value [bit b 0; bit c 7; bit c 6; bit c 5; bit c 4];
   bits_value [bit c 3; bit c 2; bit c 1; bit c 0; bit d 7];
   bits_value [bit d 6; bit d 5; bit d 4; bit d 3; bit d 2];
   bits_value [bit d 1; bit d 0; bit e 7; bit e 6; bit e 5];
   bits_value [bit e 4; bit e 3; bit e 2; bit e 1; bit e 0]]
  ++ rfc4648_symbols l.
Proof. reflexivity. Qed.

(** The loop packs the bit stream exactly as RFC 4648 prescribes. *)
Lemma loop_symbols_rfc l : loop_symbols l = rfc4648_symbols l.
Proof.
  induction l as [|a|a b|a b c|a b c d|a b c d e l IH] using list_ind5.
  - reflexivity.
  - cbn [loop_symbols]. rewrite sym0_bits, tail1_bits. reflexivity.
  - cbn [loop_symbols].
    rewrite sym0_bits, sym1_bits, sym2_bits, tail2_bits. reflexivity.
  - cbn [loop_symbols].
    rewrite sym0_bits, sym1_bits, sym2_bits, sym3_bits, tail3_bits.
    reflexivity.
  - cbn [loop_symbols].
    rewrite sym0_bits, sym1_bits, sym2_bits, sym3_bits, sym4_bits,
      sym5_bits, tail4_bits.
    reflexivity.
  - rewrite Base32Loop.loop_symbols_full, rfc4648_symbols_full, IH.
    rewrite sym0_bits, sym1_bits, sym2_bits, sym3_bits, sym4_bits,
      sym5_bits, sym6_bits, sym7_bits.
    reflexivity.
Qed.

(** Filling to a multiple of 8 characters is filling to [out_size]. *)
Lemma fill_count l :
  ((8 - length (loop_symbols l) mod 8) mod 8 =
   8 * ((length l + 4) / 5) - length (loop_symbols l))%nat.
Proof.
  rewrite loop_symbols_length.
  assert (length l mod 5 < 5)%nat as Hm by (apply Nat.mod_upper_bound; lia).
  destruct (length l mod 5)%nat as [|[|[|[|[|k]]]]] eqn:E;
    cbn [tail_symbols]; zlia.
Qed.

Lemma enc_chars_rfc l : string_of_chars (enc_chars l) = rfc4648_base32 l.
Proof.
  unfold rfc4648_base32, enc_chars.
  rewrite <- loop_symbols_rfc, fill_count. do 2 f_equal.
  apply Forall_fmap_ext_1.
  generalize (loop_symbols_bounds l). apply List.Forall_impl.
  intros v Hv. by destruct (base32_char_facts v Hv) as (_ & _ & _ & ->).
Qed.

Lemma string_of_chars_length cs : String.length (string_of_chars cs) = length cs.
Proof. induction cs as [|c cs IH]; [done|]. cbn. by rewrite IH. Qed.

Lemma string_of_chars_app cs ds :
  string_of_chars (cs ++ ds) = (string_of_chars cs ++ string_of_chars ds)%string.
Proof. induction cs as [|c cs IH]; [done|]. cbn. by rewrite IH. Qed.

Lemma count_pad_app s t : count_pad (s ++ t) = (count_pad s + count_pad t)%nat.
Proof. induction s as [|a s IH]; [done|]. cbn. rewrite IH. lia. Qed.

Lemma count_pad_symbols syms :
  Forall (λ v, 0 ≤ v < 32) syms →
  count_pad (string_of_chars (base32_char <$> syms)) = 0%nat.
Proof.
  induction 1 as [|v syms Hv _ IH]; [done|].
  cbn [fmap list_fmap string_of_chars count_pad]. rewrite IH.
  destruct (base32_char_facts v Hv) as (_ & Hr & Hne & _).
  destruct (Ascii.eqb_spec (char_of (base32_char v)) "=") as [Heq|]; [|done].
  exfalso. apply Hne. unfold char_of in Heq. unfold code_of.
  rewrite <- Heq, N_ascii_embedding; [lia|].
  change 256%N with (Z.to_N 256). lia.
Qed.

Lemma count_pad_fill n :
  count_pad (string_of_chars (replicate n (code_of "="))) = n.
Proof. induction n as [|n IH]; [done|]. cbn in *. by rewrite IH. Qed.

(** The number of ['='] characters the encoder appends. *)
Lemma count_pad_enc_chars l :
  count_pad (string_of_chars (enc_chars l)) =
  (8 * ((length l + 4) / 5) - length (loop_symbols l))%nat.
Proof.
  unfold enc_chars. rewrite string_of_chars_app, count_pad_app.
  rewrite count_pad_symbols by apply loop_symbols_bounds.
  by rewrite count_pad_fill.
Qed.

(** The padding table of the encoder, by input length modulo 5. *)
Lemma enc_padding l :
  count_pad (string_of_chars (enc_chars l)) = rfc4648_padding (length l).
Proof.
  unfold rfc4648_padding.
  rewrite count_pad_enc_chars, loop_symbols_length.
  assert (length l mod 5 < 5)%nat as Hm by (apply Nat.mod_upper_bound; lia).
  destruct (length l mod 5)%nat as [|[|[|[|[|k]]]]] eqn:E;
    cbn [tail_symbols]; zlia.
Qed.

End Base32Rfc.

(** ** The rasterizer stays inside [qrpic] *)

Module QrProofs.
Import Qr.

Lemma chk_int_ok z : INT_MIN ≤ z ≤ INT_MAX → chk_int z = Ok z.
Proof.
  intros [H1 H2]. unfold chk_int.
  destruct (Z.leb_spec INT_MIN z); [|lia].
  destruct (Z.leb_spec z INT_MAX); [done|lia].
Qed.

Lemma append_assoc (s t u : string) : ((s ++ t) ++ u = s ++ t ++ u)%string.
Proof. induction s as [|a s IH]; [done|]. cbn. by rewrite IH. Qed.

Lemma append_nil_r (s : string) : (s ++ "")%string = s.
Proof. induction s as [|a s IH]; [done|]. cbn. by rewrite IH. Qed.

Lemma chars_of_string_app s t :
  chars_of_string (s ++ t) = chars_of_string s ++ chars_of_string t.
Proof. induction s as [|a s IH]; [done|]. cbn. by rewrite IH. Qed.

Lemma chars_of_string_length s : length (chars_of_string s) = String.length s.
Proof. induction s as [|a s IH]; [done|]. cbn. by rewrite IH. Qed.

Lemma strlen_app s t : strlen (s ++ t) = strlen s + strlen t.
Proof.
  unfold strlen. rewrite <- !chars_of_string_length, chars_of_string_app.
  rewrite length_app. lia.
Qed.

Lemma code_of_bounds a : 0 ≤ code_of a < 256.
Proof. unfold code_of. pose proof (N_ascii_bounded a). lia. Qed.

Lemma chars_of_string_bounds s : Forall (λ c, 0 ≤ c < 256) (chars_of_string s).
Proof.
  induction s as [|a s IH]; [constructor|].
  cbn. constructor; [apply code_of_bounds | done].
Qed.

Lemma write_chars_spec cs : ∀ D T,
  (length cs ≤ length T)%nat →
  Forall (λ c, 0 ≤ c < 256) cs →
  write_chars (D ++ T) (Z.of_nat (length D)) cs =
  Ok (D ++ (Some <$> cs) ++ drop (length cs) T).
Proof.
  induction cs as [|c cs IH]; intros D T Hlen Hcs; [done|].
  apply Forall_cons_1 in Hcs as [Hc Hcs].
  destruct T as [|t T]; [cbn [length] in Hlen; lia|].
  cbn [write_chars]. rewrite store_mid. cbn [mbind res_bind].
  rewrite u8_small by done.
  replace (Z.of_nat (length D) + 1) with (Z.of_nat (length (D ++ [Some c])))
    by (rewrite length_app; cbn [length]; lia).
  rewrite IH; [| cbn [length] in Hlen; lia | done].
  cbn [length drop fmap list_fmap]. by rewrite <- app_assoc.
Qed.

(** One [sprintf] at the end of the text written so far. *)
Lemma sprintf_at_end txt c k text :
  (String.length text ≤ k)%nat →
  sprintf ((Some <$> chars_of_string txt) ++ c :: replicate k None)
    (strlen txt) text =
  Ok (filled (txt ++ text) (k - String.length text), strlen text).
Proof.
  intros Hk. unfold sprintf, strlen.
  rewrite <- (chars_of_string_length txt).
  rewrite <- (length_fmap Some (chars_of_string txt)).
  rewrite write_chars_spec.
  - cbn [mbind res_bind]. do 2 f_equal. unfold filled.
    rewrite chars_of_string_app, !fmap_app, <- !app_assoc.
    rewrite length_app, chars_of_string_length. cbn [length fmap list_fmap app].
    replace (String.length text + 1)%nat with (S (String.length text)) by lia.
    cbn [drop]. by rewrite drop_replicate.
  - rewrite length_app, chars_of_string_length. cbn [length].
    rewrite length_replicate. lia.
  - apply Forall_app_2; [apply chars_of_string_bounds|].
    by repeat constructor.
Qed.

Lemma sprintf_filled txt k text :
  (String.length text ≤ k)%nat →
  sprintf (filled txt k) (strlen txt) text =
  Ok (filled (txt ++ text) (k - String.length text), strlen text).
Proof. apply sprintf_at_end. Qed.

Lemma cell_text_length d : String.length (cell_text d) = 7%nat.
Proof. unfold cell_text. by destruct (_ =? _). Qed.

Lemma cells_text_length row :
  String.length (cells_text row) = (7 * length row)%nat.
Proof.
  induction row as [|d row IH]; [done|].
  cbn [cells_text fold_right length].
  fold (cells_text row).
  pose proof (strlen_app (cell_text d) (cells_text row)) as H.
  unfold strlen in H. rewrite cell_text_length in H. lia.
Qed.

Lemma line_text_cells row :
  line_text row = (light ++ cells_text row ++ line_end)%string.
Proof.
  unfold line_text. f_equal.
  induction row as [|d row IH]; [done|].
  cbn [fold_right cells_text]. fold (cells_text row).
  by rewrite IH, append_assoc.
Qed.

Lemma line_text_length row :
  String.length (line_text row) = (7 * length row + 19)%nat.
Proof.
  rewrite line_text_cells.
  pose proof (strlen_app light (cells_text row ++ line_end)) as H1.
  pose proof (strlen_app (cells_text row) line_end) as H2.
  unfold strlen in H1, H2. rewrite cells_text_length in H2.
  change (String.length light) with 7%nat in H1.
  change (String.length line_end) with 12%nat in H2. lia.
Qed.

Section Lines.
Variable q : QRcode.
Local Abbreviation w := (width q).
Hypothesis Hw : 1 ≤ w ≤ 46340.
Hypothesis Hdata : length (data q) = Z.to_nat (w * w).

(** The blocks of row [y] from column [x] on. *)
Lemma put_cells_spec y n : ∀ x txt k,
  0 ≤ y < w → 0 ≤ x → x + Z.of_nat n = w →
  (7 * n ≤ k)%nat →
  strlen txt + Z.of_nat k < 2^64 →
  put_cells n q y x (filled txt k) (strlen txt) =
  Ok (filled (txt ++ cells_text (take n (drop (Z.to_nat (y * w + x)) (data q))))
        (k - 7 * n),
      strlen (txt ++ cells_text (take n (drop (Z.to_nat (y * w + x)) (data q))))).
Proof.
  induction n as [|n IH]; intros x txt k Hy Hx Hn Hk Hsz.
  { cbn [put_cells take cells_text fold_right].
    rewrite append_nil_r. do 3 f_equal. lia. }
  cbn [put_cells]. fold w.
  assert (0 ≤ y * w ≤ 46339 * 46340) as Hyw by nia.
  assert (0 ≤ y * w + x < w * w) as Hi by nia.
  assert (w * w ≤ 46340 * 46340) as Hww by nia.
  rewrite (chk_int_ok (y * w)) by (unfold INT_MIN, INT_MAX; lia).
  cbn [mbind res_bind].
  rewrite (chk_int_ok (y * w + x)) by (unfold INT_MIN, INT_MAX; lia).
  cbn [mbind res_bind].
  destruct (lookup_lt_is_Some_2 (data q) (Z.to_nat (y * w + x))) as [d Hd];
    [rewrite Hdata; lia|].
  unfold load_const.
  replace (zget (data q) (y * w + x)) with (Some d)
    by (rewrite <- (Z2Nat.id (y * w + x)) by lia; by rewrite zget_nat).
  cbn [mbind res_bind]. fold (cell_text d).
  rewrite sprintf_filled by (rewrite cell_text_length; lia).
  cbn [mbind res_bind].
  rewrite (chk_int_ok (x + 1)) by (unfold INT_MIN, INT_MAX; lia).
  cbn [mbind res_bind].
  assert (strlen (cell_text d) = 7) as Hc
    by (unfold strlen; by rewrite cell_text_length).
  rewrite (size_t_small (strlen _)) by lia.
  pose proof (strlen_app txt (cell_text d)) as Happ.
  assert (0 ≤ strlen txt) as Hpos by (unfold strlen; lia).
  rewrite size_t_small by lia.
  rewrite <- Happ, cell_text_length.
  rewrite IH; [| done | lia | lia | lia | lia].
  rewrite (drop_S _ _ _ Hd).
  replace (Z.to_nat (y * w + (x + 1))) with (S (Z.to_nat (y * w + x))) by lia.
  cbn [take cells_text fold_right]. fold (cells_text (take n (drop (S (Z.to_nat (y * w + x))) (data q)))).
  rewrite !append_assoc. do 3 f_equal. lia.
Qed.

(** The lines of rows [y], [y+1], ... *)
Lemma put_lines_spec n : ∀ y txt k,
  0 ≤ y → y + Z.of_nat n = w →
  (n * (7 * Z.to_nat w + 19) ≤ k)%nat →
  strlen txt + Z.of_nat k < 2^64 →
  put_lines n q y (filled txt k) (strlen txt) =
  Ok (filled (txt ++ lines_text (rows (Z.to_nat w) n
                                   (drop (Z.to_nat (y * w)) (data q))))
        (k - n * (7 * Z.to_nat w + 19)),
      strlen (txt ++ lines_text (rows (Z.to_nat w) n
                                   (drop (Z.to_nat (y * w)) (data q))))).
Proof.
  induction n as [|n IH]; intros y txt k Hy Hn Hk Hsz.
  { cbn [put_lines rows lines_text fold_right].
    rewrite append_nil_r. do 3 f_equal. lia. }
  cbn [put_lines]. fold w.
  assert (0 ≤ strlen txt) as Hpos by (unfold strlen; lia).
  (* the left margin block *)
  rewrite sprintf_filled by (change (String.length light) with 7%nat; lia).
  cbn [mbind res_bind].
  change (strlen light) with 7. change (String.length light) with 7%nat.
  rewrite (size_t_small 7) by lia.
  pose proof (strlen_app txt light) as Hl. change (strlen light) with 7 in Hl.
  rewrite size_t_small by lia. rewrite <- Hl.
  (* the modules of the row *)
  rewrite put_cells_spec; [| lia | lia | lia | lia | lia].
  cbn [mbind res_bind]. rewrite Z.add_0_r.
  set (row := take (Z.to_nat w) (drop (Z.to_nat (y * w)) (data q))).
  assert (length row = Z.to_nat w) as Hrow.
  { subst row. rewrite length_take, length_drop, Hdata. nia. }
  pose proof (strlen_app (txt ++ light) (cells_text row)) as Hc.
  assert (strlen (cells_text row) = 7 * w) as Hcw
    by (unfold strlen; rewrite cells_text_length, Hrow; lia).
  (* the right margin block and the line break *)
  rewrite sprintf_filled by (change (String.length line_end) with 12%nat; lia).
  cbn [mbind res_bind].
  change (strlen line_end) with 12. change (String.length line_end) with 12%nat.
  rewrite (size_t_small 12) by lia.
  pose proof (strlen_app ((txt ++ light) ++ cells_text row) line_end) as He.
  change (strlen line_end) with 12 in He.
  rewrite size_t_small by lia. rewrite <- He.
  rewrite (chk_int_ok (y + 1)) by (unfold INT_MIN, INT_MAX; lia).
  cbn [mbind res_bind].
  rewrite IH; [| lia | lia | lia | lia].
  replace (drop (Z.to_nat ((y + 1) * w)) (data q))
    with (drop (Z.to_nat w) (drop (Z.to_nat (y * w)) (data q)))
    by (rewrite drop_drop; f_equal; nia).
  cbn [rows lines_text fold_right].
  fold (lines_text (rows (Z.to_nat w) n
                      (drop (Z.to_nat w) (drop (Z.to_nat (y * w)) (data q))))).
  fold row. rewrite line_text_cells, !append_assoc.
  do 3 f_equal. lia.
Qed.

End Lines.

Lemma string_of_chars_chars cs :
  Forall (λ c, 0 ≤ c < 256) cs → chars_of_string (string_of_chars cs) = cs.
Proof.
  induction 1 as [|c cs Hc _ IH]; [done|].
  cbn [string_of_chars chars_of_string]. rewrite IH. f_equal.
  unfold code_of, char_of. rewrite N_ascii_embedding; [lia|].
  change 256%N with (Z.to_N 256). lia.
Qed.

Lemma margin_text_length n :
  String.length (margin_text n) = (10 + Z.to_nat (Z.abs n))%nat.
Proof.
  unfold margin_text.
  rewrite <- !chars_of_string_length, !chars_of_string_app, !length_app.
  rewrite string_of_chars_chars
    by (apply Forall_replicate; apply code_of_bounds).
  rewrite length_replicate. cbn. lia.
Qed.

Lemma put_margin_spec w txt c k :
  1 ≤ w ≤ 46340 →
  (2 * Z.to_nat w + 14 ≤ k)%nat →
  strlen txt + Z.of_nat k < 2^64 →
  put_margin w ((Some <$> chars_of_string txt) ++ c :: replicate k None)
    (strlen txt) =
  Ok (filled (txt ++ margin_text (2 * (w + 2))) (k - (2 * Z.to_nat w + 14)),
      strlen (txt ++ margin_text (2 * (w + 2)))).
Proof.
  intros Hw Hk Hsz. unfold put_margin.
  rewrite (chk_int_ok (w + 2)) by (unfold INT_MIN, INT_MAX; lia).
  cbn [mbind res_bind].
  rewrite (chk_int_ok (2 * (w + 2))) by (unfold INT_MIN, INT_MAX; lia).
  cbn [mbind res_bind].
  assert (String.length (margin_text (2 * (w + 2))) = (2 * Z.to_nat w + 14)%nat)
    as Hlen by (rewrite margin_text_length; lia).
  rewrite sprintf_at_end by lia. cbn [mbind res_bind].
  assert (0 ≤ strlen txt) as Hpos by (unfold strlen; lia).
  pose proof (strlen_app txt (margin_text (2 * (w + 2)))) as Happ.
  assert (strlen (margin_text (2 * (w + 2))) = 2 * w + 14) as Hm
    by (unfold strlen; lia).
  rewrite (size_t_small (strlen _)) by lia.
  rewrite size_t_small by lia.
  rewrite <- Happ, Hlen. done.
Qed.

Lemma qrpic_size_spec w :
  1 ≤ w ≤ 46340 → qrpic_size w = Ok (7 * w * w + 23 * w + 31).
Proof.
  intros Hw. unfold qrpic_size.
  rewrite (chk_int_ok (w + 2)) by (unfold INT_MIN, INT_MAX; lia).
  cbn [mbind res_bind].
  rewrite (chk_int_ok ((w + 2) * 2)) by (unfold INT_MIN, INT_MAX; lia).
  cbn [mbind res_bind].
  rewrite (chk_int_ok ((w + 2) * 2 - 2)) by (unfold INT_MIN, INT_MAX; lia).
  cbn [mbind res_bind].
  rewrite (chk_int_ok (w + 1)) by (unfold INT_MIN, INT_MAX; lia).
  cbn [mbind res_bind].
  change (strlen fmt_margin) with 13.
  change (strlen light) with 7.
  change (strlen line_end) with 12.
  assert (w * w ≤ 46340 * 46340) as Hww by nia.
  rewrite (size_t_small ((w + 2) * 2 - 2)) by lia.
  rewrite (size_t_small ((w + 2) * 2 - 2 + 13)) by lia.
  rewrite (size_t_small (2 * _)) by lia.
  rewrite (size_t_small (w + 1)) by lia.
  rewrite (size_t_small (7 * (w + 1))) by lia.
  rewrite (size_t_small (7 * (w + 1) + 12)) by lia.
  rewrite (size_t_small w) by lia.
  rewrite (size_t_small (w * _)) by nia.
  rewrite (size_t_small (_ + w * _)) by nia.
  rewrite size_t_small by nia.
  f_equal. lia.
Qed.

Lemma rows_length (w n : nat) (ds : list Z) :
  length ds = (n * w)%nat →
  Forall (λ row, length row = w) (rows w n ds).
Proof.
  revert ds. induction n as [|n IH]; intros ds Hds; [constructor|].
  cbn [rows]. constructor.
  - rewrite length_take. lia.
  - apply IH. rewrite length_drop. lia.
Qed.

Lemma lines_text_length (w : nat) rs :
  Forall (λ row, length row = w) rs →
  String.length (lines_text rs) = (length rs * (7 * w + 19))%nat.
Proof.
  induction 1 as [|row rs Hrow _ IH]; [done|].
  cbn [lines_text fold_right length]. fold (lines_text rs).
  pose proof (strlen_app (line_text row) (lines_text rs)) as H.
  unfold strlen in H. rewrite line_text_length, Hrow in H. lia.
Qed.

Lemma rows_count (w n : nat) ds : length (rows w n ds) = n.
Proof. revert ds. induction n as [|n IH]; intros ds; [done|]. cbn. by rewrite IH. Qed.

Lemma picture_margins q :
  picture q =
  (margin_text (2 * (width q + 2)) ++
   lines_text (rows (Z.to_nat (width q)) (Z.to_nat (width q)) (data q)) ++
   margin_text (2 * (width q + 2)))%string.
Proof.
  unfold picture. f_equal.
  induction (rows _ _ _) as [|row rs IH]; [done|].
  cbn [fold_right lines_text]. fold (lines_text rs).
  by rewrite IH, append_assoc.
Qed.

Lemma picture_length q :
  1 ≤ width q ≤ 46340 →
  length (data q) = Z.to_nat (width q * width q) →
  strlen (picture q) = 7 * width q * width q + 23 * width q + 28.
Proof.
  intros Hw Hdata. rewrite picture_margins, !strlen_app.
  unfold strlen. rewrite margin_text_length.
  rewrite (lines_text_length (Z.to_nat (width q)))
    by (apply rows_length; rewrite Hdata; nia).
  rewrite rows_count. nia.
Qed.

(** The whole of [qrencode]'s writing: the picture, its NUL, and two
    cells of the allocation left over. *)
Lemma rasterize_spec q :
  1 ≤ width q ≤ 46340 →
  length (data q) = Z.to_nat (width q * width q) →
  rasterize q = Ok (filled (picture q) 2, strlen (picture q)).
Proof.
  intros Hw Hdata. unfold rasterize.
  rewrite qrpic_size_spec by done. cbn [mbind res_bind].
  set (w := width q) in *.
  assert (w * w ≤ 46340 * 46340) as Hww by nia.
  set (W := Z.to_nat w).
  assert (malloc (7 * w * w + 23 * w + 31) =
          (Some <$> chars_of_string "") ++
          None :: replicate (7 * W * W + 23 * W + 30) None) as ->.
  { unfold malloc.
    replace (Z.to_nat (7 * w * w + 23 * w + 31))
      with (S (7 * W * W + 23 * W + 30)) by (subst W; nia).
    done. }
  pose proof (put_margin_spec w "" None (7 * W * W + 23 * W + 30)) as Htop.
  change (strlen "") with 0 in Htop.
  rewrite Htop; [| done | subst W; nia | nia]. clear Htop.
  cbn [mbind res_bind String.append].
  assert (strlen (margin_text (2 * (w + 2))) = 2 * w + 14) as Hm
    by (unfold strlen; rewrite margin_text_length; lia).
  pose proof (put_lines_spec q Hw Hdata W 0 (margin_text (2 * (w + 2)))
                (7 * W * W + 23 * W + 30 - (2 * Z.to_nat w + 14))) as Hlines.
  fold w in Hlines.
  change (Z.to_nat (0 * w)) with 0%nat in Hlines. rewrite drop_0 in Hlines.
  rewrite Hlines; [| lia | subst W; lia | subst W; nia | subst W; nia].
  clear Hlines. cbn [mbind res_bind]. fold W.
  set (body := lines_text (rows W W (data q))).
  assert (strlen body = w * (7 * w + 19)) as Hbody.
  { unfold strlen. subst body.
    rewrite (lines_text_length W) by (apply rows_length; rewrite Hdata; nia).
    rewrite rows_count. subst W. nia. }
  pose proof (strlen_app (margin_text (2 * (w + 2))) body) as Happ.
  unfold filled at 1.
  rewrite put_margin_spec; [| done | subst W; nia | subst W; nia].
  rewrite picture_margins. fold w W body. rewrite !append_assoc.
  do 3 f_equal. subst W. nia.
Qed.

Lemma written_filled txt k : written (filled txt k) = S (String.length txt).
Proof.
  unfold filled. rewrite <- chars_of_string_length.
  induction (chars_of_string txt) as [|c cs IH]; cbn [fmap list_fmap app written length].
  - f_equal. induction k as [|k IHk]; [done|]. by cbn.
  - by rewrite IH.
Qed.

Lemma filled_length txt k : length (filled txt k) = (String.length txt + 1 + k)%nat.
Proof.
  unfold filled. rewrite length_app, length_fmap, chars_of_string_length.
  cbn [length]. rewrite length_replicate. lia.
Qed.

(** The picture holds no NUL, so [printf("%s")] prints all of it. *)

Lemma code_of_char_of c : 0 ≤ c < 256 → code_of (char_of c) = c.
Proof.
  intros Hc. unfold code_of, char_of. rewrite N_ascii_embedding; [lia|].
  change 256%N with (Z.to_N 256). lia.
Qed.

Lemma string_of_chars_of_string s : string_of_chars (chars_of_string s) = s.
Proof.
  induction s as [|a s IH]; [done|].
  cbn [chars_of_string string_of_chars]. rewrite IH. f_equal.
  unfold char_of, code_of. by rewrite N2Z.id, ascii_N_embedding.
Qed.

Lemma nonzero_app s t :
  Forall (λ c, c ≠ 0) (chars_of_string s) →
  Forall (λ c, c ≠ 0) (chars_of_string t) →
  Forall (λ c, c ≠ 0) (chars_of_string (s ++ t)).
Proof. intros. rewrite chars_of_string_app. by apply Forall_app_2. Qed.

Lemma nonzero_margin n : Forall (λ c, c ≠ 0) (chars_of_string (margin_text n)).
Proof.
  unfold margin_text. repeat apply nonzero_app;
    try (cbn; repeat constructor; discriminate).
  rewrite string_of_chars_chars by (apply Forall_replicate; apply code_of_bounds).
  apply Forall_replicate. discriminate.
Qed.

Lemma nonzero_cells row : Forall (λ c, c ≠ 0) (chars_of_string (cells_text row)).
Proof.
  induction row as [|d row IH]; [constructor|].
  cbn [cells_text fold_right]. apply nonzero_app; [|exact IH].
  unfold cell_text. destruct (_ =? _); cbn; repeat constructor; discriminate.
Qed.

Lemma nonzero_lines rs : Forall (λ c, c ≠ 0) (chars_of_string (lines_text rs)).
Proof.
  induction rs as [|row rs IH]; [constructor|].
  cbn [lines_text fold_right]. apply nonzero_app; [|exact IH].
  rewrite line_text_cells. repeat apply nonzero_app;
    try apply nonzero_cells; cbn; repeat constructor; discriminate.
Qed.

Lemma nonzero_picture q : Forall (λ c, c ≠ 0) (chars_of_string (picture q)).
Proof.
  rewrite picture_margins.
  apply nonzero_app; [apply nonzero_margin|].
  apply nonzero_app; [apply nonzero_lines | apply nonzero_margin].
Qed.

Lemma qrencode_text_spec q :
  1 ≤ width q ≤ 46340 →
  length (data q) = Z.to_nat (width q * width q) →
  qrencode_text q = Ok (picture q).
Proof.
  intros Hw Hdata. unfold qrencode_text.
  rewrite rasterize_spec by done. cbn [mbind res_bind]. unfold filled.
  rewrite Base32Post.cstring_spec by apply nonzero_picture.
  cbn [fmap res_fmap]. by rewrite string_of_chars_of_string.
Qed.

(** The picture has one line per row of the matrix and one per margin. *)

Lemma line_breaks_app s t :
  line_breaks (s ++ t) = (line_breaks s + line_breaks t)%nat.
Proof. induction s as [|a s IH]; [done|]. cbn. rewrite IH. lia. Qed.

Lemma line_breaks_blanks k :
  line_breaks (string_of_chars (replicate k (code_of " "))) = 0%nat.
Proof. induction k as [|k IH]; [done|]. cbn in *. by rewrite IH. Qed.

Lemma line_breaks_margin n : line_breaks (margin_text n) = 1%nat.
Proof.
  unfold margin_text. rewrite !line_breaks_app, line_breaks_blanks. reflexivity.
Qed.

Lemma line_breaks_cells row : line_breaks (cells_text row) = 0%nat.
Proof.
  induction row as [|d row IH]; [done|].
  cbn [cells_text fold_right]. fold (cells_text row).
  rewrite line_breaks_app, IH. unfold cell_text. by destruct (_ =? _).
Qed.

Lemma line_breaks_lines rs : line_breaks (lines_text rs) = length rs.
Proof.
  induction rs as [|row rs IH]; [done|].
  cbn [lines_text fold_right length]. fold (lines_text rs).
  rewrite line_breaks_app, IH, line_text_cells, !line_breaks_app.
  rewrite line_breaks_cells. reflexivity.
Qed.

Lemma line_breaks_picture q :
  line_breaks (picture q) = (Z.to_nat (width q) + 2)%nat.
Proof.
  rewrite picture_margins, !line_breaks_app, !line_breaks_margin.
  rewrite line_breaks_lines, rows_count. lia.
Qed.

End QrProofs.

(** ** What [getopt_long] can return to [parse_opts] *)

Module GetoptProofs.
Import Getopt Tool.

Ltac solve_mem := apply list_elem_of_In; cbn; tauto.

Lemma ok_unknown e : ok_ret (unknown e).
Proof.
  unfold ok_ret, returned_codes. split; [solve_mem|].
  cbn [unknown ret_err ret_c]. split; [discriminate | by intros []].
Qed.

(** A return of one of the four option characters, without a line. *)
Lemma ok_here c oa li :
  c ∈ [code_of "N"; code_of "P"; code_of "t"; code_of "v"] →
  ok_ret {| ret_c := c; ret_optarg := oa; ret_longind := li; ret_err := None |}.
Proof.
  intros Hc. unfold ok_ret, returned_codes. cbn [ret_c ret_err].
  repeat (apply elem_of_cons in Hc as [->|Hc];
          [split; [solve_mem | by split; [discriminate|]]|]).
  by apply not_elem_of_nil in Hc.
Qed.

Lemma find_short_optstr c k :
  find_short c optstr = Some k →
  c = "N"%char ∨ c = ":"%char ∨ c = "P"%char ∨ c = "t"%char ∨ c = "v"%char.
Proof.
  unfold optstr. cbn [find_short].
  repeat match goal with
         | |- context [Ascii.eqb ?a c] =>
             destruct (Ascii.eqb_spec a c) as [<-|_]; [tauto|]
         end.
  discriminate.
Qed.

Lemma scan_cluster_ok cl next :
  Forall ok_ret (scan_cluster optstr cl next).1.
Proof.
  induction cl as [|c cl IH]; [constructor|].
  cbn [scan_cluster].
  destruct (Ascii.eqb c ":" || Ascii.eqb c ";") eqn:Hsep.
  { destruct (scan_cluster optstr cl next) as [rs used].
    constructor; [apply ok_unknown | exact IH]. }
  destruct (find_short c optstr) as [k|] eqn:Hfind.
  2: { destruct (scan_cluster optstr cl next) as [rs used].
       constructor; [apply ok_unknown | exact IH]. }
  assert (code_of c ∈ [code_of "N"; code_of "P"; code_of "t"; code_of "v"]) as Hc.
  { apply find_short_optstr in Hfind.
    apply orb_false_elim in Hsep as [Hcolon _].
    destruct Hfind as [->|[->|[->|[->| ->]]]];
      try discriminate; solve_mem. }
  destruct k.
  - destruct (scan_cluster optstr cl next) as [rs used].
    constructor; [by apply ok_here | exact IH].
  - destruct cl; [destruct next|]; cbn [fst];
      apply Forall_singleton; first [by apply ok_here | apply ok_unknown].
  - destruct cl; cbn [fst]; apply Forall_singleton; by apply ok_here.
Qed.

Lemma indexed_elem {A} (l : list A) : ∀ i e, e ∈ indexed i l → e.2 ∈ l.
Proof.
  induction l as [|x l IH]; intros i e He; cbn [indexed] in He.
  - by apply not_elem_of_nil in He.
  - apply elem_of_cons in He as [->|He]; [left | right; by eapply IH].
Qed.

Lemma find_long_elem longopts nm i o :
  find_long longopts nm = Some (i, o) → o ∈ longopts.
Proof.
  unfold find_long. intros H.
  assert ((i, o) ∈ indexed 0 longopts) as He.
  { destruct (filter _ (indexed 0 longopts)) as [|e es] eqn:Hexact.
    - clear Hexact.
      destruct (filter _ (indexed 0 longopts)) as [|e es] eqn:Hpre; [done|].
      destruct (forallb _ es); [|done]. injection H as ->.
      assert ((i, o) ∈ (i, o) :: es) as Hin by left.
      rewrite <- Hpre in Hin. by apply list_elem_of_filter in Hin as [_ ?].
    - injection H as ->.
      assert ((i, o) ∈ (i, o) :: es) as Hin by left.
      rewrite <- Hexact in Hin. by apply list_elem_of_filter in Hin as [_ ?]. }
  by apply indexed_elem in He.
Qed.

Lemma long_options_vals o :
  o ∈ long_options →
  val o ∈ [code_of "N"; code_of "P"; code_of "t"; code_of "v"].
Proof.
  unfold long_options. intros H.
  repeat (apply elem_of_cons in H as [->|H]; [solve_mem|]).
  by apply not_elem_of_nil in H.
Qed.

Lemma scan_long_ok body next : ok_ret (scan_long long_options body next).1.
Proof.
  unfold scan_long. destruct (split_eq body) as [nm value].
  destruct (find_long long_options nm) as [[i o]|] eqn:Hfind;
    [|apply ok_unknown].
  apply find_long_elem, long_options_vals in Hfind.
  destruct value, (has_arg o), next; cbn [fst];
    first [apply ok_unknown | by apply ok_here].
Qed.

Lemma scan_ok posix args : Forall ok_ret (scan posix optstr long_options args).1.
Proof.
  assert (∀ n args, (length args ≤ n)%nat →
            Forall ok_ret (scan posix optstr long_options args).1) as Hn.
  { clear args. induction n as [|n IH]; intros args Hlen.
    { destruct args; [constructor | cbn [length] in Hlen; lia]. }
    destruct args as [|a rest]; [constructor|].
    cbn [length] in Hlen. cbn [scan].
    assert (∀ rs used, Forall ok_ret rs →
              Forall ok_ret
                (match rest with
                 | [] => (rs, [])
                 | _ :: rest' =>
                     let '(rs', nonopts) :=
                       if used : bool then scan posix optstr long_options rest'
                       else scan posix optstr long_options rest in
                     (rs ++ rs', nonopts)
                 end).1) as Hcont.
    { intros rs used Hrs. destruct rest as [|b rest']; [exact Hrs|].
      cbn [length] in Hlen.
      destruct used.
      - pose proof (IH rest' ltac:(lia)) as H.
        destruct (scan posix optstr long_options rest'). by apply Forall_app_2.
      - pose proof (IH (b :: rest') ltac:(cbn [length]; lia)) as H.
        destruct (scan posix optstr long_options (b :: rest')).
        by apply Forall_app_2. }
    destruct (classify a) as [|body|cl|].
    - constructor.
    - pose proof (scan_long_ok body (head rest)) as H.
      destruct (scan_long long_options body (head rest)) as [r used].
      apply Hcont. by constructor.
    - pose proof (scan_cluster_ok cl (head rest)) as H.
      destruct (scan_cluster optstr cl (head rest)) as [rs used].
      by apply Hcont.
    - destruct posix; [constructor|].
      pose proof (IH rest ltac:(lia)) as H.
      by destruct (scan false optstr long_options rest). }
  by apply (Hn (length args)).
Qed.

Lemma getopt_long_ok posix argv :
  Forall ok_ret (getopt_long posix argv optstr long_options).1.
Proof. apply scan_ok. Qed.

End GetoptProofs.

(** ** [parse_opts] *)

Module ParseProofs.
Import Getopt Tool GetoptProofs.

Section Parse.
Context {Dev : Type}.
Variable L : libs.
Implicit Types w : @world Dev.

Lemma quiet_refl w : quiet w w.
Proof. by repeat split. Qed.

Lemma quiet_trans w1 w2 w3 : quiet w1 w2 → quiet w2 w3 → quiet w1 w3.
Proof. intros (?&?&?) (?&?&?). repeat split; congruence. Qed.

(** One pass of the option switch either records a flag or the password,
    or leaves with status 1; it never prints, never touches [cmd] or
    [nvindex]. *)
Lemma handle_option_spec c oa idx w :
  c ∈ returned_codes →
  ((handle_option L c oa idx w).1 = Ok tt ∨
   (handle_option L c oa idx w).1 = Exit 1) ∧
  quiet w (handle_option L c oa idx w).2 ∧
  nvindex (w_opt (handle_option L c oa idx w).2) = nvindex (w_opt w) ∧
  cmd (w_opt (handle_option L c oa idx w).2) = cmd (w_opt w).
Proof.
  unfold returned_codes. intros H.
  repeat (apply elem_of_cons in H as [->|H];
          [cbn; by repeat split; auto|]).
  by apply not_elem_of_nil in H.
Qed.

(** The line of [getopt_long] goes to the error stream only. *)
Lemma getopt_writes_spec a0 r w :
  ∃ w1, getopt_writes a0 r w = (Ok tt, w1) ∧ quiet w w1 ∧ w_opt w1 = w_opt w.
Proof.
  unfold getopt_writes. destruct (ret_err r) as [e|]; eexists; by repeat split.
Qed.

Lemma options_loop_spec a0 rs : ∀ idx w,
  Forall ok_ret rs →
  ((options_loop L a0 rs idx w).1 = Ok tt ∨
   (options_loop L a0 rs idx w).1 = Exit 1) ∧
  quiet w (options_loop L a0 rs idx w).2 ∧
  nvindex (w_opt (options_loop L a0 rs idx w).2) = nvindex (w_opt w) ∧
  cmd (w_opt (options_loop L a0 rs idx w).2) = cmd (w_opt w).
Proof.
  induction rs as [|r rs IH]; intros idx w Hrs.
  { cbn. split; [auto|]. split; [apply quiet_refl|]. done. }
  apply Forall_cons_1 in Hrs as [[Hr _] Hrs].
  cbn [options_loop]. unfold mbind, M_bind.
  destruct (getopt_writes_spec a0 r w) as (w0 & -> & Hq0 & Ho0).
  pose proof (handle_option_spec (ret_c r) (ret_optarg r)
                (default idx (ret_longind r)) w0 Hr) as (Hres & Hq & Hnv & Hcmd).
  destruct (handle_option L (ret_c r) (ret_optarg r)
              (default idx (ret_longind r)) w0) as [res w1].
  cbn [fst snd] in *. rewrite Ho0 in Hnv, Hcmd.
  pose proof (quiet_trans _ _ _ Hq0 Hq) as Hq1.
  destruct Hres as [-> | ->].
  - destruct (IH (default idx (ret_longind r)) w1 Hrs) as (Hres' & Hq' & Hnv' & Hcmd').
    split; [done|]. split; [eapply quiet_trans; eauto|]. split; congruence.
  - cbn. auto.
Qed.

(** [parse_opts] either returns 0 with a command selected, or leaves with
    status 1.  Either way it has printed nothing on the standard output,
    made no call, and left [nvindex] at 0. *)
Lemma parse_opts_spec argv w r w' :
  parse_opts L argv w = (r, w') →
  quiet w w' ∧
  nvindex (w_opt w') = 0 ∧
  ((r = Ok 0 ∧ cmd (w_opt w') ≠ CMD_NONE) ∨ r = Exit 1).
Proof.
  unfold parse_opts. intros H.
  destruct (getopt_long (posixly_correct L) argv optstr long_options)
    as [rs nonopts] eqn:Hscan.
  pose proof (getopt_long_ok (posixly_correct L) argv) as Hrs.
  rewrite Hscan in Hrs. cbn [fst] in Hrs.
  unfold mbind, M_bind in H. cbn [set_opt] in H.
  set (w0 := World _ (w_out w) (w_err w) (w_calls w) (w_tpm w)) in H.
  assert (quiet w w0) as Hq0 by (by repeat split).
  destruct (options_loop_spec (default EmptyString (head argv)) rs 0 w0 Hrs)
    as (Hres & Hq & Hnv & Hcmd).
  destruct (options_loop L (default EmptyString (head argv)) rs 0 w0)
    as [res w1]. cbn [fst snd] in *.
  assert (quiet w w1) as Hq1 by exact (quiet_trans _ _ _ Hq0 Hq).
  destruct Hres as [-> | ->]; [|injection H as <- <-; auto].
  destruct nonopts as [|arg more].
  { cbn in H. injection H as <- <-.
    split; [|by auto]. destruct Hq1 as (?&?&?). by repeat split. }
  repeat match type of H with
         | context [String.eqb arg ?s] => destruct (String.eqb arg s)
         end;
    destruct more; cbn in H; injection H as <- <-;
    (split; [destruct Hq1 as (?&?&?); by repeat split|]);
    cbn; (split; [done|]); auto.
Qed.

End Parse.

End ParseProofs.

(** ** [main] and its command branches *)

Module MainProofs.
Import Tool ParseProofs.

Lemma zeros_length n : String.length (zeros n) = n.
Proof. induction n as [|n IH]; [done|]. cbn. by rewrite IH. Qed.

Lemma decimal_small f n : n < 10 → decimal (S f) n = String (digit n) EmptyString.
Proof. intros. cbn [decimal]. by destruct (Z.ltb_spec n 10); [|lia]. Qed.

Lemma decimal_big f n :
  10 ≤ n →
  decimal (S f) n =
  (decimal f (n / 10) ++ String (digit (n mod 10)) EmptyString)%string.
Proof. intros. cbn [decimal]. by destruct (Z.ltb_spec n 10); [lia|]. Qed.

Ltac dec_norm :=
  repeat first [ rewrite decimal_small by zlia | rewrite decimal_big by zlia ].

Ltac digits_eq :=
  lazymatch goal with
  | |- String (digit ?a) ?s = String (digit ?b) ?t =>
      replace b with a by zlia; f_equal; digits_eq
  | |- String ?c ?s = String (digit ?b) ?t =>
      replace b with 0 by zlia; change (digit 0) with c; f_equal; digits_eq
  | |- _ => reflexivity
  end.

(** ["%06ld"] of a code below one million is its six decimal digits. *)
Lemma fmt_06ld_six n : 0 ≤ n < 1000000 → fmt_06ld n = six_digits n.
Proof.
  intros Hn. unfold fmt_06ld, as_long.
  rewrite (Z.mod_small n) by lia.
  destruct (Z.ltb_spec n (2^63)); [|lia].
  destruct (Z.ltb_spec n 0); [lia|].
  rewrite Z.abs_eq by lia.
  unfold six_digits.
  assert (n < 10 ∨ 10 ≤ n < 100 ∨ 100 ≤ n < 1000 ∨ 1000 ≤ n < 10000 ∨
          10000 ≤ n < 100000 ∨ 100000 ≤ n) as Hcases by lia.
  destruct Hcases as [?|[?|[?|[?|[?|?]]]]];
    dec_norm; cbn [String.length String.append Nat.sub zeros]; digits_eq.
Qed.

Lemma code_of_digit d : 0 ≤ d < 10 → code_of (digit d) = code_of "0" + d.
Proof.
  intros Hd. unfold digit, code_of, char_of.
  rewrite N_ascii_embedding.
  - change (N_of_ascii "0") with 48%N. lia.
  - change (N_of_ascii "0") with 48%N. lia.
Qed.

Lemma six_digits_range n :
  0 ≤ n →
  Forall (λ c, code_of "0" ≤ c ≤ code_of "9") (chars_of_string (six_digits n)).
Proof.
  intros Hn. unfold six_digits. cbn [chars_of_string].
  change (code_of "9") with (code_of "0" + 9).
  repeat (apply Forall_cons_2;
          [rewrite code_of_digit by (apply Z.mod_pos_bound; lia);
           pose proof (Z.mod_pos_bound n 10);
           pose proof (Z.mod_pos_bound (n / 10) 10);
           pose proof (Z.mod_pos_bound (n / 100) 10);
           pose proof (Z.mod_pos_bound (n / 1000) 10);
           pose proof (Z.mod_pos_bound (n / 10000) 10);
           pose proof (Z.mod_pos_bound (n / 100000) 10); lia|]).
  apply Forall_nil_2.
Qed.

Section Main.
Context {Dev : Type}.
Variable L : libs.
Variable T : @tpm Dev.
Implicit Types w : @world Dev.

Lemma then_return {A B} (m : M A) (b : B) w :
  (m ≫= λ _, mret b) w =
  match m w with
  | (Ok _, w') => (Ok b, w')
  | (Exit s, w') => (Exit s, w')
  | (Fault e, w') => (Fault e, w')
  end.
Proof. reflexivity. Qed.

(** Once [parse_opts] has returned, [main] runs the selected branch. *)
Lemma main_after_parse argv w w1 :
  parse_opts L argv w = (Ok 0, w1) →
  main L T argv w =
  (run_branch L T (switch (cmd (w_opt w1))) (w_opt w1);; mret 0) w1.
Proof.
  intros H. unfold main. unfold mbind at 1, M_bind at 1. rewrite H.
  reflexivity.
Qed.

(** When [parse_opts] leaves the process, so does [main]. *)
Lemma main_parse_exit argv w s w1 :
  parse_opts L argv w = (Exit s, w1) → main L T argv w = (Exit s, w1).
Proof.
  intros H. unfold main. unfold mbind at 1, M_bind at 1. by rewrite H.
Qed.

(** The reseal branch, call by call. *)
Lemma do_reseal_spec o w rc1 blob t1 rc2 newBlob t2 rc3 t3 rc4 t4 :
  tpm2totp_loadKey_nv T (nvindex o) (w_tpm w) = ((rc1, blob), t1) →
  tpm2totp_reseal T blob (password o) 0 0 t1 = ((rc2, newBlob), t2) →
  tpm2totp_deleteKey_nv T (nvindex o) t2 = (rc3, t3) →
  tpm2totp_storeKey_nv T newBlob (nvindex o) t3 = (rc4, t4) →
  do_reseal T o w =
  let after calls errs t :=
    World (w_opt w) (w_out w) (w_err w ++ errs) (w_calls w ++ calls) t in
  let load := LoadKey (nvindex o) in
  let reseal := Reseal blob (password o) 0 0 in
  let delete := DeleteKey (nvindex o) in
  let store := StoreKey newBlob (nvindex o) in
  if negb (rc1 =? 0) then (Exit 1, after [load] [ErrorIn 266 rc1] t1)
  else if negb (rc2 =? 0) then
    (Exit 1, after [load; reseal] [ErrorIn 271 rc2] t2)
  else if negb (rc3 =? 0) then
    (Exit 1, after [load; reseal; delete] [ErrorIn 275 rc3] t3)
  else if negb (rc4 =? 0) then
    (Exit 1, after [load; reseal; delete; store] [ErrorIn 279 rc4] t4)
  else (Ok tt, after [load; reseal; delete; store] [] t4).
Proof.
  intros H1 H2 H3 H4.
  unfold do_reseal, invoke, chkrc, TSS2_RC_SUCCESS, mbind, M_bind, ERR, exit, mret, M_ret.
  cbn [w_tpm w_opt w_out w_err w_calls]. rewrite H1.
  destruct (rc1 =? 0); cbn [negb w_tpm w_opt w_out w_err w_calls]; [|done].
  rewrite H2.
  destruct (rc2 =? 0); cbn [negb w_tpm w_opt w_out w_err w_calls];
    [| by rewrite <- !app_assoc].
  rewrite H3.
  destruct (rc3 =? 0); cbn [negb w_tpm w_opt w_out w_err w_calls];
    [| by rewrite <- !app_assoc].
  rewrite H4.
  destruct (rc4 =? 0); cbn [negb w_tpm w_opt w_out w_err w_calls];
    rewrite <- !app_assoc, ?app_nil_r; done.
Qed.

(** [strftime] on a time [localtime] can convert. *)
Lemma strftime_ok now :
  localtime_null L now = false →
  strftime L now =
  Ok (if Z.of_nat (String.length (strftime_local L now)) + 1 <=? 99
      then (Z.of_nat (String.length (strftime_local L now)), strftime_local L now)
      else (0, EmptyString)).
Proof. intros H. unfold strftime. rewrite H. by destruct (_ <=? _). Qed.

(** The calculate branch when both calls succeed. *)
Lemma do_calculate_spec o w blob t1 now totp t2 :
  tpm2totp_loadKey_nv T (nvindex o) (w_tpm w) = ((0, blob), t1) →
  tpm2totp_calculate T blob t1 = ((0, now, totp), t2) →
  do_calculate L T o w =
  let calls := w_calls w ++ [LoadKey (nvindex o); Calculate blob] in
  if time o =? 0 then
    (Ok tt, World (w_opt w) (w_out w ++ fmt_06ld totp) (w_err w) calls t2)
  else
    match strftime L now with
    | Ok (n, s) =>
        if n =? 0 then
          (Exit 1, World (w_opt w) (w_out w) (w_err w ++ [ErrorIn 260 1]) calls t2)
        else
          (Ok tt, World (w_opt w) (w_out w ++ s ++ fmt_06ld totp)
                    (w_err w) calls t2)
    | Exit st => (Exit st, World (w_opt w) (w_out w) (w_err w) calls t2)
    | Fault f => (Fault f, World (w_opt w) (w_out w) (w_err w) calls t2)
    end.
Proof.
  intros H1 H2.
  unfold do_calculate, invoke, chkrc, TSS2_RC_SUCCESS, mbind, M_bind, ERR, exit,
    mret, M_ret, printf, lift.
  cbn [w_tpm w_opt w_out w_err w_calls]. rewrite H1.
  cbn [Z.eqb w_tpm w_opt w_out w_err w_calls]. rewrite H2.
  cbn [Z.eqb w_tpm w_opt w_out w_err w_calls].
  destruct (time o =? 0); cbn [w_tpm w_opt w_out w_err w_calls].
  { by rewrite <- !app_assoc. }
  destruct (strftime L now) as [[n s]|st|f];
    cbn [w_tpm w_opt w_out w_err w_calls]; rewrite <- ?app_assoc; try done.
  destruct (n =? 0); cbn [Z.eqb w_tpm w_opt w_out w_err w_calls];
    by rewrite <- ?app_assoc.
Qed.

(** The common tail of generate and recover: the picture, an empty
    line, and the enrollment URL. *)
Lemma show_secret_spec secret q w :
  secret ≠ [] →
  Z.of_nat (length secret) < 2^63 →
  QRcode_encodeString L (URL_PREFIX ++ Base32Spec.rfc4648_base32 secret) = Some q →
  1 ≤ Qr.width q ≤ 46340 →
  length (Qr.data q) = Z.to_nat (Qr.width q * Qr.width q) →
  show_secret L secret w =
  (Ok tt,
   World (w_opt w)
     (w_out w ++ Qr.picture q ++ Qr.LF ++
      URL_PREFIX ++ Base32Spec.rfc4648_base32 secret ++ Qr.LF)
     (w_err w) (w_calls w) (w_tpm w)).
Proof.
  intros Hne Hsz Hq Hw Hdata.
  unfold show_secret, lift, qrencode, printf, mbind, M_bind.
  rewrite Base32Post.base32enc_nonempty, Base32Rfc.enc_chars_rfc by done.
  rewrite Hq. unfold lift.
  rewrite QrProofs.qrencode_text_spec by done.
  cbn [w_opt w_out w_err w_calls w_tpm].
  by rewrite !QrProofs.append_assoc.
Qed.

(** The clean branch. *)
Lemma do_clean_spec o w rc t1 :
  tpm2totp_deleteKey_nv T (nvindex o) (w_tpm w) = (rc, t1) →
  do_clean T o w =
  if rc =? 0 then
    (Ok tt, World (w_opt w) (w_out w) (w_err w)
              (w_calls w ++ [DeleteKey (nvindex o)]) t1)
  else
    (Exit 1, World (w_opt w) (w_out w) (w_err w ++ [ErrorIn 305 rc])
               (w_calls w ++ [DeleteKey (nvindex o)]) t1).
Proof.
  intros H.
  unfold do_clean, invoke, chkrc, TSS2_RC_SUCCESS, mbind, M_bind, ERR, exit,
    mret, M_ret.
  cbn [w_tpm w_opt w_out w_err w_calls]. rewrite H.
  by destruct (rc =? 0).
Qed.

(** The generate branch when both calls succeed. *)
Lemma do_generate_spec o w secret keyBlob t1 t2 q :
  tpm2totp_generateKey T 0 0 (password o) (w_tpm w) = ((0, secret, keyBlob), t1) →
  tpm2totp_storeKey_nv T keyBlob (nvindex o) t1 = (0, t2) →
  secret ≠ [] →
  Z.of_nat (length secret) < 2^63 →
  QRcode_encodeString L (URL_PREFIX ++ Base32Spec.rfc4648_base32 secret) = Some q →
  1 ≤ Qr.width q ≤ 46340 →
  length (Qr.data q) = Z.to_nat (Qr.width q * Qr.width q) →
  do_generate L T o w =
  (Ok tt,
   World (w_opt w)
     (w_out w ++ Qr.picture q ++ Qr.LF ++
      URL_PREFIX ++ Base32Spec.rfc4648_base32 secret ++ Qr.LF)
     (w_err w)
     (w_calls w ++ [GenerateKey 0 0 (password o); StoreKey keyBlob (nvindex o)])
     t2).
Proof.
  intros H1 H2 Hne Hsz Hq Hw Hdata.
  unfold do_generate, invoke, chkrc, TSS2_RC_SUCCESS, mbind, M_bind, mret, M_ret.
  cbn [w_tpm w_opt w_out w_err w_calls]. rewrite H1.
  cbn [Z.eqb w_tpm w_opt w_out w_err w_calls]. rewrite H2.
  cbn [Z.eqb w_tpm w_opt w_out w_err w_calls].
  rewrite (show_secret_spec secret q) by done.
  cbn [w_tpm w_opt w_out w_err w_calls]. by rewrite <- !app_assoc.
Qed.

(** The recover branch when both calls succeed. *)
Lemma do_recover_spec o w secret keyBlob t1 t2 q :
  tpm2totp_loadKey_nv T (nvindex o) (w_tpm w) = ((0, keyBlob), t1) →
  tpm2totp_getSecret T keyBlob (password o) t1 = ((0, secret), t2) →
  secret ≠ [] →
  Z.of_nat (length secret) < 2^63 →
  QRcode_encodeString L (URL_PREFIX ++ Base32Spec.rfc4648_base32 secret) = Some q →
  1 ≤ Qr.width q ≤ 46340 →
  length (Qr.data q) = Z.to_nat (Qr.width q * Qr.width q) →
  do_recover L T o w =
  (Ok tt,
   World (w_opt w)
     (w_out w ++ Qr.picture q ++ Qr.LF ++
      URL_PREFIX ++ Base32Spec.rfc4648_base32 secret ++ Qr.LF)
     (w_err w)
     (w_calls w ++ [LoadKey (nvindex o); GetSecret keyBlob (password o)])
     t2).
Proof.
  intros H1 H2 Hne Hsz Hq Hw Hdata.
  unfold do_recover, invoke, chkrc, TSS2_RC_SUCCESS, mbind, M_bind, mret, M_ret.
  cbn [w_tpm w_opt w_out w_err w_calls]. rewrite H1.
  cbn [Z.eqb w_tpm w_opt w_out w_err w_calls]. rewrite H2.
  cbn [Z.eqb w_tpm w_opt w_out w_err w_calls].
  rewrite (show_secret_spec secret q) by done.
  cbn [w_tpm w_opt w_out w_err w_calls]. by rewrite <- !app_assoc.
Qed.

End Main.

End MainProofs.

(** ** [parse_opts], case by case *)

Module ParseCases.
Import Getopt Tool Summary GetoptProofs ParseProofs.

(** Character codes as numerals. *)
Ltac codes :=
  repeat match goal with
         | |- context [code_of ?a] =>
             let v := eval vm_compute in (code_of a) in
             change (code_of a) with v
         end.

Lemma accepted_cases r :
  accepted r = true →
  ret_c r = code_of "P" ∨ ret_c r = code_of "t" ∨ ret_c r = code_of "v".
Proof.
  unfold accepted. intros H.
  apply orb_true_iff in H as [H|H]; [apply orb_true_iff in H as [H|H]|];
    apply Z.eqb_eq in H; auto.
Qed.

Lemma rejected_cases r :
  ok_ret r → accepted r = false →
  ret_c r = code_of "N" ∨ ret_c r = code_of "?".
Proof.
  unfold ok_ret, returned_codes, accepted. intros [Hok _] Hacc.
  repeat (apply elem_of_cons in Hok as [Hok|Hok]);
    try (rewrite Hok in Hacc; discriminate); auto.
  by apply not_elem_of_nil in Hok.
Qed.

(** [getopt_long] writes nothing before a return the switch accepts. *)
Lemma accepted_silent r : ok_ret r → accepted r = true → ret_err r = None.
Proof.
  intros [_ Herr] Hacc. apply Herr.
  destruct (accepted_cases r Hacc) as [->|[->| ->]]; discriminate.
Qed.

(** The fields of [opt] after recording a list of accepted returns. *)
Lemma record_options_fields rs : ∀ o,
  cmd (fold_left record_option rs o) = cmd o ∧
  nvindex (fold_left record_option rs o) = nvindex o ∧
  password (fold_left record_option rs o) = last_password (password o) rs ∧
  time (fold_left record_option rs o) =
    (if existsb (λ r, ret_c r =? code_of "t") rs then 1 else time o) ∧
  verbose (fold_left record_option rs o) =
    (if existsb (λ r, ret_c r =? code_of "v") rs then 1 else verbose o).
Proof.
  induction rs as [|r rs IH]; intros o; [done|].
  cbn [fold_left existsb]. unfold last_password. cbn [fold_left].
  fold (last_password (if ret_c r =? code_of "P" then ret_optarg r else password o) rs).
  destruct (IH (record_option o r)) as (-> & -> & -> & -> & ->).
  unfold record_option.
  destruct (Z.eqb_spec (ret_c r) (code_of "P")) as [->|];
    [by cbn|].
  destruct (Z.eqb_spec (ret_c r) (code_of "t")) as [->|].
  { cbn. by destruct (existsb _ rs). }
  destruct (Z.eqb_spec (ret_c r) (code_of "v")) as [_|].
  { cbn. by destruct (existsb _ rs), (existsb _ rs). }
  done.
Qed.

(** Every scan result falls in one of the two cases of [parse_opts]. *)
Lemma scan_cases (rs : list ret_t) (nonopts : list string) :
  (forallb accepted rs = true ∧
   ∃ arg c, nonopts = [arg] ∧ command_of arg = Some c) ∨
  (forallb accepted rs = false ∨
   nonopts = [] ∨
   (∃ arg more, nonopts = arg :: more ∧ command_of arg = None) ∨
   (∃ arg b more, nonopts = arg :: b :: more)).
Proof.
  destruct (forallb accepted rs); [|by right; left].
  destruct nonopts as [|arg [|b more]].
  - right. right. by left.
  - destruct (command_of arg) as [c|] eqn:Hc.
    + left. split; [done|]. by exists arg, c.
    + right. right. right. left. by exists arg, [].
  - right. right. right. right. by exists arg, b, more.
Qed.

Section Cases.
Context {Dev : Type}.
Variable L : libs.
Implicit Types w : @world Dev.

Lemma handle_option_accepted r idx w :
  accepted r = true →
  handle_option L (ret_c r) (ret_optarg r) idx w =
  (Ok tt, World (record_option (w_opt w) r) (w_out w) (w_err w) (w_calls w) (w_tpm w)).
Proof.
  intros H. unfold record_option.
  destruct (accepted_cases r H) as [Hc|[Hc|Hc]];
    destruct r as [c oa li e]; cbn [ret_c ret_optarg] in *; subst c; reflexivity.
Qed.

Lemma handle_option_rejected r idx w :
  ok_ret r → accepted r = false →
  handle_option L (ret_c r) (ret_optarg r) idx w =
  (Exit 1, World (w_opt w) (w_out w)
             (w_err w ++ [UnknownOptionAt idx; Text help]) (w_calls w) (w_tpm w)).
Proof.
  intros Hok H.
  destruct (rejected_cases r Hok H) as [Hc|Hc];
    destruct r as [c oa li e]; cbn [ret_c ret_optarg] in *; subst c;
    unfold handle_option, mbind, M_bind, ERR, exit; codes;
    cbn [Z.eqb Pos.eqb w_opt w_out w_err w_calls w_tpm];
    rewrite <- ?app_assoc; reflexivity.
Qed.

Lemma getopt_writes_silent a0 r w :
  ret_err r = None → getopt_writes a0 r w = (Ok tt, w).
Proof. intros H. unfold getopt_writes. by rewrite H. Qed.

Lemma getopt_writes_line a0 r w :
  getopt_writes a0 r w =
  (Ok tt, World (w_opt w) (w_out w) (w_err w ++ getopt_line a0 r)
            (w_calls w) (w_tpm w)).
Proof.
  unfold getopt_writes, getopt_line. destruct (ret_err r); [done|].
  rewrite app_nil_r. by destruct w.
Qed.

Lemma options_loop_accepted a0 rs : ∀ idx w,
  Forall ok_ret rs →
  forallb accepted rs = true →
  options_loop L a0 rs idx w =
  (Ok tt, World (fold_left record_option rs (w_opt w))
            (w_out w) (w_err w) (w_calls w) (w_tpm w)).
Proof.
  induction rs as [|r rs IH]; intros idx w Hok H.
  { by destruct w. }
  apply Forall_cons_1 in Hok as [Hok Hoks].
  cbn [forallb] in H. apply andb_true_iff in H as [Hr Hrs].
  cbn [options_loop fold_left]. unfold mbind, M_bind.
  rewrite getopt_writes_silent by (by apply accepted_silent).
  rewrite handle_option_accepted by done.
  by rewrite IH.
Qed.

(** The loop leaves at the first return the switch does not accept: after
    the line of [getopt_long], if it wrote one, come the two messages of
    the [default] label. *)
Lemma options_loop_rejected a0 rs : ∀ idx w,
  Forall ok_ret rs →
  forallb accepted rs = false →
  ∃ o idx' r,
    first_rejected rs = Some r ∧ r ∈ rs ∧ accepted r = false ∧
    options_loop L a0 rs idx w =
    (Exit 1,
     World o (w_out w)
       (w_err w ++ getopt_line a0 r ++ [UnknownOptionAt idx'; Text help])
       (w_calls w) (w_tpm w)).
Proof.
  induction rs as [|r rs IH]; intros idx w Hok H; [done|].
  apply Forall_cons_1 in Hok as [Hr Hrs].
  cbn [options_loop]. unfold mbind, M_bind.
  destruct (accepted r) eqn:Hacc.
  - rewrite getopt_writes_silent by (by apply accepted_silent).
    rewrite handle_option_accepted by done.
    cbn [forallb] in H. rewrite Hacc in H. cbn [andb] in H.
    destruct (IH (default idx (ret_longind r))
                (World (record_option (w_opt w) r) (w_out w) (w_err w)
                   (w_calls w) (w_tpm w)) Hrs H)
      as (o & idx' & r' & Hfirst & Hin & Hrej & ->).
    exists o, idx', r'.
    split; [unfold first_rejected; cbn [find]; by rewrite Hacc|].
    split; [by right|]. done.
  - rewrite getopt_writes_line, handle_option_rejected by done.
    cbn [w_opt w_out w_err w_calls w_tpm]. rewrite <- app_assoc.
    eexists _, _, r.
    split; [unfold first_rejected; cbn [find]; by rewrite Hacc|].
    split; [by left|]. done.
Qed.

(** The line of [getopt_long] before a return the switch does not accept:
    none for ['N'], one for ['?']. *)
Lemma getopt_line_rejected a0 r :
  ok_ret r → accepted r = false →
  (ret_c r = code_of "N" ∧ getopt_line a0 r = []) ∨
  (ret_c r = code_of "?" ∧ ∃ e, getopt_line a0 r = [GetoptSays a0 e]).
Proof.
  intros Hok Hacc. unfold getopt_line.
  destruct (rejected_cases r Hok Hacc) as [Hc|Hc]; [left|right];
    (split; [done|]); destruct Hok as [_ Herr].
  - rewrite (proj2 Herr); [done|]. by rewrite Hc.
  - destruct (ret_err r) as [e|]; [by exists e|].
    by destruct (proj1 Herr eq_refl).
Qed.

Lemma first_rejected_none rs : forallb accepted rs = true → first_rejected rs = None.
Proof.
  induction rs as [|r rs IH]; [done|]. cbn [forallb].
  intros [Hr Hrs]%andb_true_iff. unfold first_rejected. cbn [find].
  rewrite Hr. by apply IH.
Qed.

(** Two messages, or three with the line of [getopt_long] first. *)
Lemma leaving_lines_shape a0 rs msgs :
  Forall ok_ret rs → leaving_lines a0 rs msgs →
  (∃ m, msgs = [m; Text help]) ∨
  (∃ e idx, msgs = [GetoptSays a0 e; UnknownOptionAt idx; Text help]).
Proof.
  intros Hok. unfold leaving_lines, first_rejected.
  destruct (find _ rs) as [r|] eqn:Hfind.
  - apply find_some in Hfind as [Hin Hrej]. apply negb_true_iff in Hrej.
    rewrite List.Forall_forall in Hok.
    intros [idx ->].
    destruct (getopt_line_rejected a0 r (Hok r Hin) Hrej) as [[_ ->]|[_ [e ->]]].
    + left. by eexists.
    + right. by exists e, idx.
  - intros [text ->]. left. by eexists.
Qed.


(** [parse_opts] returns: every option is accepted and the one word left
    names a command. *)
Lemma parse_opts_accepts argv w rs arg c :
  getopt_long (posixly_correct L) argv optstr long_options = (rs, [arg]) →
  forallb accepted rs = true →
  command_of arg = Some c →
  parse_opts L argv w =
  (Ok 0,
   World (Opt c 0 (last_password None rs) (flag "t" rs) (flag "v" rs))
     (w_out w) (w_err w) (w_calls w) (w_tpm w)).
Proof.
  intros Hscan Hacc Hcmd. unfold parse_opts.
  pose proof (getopt_long_ok (posixly_correct L) argv) as Hok.
  rewrite Hscan in Hok |- *. cbn [fst] in Hok.
  unfold mbind at 1, M_bind at 1. cbn [set_opt].
  unfold mbind at 1, M_bind at 1.
  rewrite options_loop_accepted by done.
  cbn [w_opt w_out w_err w_calls w_tpm].
  destruct (record_options_fields rs (Opt CMD_NONE 0 None 0 0))
    as (_ & Hnv & Hpw & Ht & Hv).
  cbn [nvindex password time verbose] in *.
  unfold command_of in Hcmd. unfold mbind, M_bind, set_cmd, set_opt.
  unfold flag.
  repeat match type of Hcmd with
         | context [String.eqb arg ?s] => destruct (String.eqb arg s)
         end;
    try discriminate; injection Hcmd as <-;
    cbn [w_opt w_out w_err w_calls w_tpm mret M_ret];
    by rewrite Hnv, Hpw, Ht, Hv.
Qed.

(** [parse_opts] leaves: the four ways, each ending with the usage text
    on the error stream. *)
Lemma parse_opts_rejects argv w rs nonopts :
  getopt_long (posixly_correct L) argv optstr long_options = (rs, nonopts) →
  (forallb accepted rs = false ∨
   nonopts = [] ∨
   (∃ arg more, nonopts = arg :: more ∧ command_of arg = None) ∨
   (∃ arg b more, nonopts = arg :: b :: more)) →
  ∃ o msgs,
    leaving_lines (default EmptyString (head argv)) rs msgs ∧
    parse_opts L argv w =
    (Exit 1, World o (w_out w) (w_err w ++ msgs) (w_calls w) (w_tpm w)).
Proof.
  intros Hscan Hcase. unfold parse_opts. rewrite Hscan.
  pose proof (getopt_long_ok (posixly_correct L) argv) as Hok.
  rewrite Hscan in Hok. cbn [fst] in Hok.
  unfold mbind at 1, M_bind at 1. cbn [set_opt].
  unfold mbind at 1, M_bind at 1.
  destruct (forallb accepted rs) eqn:Hacc.
  2: { destruct (options_loop_rejected (default EmptyString (head argv)) rs 0
                   (World (Opt CMD_NONE 0 None 0 0) (w_out w) (w_err w)
                      (w_calls w) (w_tpm w)) Hok Hacc)
         as (o & idx & r & Hfirst & Hin & Hrej & ->).
       cbn [w_out w_err w_calls w_tpm].
       exists o, (getopt_line (default EmptyString (head argv)) r
                    ++ [UnknownOptionAt idx; Text help]).
       split; [|done]. unfold leaving_lines. rewrite Hfirst. by exists idx. }
  rewrite options_loop_accepted by done.
  cbn [w_opt w_out w_err w_calls w_tpm].
  assert (∀ text, leaving_lines (default EmptyString (head argv)) rs
                    [Text text; Text help]) as Hlines.
  { intros text. unfold leaving_lines. rewrite first_rejected_none by done.
    by exists text. }
  destruct Hcase as [?|[->|[(arg & more & -> & Hcmd)|(arg & b & more & ->)]]];
    [done | ..].
  - unfold mbind, M_bind, ERR, exit. cbn [w_opt w_out w_err w_calls w_tpm].
    rewrite <- app_assoc. eexists _, _. split; [apply Hlines|done].
  - unfold command_of in Hcmd. unfold mbind, M_bind.
    repeat match type of Hcmd with
           | context [String.eqb arg ?s] => destruct (String.eqb arg s)
           end; try discriminate.
    unfold ERR, exit. cbn [w_opt w_out w_err w_calls w_tpm].
    rewrite <- app_assoc. eexists _, _. split; [apply Hlines|done].
  - unfold mbind, M_bind, set_cmd, set_opt, ERR, exit.
    repeat match goal with
           | |- context [String.eqb arg ?s] => destruct (String.eqb arg s)
           end;
      cbn [w_opt w_out w_err w_calls w_tpm];
      rewrite <- ?app_assoc; (eexists _, _; split; [apply Hlines|done]).
Qed.

(** The two outcomes of [parse_opts], decided by the scan alone. *)
Lemma parse_opts_outcome argv w :
  let scanned := getopt_long (posixly_correct L) argv optstr long_options in
  (∃ arg c,
     scanned.2 = [arg] ∧
     forallb accepted scanned.1 = true ∧
     command_of arg = Some c ∧
     parse_opts L argv w =
     (Ok 0,
      World (Opt c 0 (last_password None scanned.1)
               (flag "t" scanned.1) (flag "v" scanned.1))
        (w_out w) (w_err w) (w_calls w) (w_tpm w))) ∨
  (¬ (forallb accepted scanned.1 = true ∧
      ∃ arg c, scanned.2 = [arg] ∧ command_of arg = Some c) ∧
   ∃ o msgs,
     leaving_lines (default EmptyString (head argv)) scanned.1 msgs ∧
     parse_opts L argv w =
     (Exit 1, World o (w_out w) (w_err w ++ msgs) (w_calls w) (w_tpm w))).
Proof.
  cbv zeta.
  destruct (getopt_long (posixly_correct L) argv optstr long_options)
    as [rs nonopts] eqn:Hscan.
  cbn [fst snd].
  destruct (scan_cases rs nonopts) as [(Hacc & arg & c & -> & Hc)|Hrej].
  - left. exists arg, c. repeat split; try done.
    by apply (parse_opts_accepts argv w rs arg c).
  - right. split; [|by apply (parse_opts_rejects argv w rs nonopts)].
    intros (Hacc & arg & c & -> & Hc).
    destruct Hrej as [?|[?|[(a & more & Heq & Hnone)|(a & b & more & ?)]]];
      congruence.
Qed.

End Cases.

End ParseCases.

(** ** The command branches, failure by failure *)

Module MainCases.
Import Tool Summary ParseProofs MainProofs.

(** *** The helpers never call [exit] *)

Lemma no_exit_ok {A} (a : A) : no_exit (Ok a).
Proof. intros s. discriminate. Qed.

Lemma no_exit_fault {A} f : no_exit (@Fault A f).
Proof. intros s. discriminate. Qed.

Lemma no_exit_bind {A B} (m : res A) (f : A → res B) :
  no_exit m → (∀ a, no_exit (f a)) → no_exit (m ≫= f).
Proof.
  intros Hm Hf. destruct m as [a|s|e]; cbn.
  - apply Hf.
  - by destruct (Hm s).
  - apply no_exit_fault.
Qed.

Lemma no_exit_fmap {A B} (g : A → B) (m : res A) : no_exit m → no_exit (g <$> m).
Proof. intros Hm. destruct m as [a|s|e]; cbn; try done. by destruct (Hm s). Qed.

Lemma no_exit_load b m k : no_exit (load b m k).
Proof. unfold load. by destruct (zget m k) as [[v|]|]; intros s. Qed.

Lemma no_exit_store b m k v : no_exit (store b m k v).
Proof. unfold store. by destruct (zset m k _); intros s. Qed.

Lemma no_exit_load_const b m k : no_exit (load_const b m k).
Proof. unfold load_const. by destruct (zget m k); intros s. Qed.

Lemma no_exit_chk_int z : no_exit (chk_int z).
Proof. unfold chk_int. by destruct (_ && _); intros s. Qed.

Lemma no_exit_cstring b m : ∀ pos, no_exit (cstring b pos m).
Proof.
  induction m as [|[c|] m IH]; intros pos; cbn [cstring]; try (by intros s).
  destruct (c =? 0); [by intros s|]. by apply no_exit_fmap.
Qed.

Ltac no_exit_step :=
  first
    [ apply no_exit_ok | apply no_exit_fault
    | apply no_exit_load | apply no_exit_store | apply no_exit_load_const
    | apply no_exit_chk_int | apply no_exit_cstring
    | apply no_exit_fmap
    | apply no_exit_bind; [|intros ?] ].

Lemma no_exit_assign f inb s : no_exit (Base32.assign f inb s).
Proof. unfold Base32.assign. repeat no_exit_step. Qed.

Lemma no_exit_assign_or f inb s : no_exit (Base32.assign_or f inb s).
Proof. unfold Base32.assign_or. repeat no_exit_step. Qed.

Lemma no_exit_loop_body inb n s : no_exit (Base32.loop_body inb n s).
Proof.
  unfold Base32.loop_body.
  repeat first
    [ apply no_exit_assign | apply no_exit_assign_or | apply no_exit_ok
    | apply no_exit_bind; [|intros ?]
    | match goal with
      | |- no_exit (let '(_, _) := ?p in _) => destruct p as [[] ?]
      end ].
Qed.

Lemma no_exit_while_1 fuel : ∀ inb n s, no_exit (Base32.while_1 fuel inb n s).
Proof.
  induction fuel as [|fuel IH]; intros inb n s; cbn [Base32.while_1].
  - apply no_exit_fault.
  - apply no_exit_bind; [apply no_exit_loop_body|].
    intros [[] s']; [apply no_exit_ok | apply IH].
Qed.

Lemma no_exit_translate n : ∀ j r, no_exit (Base32.translate n j r).
Proof.
  induction n as [|n IH]; intros j r; cbn [Base32.translate];
    [apply no_exit_ok|].
  repeat first [apply IH | no_exit_step].
Qed.

Lemma no_exit_pad n : ∀ i r, no_exit (Base32.pad n i r).
Proof.
  induction n as [|n IH]; intros i r; cbn [Base32.pad]; [apply no_exit_ok|].
  repeat first [apply IH | no_exit_step].
Qed.

Lemma no_exit_base32enc inb n : no_exit (Base32.base32enc inb n).
Proof.
  unfold Base32.base32enc, Base32.encode_into. cbv zeta.
  apply no_exit_bind; [apply no_exit_while_1|]. intros s.
  apply no_exit_bind; [apply no_exit_translate|]. intros r.
  apply no_exit_bind; [apply no_exit_pad|]. intros [i r'].
  repeat no_exit_step.
Qed.

Lemma no_exit_write_chars cs : ∀ m k, no_exit (Qr.write_chars m k cs).
Proof.
  induction cs as [|c cs IH]; intros m k; cbn [Qr.write_chars];
    [apply no_exit_ok|].
  repeat first [apply IH | no_exit_step].
Qed.

Lemma no_exit_sprintf m idx text : no_exit (Qr.sprintf m idx text).
Proof.
  unfold Qr.sprintf. apply no_exit_bind; [apply no_exit_write_chars|].
  intros ?. apply no_exit_ok.
Qed.

Lemma no_exit_put_margin w m idx : no_exit (Qr.put_margin w m idx).
Proof.
  unfold Qr.put_margin.
  repeat first [apply no_exit_sprintf | no_exit_step
               | match goal with
                 | |- no_exit (let '(_, _) := ?p in _) => destruct p
                 end ].
Qed.

Lemma no_exit_put_cells n : ∀ q y x m idx, no_exit (Qr.put_cells n q y x m idx).
Proof.
  induction n as [|n IH]; intros q y x m idx; cbn [Qr.put_cells];
    [apply no_exit_ok|].
  repeat first [apply IH | apply no_exit_sprintf | no_exit_step
               | match goal with
                 | |- no_exit (let '(_, _) := ?p in _) => destruct p
                 end ].
Qed.

Lemma no_exit_put_lines n : ∀ q y m idx, no_exit (Qr.put_lines n q y m idx).
Proof.
  induction n as [|n IH]; intros q y m idx; cbn [Qr.put_lines];
    [apply no_exit_ok|].
  repeat first [apply IH | apply no_exit_sprintf | apply no_exit_put_cells
               | no_exit_step
               | match goal with
                 | |- no_exit (let '(_, _) := ?p in _) => destruct p
                 end ].
Qed.

Lemma no_exit_qrencode_text q : no_exit (Qr.qrencode_text q).
Proof.
  unfold Qr.qrencode_text, Qr.rasterize, Qr.qrpic_size.
  repeat first [apply no_exit_put_margin | apply no_exit_put_lines
               | no_exit_step
               | match goal with
                 | |- no_exit (let '(_, _) := ?p in _) => destruct p
                 end ].
Qed.

(** *** Each branch, whatever the calls return *)

Section Branches.
Context {Dev : Type}.
Variable L : libs.
Variable T : @tpm Dev.

(** The common tail of generate and recover, outcome by outcome. *)
Lemma show_secret_cases secret (w w' : @world Dev) r :
  show_secret L secret w = (r, w') →
  w_opt w' = w_opt w ∧ w_calls w' = w_calls w ∧ w_tpm w' = w_tpm w ∧
  match r with
  | Ok _ =>
      w_err w' = w_err w ∧
      ∃ key q pic,
        Base32.base32enc secret (Z.of_nat (length secret)) = Ok key ∧
        QRcode_encodeString L (URL_PREFIX ++ key) = Some q ∧
        Qr.qrencode_text q = Ok pic ∧
        w_out w' = (w_out w ++ (pic ++ Qr.LF) ++ (URL_PREFIX ++ key) ++ Qr.LF)%string
  | Exit s =>
      s = 1 ∧ w_out w' = w_out w ∧ w_err w' = w_err w ++ [Text "QRcode failed."] ∧
      ∃ key,
        Base32.base32enc secret (Z.of_nat (length secret)) = Ok key ∧
        QRcode_encodeString L (URL_PREFIX ++ key) = None
  | Fault _ => w_out w' = w_out w ∧ w_err w' = w_err w
  end.
Proof.
  unfold show_secret, lift, qrencode, printf, mbind, M_bind.
  pose proof (no_exit_base32enc secret (Z.of_nat (length secret))) as Hb.
  destruct (Base32.base32enc secret _) as [key|s|e].
  2: { by destruct (Hb s). }
  2: { by intros [= <- <-]. }
  destruct (QRcode_encodeString L (URL_PREFIX ++ key)) as [q|] eqn:Hq.
  - unfold lift. pose proof (no_exit_qrencode_text q) as Hn.
    destruct (Qr.qrencode_text q) as [pic|s|e] eqn:Hpic.
    2: { by destruct (Hn s). }
    2: { by intros [= <- <-]. }
    intros [= <- <-]. cbn [w_opt w_out w_err w_calls w_tpm].
    repeat split. exists key, q, pic. repeat split; try done.
    by rewrite !QrProofs.append_assoc.
  - unfold ERR, exit. intros [= <- <-]. cbn [w_opt w_out w_err w_calls w_tpm].
    repeat split. by exists key.
Qed.

(** The generate branch, call by call. *)
Lemma do_generate_full o (w : @world Dev) rc1 secret keyBlob t1 rc2 t2 :
  tpm2totp_generateKey T 0 0 (password o) (w_tpm w) = ((rc1, secret, keyBlob), t1) →
  tpm2totp_storeKey_nv T keyBlob (nvindex o) t1 = (rc2, t2) →
  do_generate L T o w =
  let after calls errs t :=
    World (w_opt w) (w_out w) (w_err w ++ errs) (w_calls w ++ calls) t in
  let generate := GenerateKey 0 0 (password o) in
  let store := StoreKey keyBlob (nvindex o) in
  if negb (rc1 =? 0) then (Exit 1, after [generate] [ErrorIn 232 rc1] t1)
  else if negb (rc2 =? 0) then
    (Exit 1, after [generate; store] [ErrorIn 236 rc2] t2)
  else show_secret L secret (after [generate; store] [] t2).
Proof.
  intros H1 H2.
  unfold do_generate, invoke, chkrc, TSS2_RC_SUCCESS, mbind at 1 2 3 4 5,
    M_bind at 1 2 3 4 5, ERR, exit, mret, M_ret.
  cbn [w_tpm w_opt w_out w_err w_calls]. rewrite H1.
  destruct (rc1 =? 0); cbn [negb w_tpm w_opt w_out w_err w_calls]; [|done].
  rewrite H2.
  destruct (rc2 =? 0); cbn [negb w_tpm w_opt w_out w_err w_calls];
    rewrite <- !app_assoc, ?app_nil_r; done.
Qed.

(** The recover branch, call by call. *)
Lemma do_recover_full o (w : @world Dev) rc1 keyBlob t1 rc2 secret t2 :
  tpm2totp_loadKey_nv T (nvindex o) (w_tpm w) = ((rc1, keyBlob), t1) →
  tpm2totp_getSecret T keyBlob (password o) t1 = ((rc2, secret), t2) →
  do_recover L T o w =
  let after calls errs t :=
    World (w_opt w) (w_out w) (w_err w ++ errs) (w_calls w ++ calls) t in
  let load := LoadKey (nvindex o) in
  let unseal := GetSecret keyBlob (password o) in
  if negb (rc1 =? 0) then (Exit 1, after [load] [ErrorIn 283 rc1] t1)
  else if negb (rc2 =? 0) then
    (Exit 1, after [load; unseal] [ErrorIn 288 rc2] t2)
  else show_secret L secret (after [load; unseal] [] t2).
Proof.
  intros H1 H2.
  unfold do_recover, invoke, chkrc, TSS2_RC_SUCCESS, mbind at 1 2 3 4 5,
    M_bind at 1 2 3 4 5, ERR, exit, mret, M_ret.
  cbn [w_tpm w_opt w_out w_err w_calls]. rewrite H1.
  destruct (rc1 =? 0); cbn [negb w_tpm w_opt w_out w_err w_calls]; [|done].
  rewrite H2.
  destruct (rc2 =? 0); cbn [negb w_tpm w_opt w_out w_err w_calls];
    rewrite <- !app_assoc, ?app_nil_r; done.
Qed.

(** The calculate branch, call by call. *)
Lemma do_calculate_full o (w : @world Dev) rc1 blob t1 rc2 now totp t2 :
  tpm2totp_loadKey_nv T (nvindex o) (w_tpm w) = ((rc1, blob), t1) →
  tpm2totp_calculate T blob t1 = ((rc2, now, totp), t2) →
  do_calculate L T o w =
  let after out calls errs t :=
    World (w_opt w) (w_out w ++ out)%string (w_err w ++ errs) (w_calls w ++ calls) t in
  let load := LoadKey (nvindex o) in
  let calculate := Calculate blob in
  if negb (rc1 =? 0) then (Exit 1, after EmptyString [load] [ErrorIn 252 rc1] t1)
  else if negb (rc2 =? 0) then
    (Exit 1, after EmptyString [load; calculate] [ErrorIn 256 rc2] t2)
  else if time o =? 0 then
    (Ok tt, after (fmt_06ld totp) [load; calculate] [] t2)
  else
    match strftime L now with
    | Ok (n, s) =>
        if n =? 0 then
          (Exit 1, after EmptyString [load; calculate] [ErrorIn 260 1] t2)
        else
          (Ok tt, after (s ++ fmt_06ld totp)%string [load; calculate] [] t2)
    | Exit st => (Exit st, after EmptyString [load; calculate] [] t2)
    | Fault f => (Fault f, after EmptyString [load; calculate] [] t2)
    end.
Proof.
  intros H1 H2.
  unfold do_calculate, invoke, chkrc, TSS2_RC_SUCCESS, mbind, M_bind, ERR, exit,
    mret, M_ret, printf, lift.
  cbn [w_tpm w_opt w_out w_err w_calls]. rewrite H1.
  destruct (rc1 =? 0); cbn [negb w_tpm w_opt w_out w_err w_calls];
    [|by rewrite QrProofs.append_nil_r].
  rewrite H2.
  destruct (rc2 =? 0); cbn [negb w_tpm w_opt w_out w_err w_calls];
    [|by rewrite <- !app_assoc, QrProofs.append_nil_r].
  destruct (time o =? 0); cbn [w_tpm w_opt w_out w_err w_calls].
  { by rewrite <- !app_assoc, app_nil_r. }
  destruct (strftime L now) as [[n s]|st|f];
    cbn [w_tpm w_opt w_out w_err w_calls];
    rewrite <- ?app_assoc, ?app_nil_r, ?QrProofs.append_nil_r; try done.
  destruct (n =? 0); cbn [Z.eqb w_tpm w_opt w_out w_err w_calls];
    by rewrite <- ?app_assoc, ?app_nil_r, ?QrProofs.append_nil_r.
Qed.

(** [strftime] faults or returns; it never leaves the process. *)
Lemma no_exit_strftime now : no_exit (strftime L now).
Proof.
  unfold strftime. destruct (localtime_null L now); [apply no_exit_fault|].
  destruct (_ <=? _); apply no_exit_ok.
Qed.

Lemma call_uses_load o : call_uses o (LoadKey (nvindex o)).
Proof. repeat split; cbn; congruence. Qed.

Lemma call_uses_store o blob : call_uses o (StoreKey blob (nvindex o)).
Proof. repeat split; cbn; congruence. Qed.

Lemma call_uses_delete o : call_uses o (DeleteKey (nvindex o)).
Proof. repeat split; cbn; congruence. Qed.

Lemma call_uses_generate o : call_uses o (GenerateKey 0 0 (password o)).
Proof. repeat split; cbn; congruence. Qed.

Lemma call_uses_reseal o blob : call_uses o (Reseal blob (password o) 0 0).
Proof. repeat split; cbn; congruence. Qed.

Lemma call_uses_unseal o blob : call_uses o (GetSecret blob (password o)).
Proof. repeat split; cbn; congruence. Qed.

Lemma call_uses_calculate o blob : call_uses o (Calculate blob).
Proof. repeat split; cbn; congruence. Qed.

Ltac solve_calls :=
  repeat (apply Forall_cons;
          [first [apply call_uses_load | apply call_uses_store
                 | apply call_uses_delete | apply call_uses_generate
                 | apply call_uses_reseal | apply call_uses_unseal
                 | apply call_uses_calculate]|]);
  apply Forall_nil.

Ltac outcome_exit calls m :=
  intros [= <- <-]; split; [done|]; exists calls, [m];
  cbn [w_opt w_out w_err w_calls w_tpm];
  split; [done|]; split; [done|]; split;
  [solve_calls | by eauto].

Lemma show_secret_outcome o b secret (w w' : @world Dev) r calls :
  b ≠ CaseDefault →
  Forall (call_uses o) calls →
  show_secret L secret
    (World (w_opt w) (w_out w) (w_err w ++ []) (w_calls w ++ calls) (w_tpm w')) =
    (r, w') →
  branch_outcome o b w w' r.
Proof.
  intros Hb Hcalls Hs. apply show_secret_cases in Hs.
  cbn [w_opt w_out w_err w_calls w_tpm] in Hs. rewrite app_nil_r in Hs.
  destruct Hs as (Ho & Hc & _ & Hr). split; [done|].
  destruct r as [[]|s|e].
  - destruct Hr as (He & _). exists calls, []. by rewrite app_nil_r.
  - destruct Hr as (-> & Hout & He & _). exists calls, [Text "QRcode failed."].
    repeat split; try done. right. by eexists.
  - destruct Hr as (Hout & He). exists calls, []. by rewrite app_nil_r.
Qed.

Lemma run_branch_outcome b o (w w' : @world Dev) r :
  run_branch L T b o w = (r, w') → branch_outcome o b w w' r.
Proof.
  destruct b; cbn [run_branch].
  - destruct (tpm2totp_generateKey T 0 0 (password o) (w_tpm w))
      as [[[rc1 secret] keyBlob] t1] eqn:H1.
    destruct (tpm2totp_storeKey_nv T keyBlob (nvindex o) t1) as [rc2 t2] eqn:H2.
    rewrite (do_generate_full o w _ _ _ _ _ _ H1 H2). cbv zeta.
    destruct (rc1 =? 0); cbn [negb];
      [|outcome_exit [GenerateKey 0 0 (password o)] (ErrorIn 232 rc1)].
    destruct (rc2 =? 0); cbn [negb];
      [|outcome_exit [GenerateKey 0 0 (password o); StoreKey keyBlob (nvindex o)]
          (ErrorIn 236 rc2)].
    intros Hs. pose proof (show_secret_cases _ _ _ _ Hs) as (_ & _ & Ht & _).
    cbn [w_tpm] in Ht. rewrite <- Ht in Hs.
    eapply show_secret_outcome; [done| |exact Hs].
    solve_calls.
  - destruct (tpm2totp_loadKey_nv T (nvindex o) (w_tpm w)) as [[rc1 blob] t1] eqn:H1.
    destruct (tpm2totp_calculate T blob t1) as [[[rc2 now] totp] t2] eqn:H2.
    rewrite (do_calculate_full o w _ _ _ _ _ _ _ H1 H2). cbv zeta.
    destruct (rc1 =? 0); cbn [negb];
      [|rewrite QrProofs.append_nil_r;
        outcome_exit [LoadKey (nvindex o)] (ErrorIn 252 rc1)].
    destruct (rc2 =? 0); cbn [negb];
      [|rewrite QrProofs.append_nil_r;
        outcome_exit [LoadKey (nvindex o); Calculate blob] (ErrorIn 256 rc2)].
    assert (Forall (call_uses o) [LoadKey (nvindex o); Calculate blob]) as Hc
      by solve_calls.
    destruct (time o =? 0).
    { intros [= <- <-]. split; [done|].
      exists [LoadKey (nvindex o); Calculate blob], []. by repeat split. }
    pose proof (no_exit_strftime now) as Hne.
    destruct (strftime L now) as [[n s]|st|f].
    2: { by destruct (Hne st). }
    2: { intros [= <- <-]. split; [done|].
         exists [LoadKey (nvindex o); Calculate blob], [].
         cbn [w_opt w_out w_err w_calls w_tpm].
         by rewrite QrProofs.append_nil_r. }
    destruct (n =? 0).
    { rewrite QrProofs.append_nil_r.
      outcome_exit [LoadKey (nvindex o); Calculate blob] (ErrorIn 260 1). }
    intros [= <- <-]. split; [done|].
    exists [LoadKey (nvindex o); Calculate blob], []. by repeat split.
  - destruct (tpm2totp_loadKey_nv T (nvindex o) (w_tpm w)) as [[rc1 blob] t1] eqn:H1.
    destruct (tpm2totp_reseal T blob (password o) 0 0 t1) as [[rc2 newBlob] t2] eqn:H2.
    destruct (tpm2totp_deleteKey_nv T (nvindex o) t2) as [rc3 t3] eqn:H3.
    destruct (tpm2totp_storeKey_nv T newBlob (nvindex o) t3) as [rc4 t4] eqn:H4.
    rewrite (do_reseal_spec T o w _ _ _ _ _ _ _ _ _ _ H1 H2 H3 H4). cbv zeta.
    destruct (rc1 =? 0); cbn [negb];
      [|outcome_exit [LoadKey (nvindex o)] (ErrorIn 266 rc1)].
    destruct (rc2 =? 0); cbn [negb];
      [|outcome_exit [LoadKey (nvindex o); Reseal blob (password o) 0 0]
          (ErrorIn 271 rc2)].
    destruct (rc3 =? 0); cbn [negb];
      [|outcome_exit [LoadKey (nvindex o); Reseal blob (password o) 0 0;
                      DeleteKey (nvindex o)] (ErrorIn 275 rc3)].
    destruct (rc4 =? 0); cbn [negb];
      [|outcome_exit [LoadKey (nvindex o); Reseal blob (password o) 0 0;
                      DeleteKey (nvindex o); StoreKey newBlob (nvindex o)]
          (ErrorIn 279 rc4)].
    intros [= <- <-]. split; [done|].
    exists [LoadKey (nvindex o); Reseal blob (password o) 0 0;
            DeleteKey (nvindex o); StoreKey newBlob (nvindex o)], [].
    cbn [w_opt w_out w_err w_calls w_tpm].
    repeat split; try done. solve_calls.
  - destruct (tpm2totp_loadKey_nv T (nvindex o) (w_tpm w)) as [[rc1 keyBlob] t1] eqn:H1.
    destruct (tpm2totp_getSecret T keyBlob (password o) t1) as [[rc2 secret] t2] eqn:H2.
    rewrite (do_recover_full o w _ _ _ _ _ _ H1 H2). cbv zeta.
    destruct (rc1 =? 0); cbn [negb];
      [|outcome_exit [LoadKey (nvindex o)] (ErrorIn 283 rc1)].
    destruct (rc2 =? 0); cbn [negb];
      [|outcome_exit [LoadKey (nvindex o); GetSecret keyBlob (password o)]
          (ErrorIn 288 rc2)].
    intros Hs. pose proof (show_secret_cases _ _ _ _ Hs) as (_ & _ & Ht & _).
    cbn [w_tpm] in Ht. rewrite <- Ht in Hs.
    eapply show_secret_outcome; [done| |exact Hs].
    solve_calls.
  - destruct (tpm2totp_deleteKey_nv T (nvindex o) (w_tpm w)) as [rc t1] eqn:H1.
    rewrite (do_clean_spec T o w _ _ H1).
    destruct (rc =? 0);
      [|outcome_exit [DeleteKey (nvindex o)] (ErrorIn 305 rc)].
    intros [= <- <-]. split; [done|]. exists [DeleteKey (nvindex o)], [].
    cbn [w_opt w_out w_err w_calls w_tpm]. rewrite app_nil_r.
    repeat split; try done. solve_calls.
  - unfold exit. intros [= <- <-]. split; [done|]. exists [], [].
    rewrite !app_nil_r. repeat split; try done. by left.
Qed.

(** A run of [main]: the calls use the options [parse_opts] stored, with
    NV index 0; every way out with [exit] has status 1, a diagnostic on
    the error stream and nothing on the standard output. *)
Lemma main_outcome argv (w w' : @world Dev) r :
  main L T argv w = (r, w') →
  ∃ calls errs,
    w_calls w' = w_calls w ++ calls ∧
    w_err w' = w_err w ++ errs ∧
    Forall (call_uses
              (Opt CMD_NONE 0
                 (last_password None
                    (Getopt.getopt_long (posixly_correct L) argv optstr
                       long_options).1) 0 0)) calls ∧
    match r with
    | Ok v => v = 0 ∧ errs = []
    | Exit s => s = 1 ∧ w_out w' = w_out w ∧ errs ≠ []
    | Fault _ => errs = [] ∧ w_out w' = w_out w
    end.
Proof.
  destruct (ParseCases.parse_opts_outcome L argv w)
    as [(arg & c & Hno & Hacc & Hc & Hrun)|(_ & o & msgs & Hmsgs & Hrun)].
  - rewrite (main_after_parse L T _ _ _ Hrun), then_return.
    cbn [w_opt cmd].
    destruct (run_branch L T (switch c) _ _) as [r1 w1] eqn:Hb.
    apply run_branch_outcome in Hb.
    destruct Hb as (_ & calls & errs & Hcalls & Herrs & Huses & Hr).
    cbn [w_opt w_out w_err w_calls w_tpm] in *.
    assert (switch c ≠ CaseDefault) as Hsw.
    { unfold command_of in Hc.
      repeat match type of Hc with
             | context [String.eqb arg ?s] => destruct (String.eqb arg s)
             end; try discriminate; by injection Hc as <-. }
    destruct r1 as [[]|s|e]; intros [= <- <-]; exists calls, errs;
      (split; [done|]); (split; [done|]); (split; [exact Huses|]).
    + by destruct Hr.
    + destruct Hr as (-> & Hout & [?|[m ->]]); done.
    + done.
  - rewrite (main_parse_exit L T _ _ _ _ Hrun). intros [= <- <-].
    exists [], msgs. cbn [w_opt w_out w_err w_calls w_tpm].
    rewrite app_nil_r. repeat split; try done.
    apply ParseCases.leaving_lines_shape in Hmsgs;
      [|apply GetoptProofs.getopt_long_ok].
    by destruct Hmsgs as [[m ->]|(e & idx & ->)].
Qed.

Lemma then_return_world {A B} (m : @M Dev A) (b : B) w :
  ((m ≫= λ _, mret b) w).2 = (m w).2.
Proof. rewrite then_return. by destruct (m w) as [[] ?]. Qed.

(** The calls of a run of a command's branch are an initial part, never
    empty, of the calls of that command. *)
Lemma handler_calls o (w : @world Dev) :
  cmd o ≠ CMD_NONE →
  ∃ n, (0 < n)%nat ∧
    w_calls (run_branch L T (switch (cmd o)) o w).2 =
    w_calls w ++ take n (command_calls T o (w_tpm w)).
Proof.
  intros Hcmd. unfold command_calls.
  destruct (cmd o); [done|..]; cbn [switch run_branch].
  - destruct (tpm2totp_generateKey T 0 0 (password o) (w_tpm w))
      as [[[rc1 secret] keyBlob] t1] eqn:H1.
    destruct (tpm2totp_storeKey_nv T keyBlob (nvindex o) t1) as [rc2 t2] eqn:H2.
    rewrite (do_generate_full o w _ _ _ _ _ _ H1 H2). cbv zeta.
    destruct (rc1 =? 0); cbn [negb]; [|by exists 1%nat; split; [lia|]].
    destruct (rc2 =? 0); cbn [negb]; [|by exists 2%nat; split; [lia|]].
    destruct (show_secret L secret _) as [r w'] eqn:Hs.
    apply show_secret_cases in Hs as (_ & Hc & _).
    exists 2%nat. split; [lia|]. cbn [snd]. by rewrite Hc.
  - destruct (tpm2totp_loadKey_nv T (nvindex o) (w_tpm w)) as [[rc1 blob] t1] eqn:H1.
    destruct (tpm2totp_calculate T blob t1) as [[[rc2 now] totp] t2] eqn:H2.
    rewrite (do_calculate_full o w _ _ _ _ _ _ _ H1 H2). cbv zeta.
    destruct (rc1 =? 0); cbn [negb]; [|by exists 1%nat; split; [lia|]].
    exists 2%nat. split; [lia|].
    destruct (rc2 =? 0); cbn [negb]; [|done].
    destruct (time o =? 0); [done|].
    destruct (strftime L now) as [[n s]|st|f]; [|done..].
    by destruct (n =? 0).
  - destruct (tpm2totp_loadKey_nv T (nvindex o) (w_tpm w)) as [[rc1 blob] t1] eqn:H1.
    destruct (tpm2totp_reseal T blob (password o) 0 0 t1) as [[rc2 newBlob] t2] eqn:H2.
    destruct (tpm2totp_deleteKey_nv T (nvindex o) t2) as [rc3 t3] eqn:H3.
    destruct (tpm2totp_storeKey_nv T newBlob (nvindex o) t3) as [rc4 t4] eqn:H4.
    rewrite (do_reseal_spec T o w _ _ _ _ _ _ _ _ _ _ H1 H2 H3 H4). cbv zeta.
    destruct (rc1 =? 0); cbn [negb]; [|by exists 1%nat; split; [lia|]].
    destruct (rc2 =? 0); cbn [negb]; [|by exists 2%nat; split; [lia|]].
    destruct (rc3 =? 0); cbn [negb]; [|by exists 3%nat; split; [lia|]].
    exists 4%nat. split; [lia|]. by destruct (rc4 =? 0).
  - destruct (tpm2totp_loadKey_nv T (nvindex o) (w_tpm w)) as [[rc1 keyBlob] t1] eqn:H1.
    destruct (tpm2totp_getSecret T keyBlob (password o) t1) as [[rc2 secret] t2] eqn:H2.
    rewrite (do_recover_full o w _ _ _ _ _ _ H1 H2). cbv zeta.
    destruct (rc1 =? 0); cbn [negb]; [|by exists 1%nat; split; [lia|]].
    destruct (rc2 =? 0); cbn [negb]; [|by exists 2%nat; split; [lia|]].
    destruct (show_secret L secret _) as [r w'] eqn:Hs.
    apply show_secret_cases in Hs as (_ & Hc & _).
    exists 2%nat. split; [lia|]. cbn [snd]. by rewrite Hc.
  - destruct (tpm2totp_deleteKey_nv T (nvindex o) (w_tpm w)) as [rc t1] eqn:H1.
    rewrite (do_clean_spec T o w _ _ H1).
    exists 1%nat. split; [lia|]. by destruct (rc =? 0).
Qed.

(** What [parse_opts] leaves untouched when it returns. *)
Lemma parse_opts_frame argv (w w1 : @world Dev) rc :
  parse_opts L argv w = (Ok rc, w1) →
  w_out w1 = w_out w ∧ w_err w1 = w_err w ∧ w_calls w1 = w_calls w ∧
  w_tpm w1 = w_tpm w.
Proof.
  intros Hparse.
  destruct (ParseCases.parse_opts_outcome L argv w)
    as [(arg & c & _ & _ & _ & Hrun)|(_ & o & msgs & _ & Hrun)];
    rewrite Hrun in Hparse; [|discriminate].
  by injection Hparse as <- <-.
Qed.

End Branches.

End MainCases.

(** ** Decoding what [base32enc] wrote *)

Module Base32More.
Import Base32 Base32Spec Base32Decode Base32Post Base32Rfc.

Lemma bits5_value b0 b1 b2 b3 b4 :
  bits5 (bits_value [b0; b1; b2; b3; b4]) = [b0; b1; b2; b3; b4].
Proof. by destruct b0, b1, b2, b3, b4. Qed.

Lemma of_bits_byte a :
  Byte.of_bits
    (bit a 0, (bit a 1, (bit a 2, (bit a 3, (bit a 4, (bit a 5, (bit a 6, bit a 7)))))))
  = a.
Proof.
  apply Byte.byte_dec_bl. revert a.
  apply (byte_forall
           (λ a, Byte.eqb
                   (Byte.of_bits
                      (bit a 0, (bit a 1, (bit a 2, (bit a 3,
                         (bit a 4, (bit a 5, (bit a 6, bit a 7)))))))) a)).
  vm_compute. reflexivity.
Qed.

Lemma symbol_of_base32_char v : 0 ≤ v < 32 → symbol_of_char (base32_char v) = v.
Proof.
  revert v. apply below_32_cases.
  repeat (apply Forall_cons_2; [vm_compute; reflexivity|]).
  apply Forall_nil_2.
Qed.

Lemma before_pad_symbols syms k :
  Forall (λ v, 0 ≤ v < 32) syms →
  before_pad ((base32_char <$> syms) ++ replicate k (code_of "=")) =
  base32_char <$> syms.
Proof.
  induction 1 as [|v syms Hv _ IH].
  - by destruct k.
  - cbn [fmap list_fmap app before_pad].
    destruct (base32_char_facts v Hv) as (_ & _ & Hne & _).
    destruct (Z.eqb_spec (base32_char v) (code_of "=")); [done|].
    f_equal. exact IH.
Qed.

Ltac to_bits :=
  rewrite ?sym0_bits, ?sym1_bits, ?sym2_bits, ?sym3_bits, ?sym4_bits,
    ?sym5_bits, ?sym6_bits, ?sym7_bits, ?tail1_bits, ?tail2_bits,
    ?tail3_bits, ?tail4_bits;
  cbn [mbind list_bind app]; rewrite ?bits5_value;
  cbn [app bytes_of_bits]; rewrite ?of_bits_byte.

(** The bits of the symbols the loop writes are the bytes it read. *)
Lemma decode_loop_symbols l : bytes_of_bits (loop_symbols l ≫= bits5) = l.
Proof.
  induction l as [|a|a b|a b c|a b c d|a b c d e l IH] using list_ind5.
  - reflexivity.
  - cbn [loop_symbols]. by to_bits.
  - cbn [loop_symbols]. by to_bits.
  - cbn [loop_symbols]. by to_bits.
  - cbn [loop_symbols]. by to_bits.
  - rewrite Base32Loop.loop_symbols_full, bind_app.
    to_bits. by rewrite IH.
Qed.

Lemma enc_chars_bounds l : Forall (λ c, 0 ≤ c < 256) (enc_chars l).
Proof.
  unfold enc_chars. apply Forall_app_2.
  - apply Forall_fmap. generalize (loop_symbols_bounds l). apply List.Forall_impl.
    intros v Hv. simpl. destruct (base32_char_facts v Hv) as (_ & ? & _). lia.
  - apply Forall_replicate. by vm_compute.
Qed.

(** Decoding the text of [base32enc] gives the bytes back. *)
Lemma decode_enc_chars l : rfc4648_decode (string_of_chars (enc_chars l)) = l.
Proof.
  unfold rfc4648_decode.
  rewrite QrProofs.string_of_chars_chars by apply enc_chars_bounds.
  unfold enc_chars. cbv zeta.
  rewrite before_pad_symbols by apply loop_symbols_bounds.
  rewrite <- list_fmap_compose.
  rewrite (Forall_fmap_ext_1 (symbol_of_char ∘ base32_char) id).
  2: { generalize (loop_symbols_bounds l). apply List.Forall_impl.
       intros v Hv. by apply symbol_of_base32_char. }
  rewrite list_fmap_id. apply decode_loop_symbols.
Qed.



(** The characters of the text: the alphabet, then only ['=']. *)
Lemma rfc4648_alphabet_range v :
  0 ≤ v < 32 →
  code_of "A" ≤ rfc4648_alphabet v ≤ code_of "Z" ∨
  code_of "2" ≤ rfc4648_alphabet v ≤ code_of "7".
Proof.
  intros Hv. unfold rfc4648_alphabet.
  destruct (Z.ltb_spec v 26); [left|right];
    change (code_of "A") with 65; change (code_of "Z") with 90;
    change (code_of "2") with 50; change (code_of "7") with 55; lia.
Qed.

End Base32More.

(** ** The picture and the matrix *)

Module QrMore.
Import Qr QrSame QrProofs.

Lemma append_same_length (s1 s2 t1 t2 : string) :
  String.length s1 = String.length s2 →
  (s1 ++ t1 = s2 ++ t2)%string → s1 = s2 ∧ t1 = t2.
Proof.
  revert s2. induction s1 as [|a s1 IH]; intros [|b s2] Hlen Heq;
    try discriminate; [done|].
  cbn in Heq. injection Heq as -> Heq. injection Hlen as Hlen.
  destruct (IH s2 Hlen Heq) as [-> ->]. done.
Qed.

Lemma land_1_cases d : Z.land d 1 = 0 ∨ Z.land d 1 = 1.
Proof.
  pose proof (Z.land_ones d 1 ltac:(lia)) as H.
  change (Z.ones 1) with 1 in H. rewrite H. change (2 ^ 1) with 2.
  pose proof (Z.mod_pos_bound d 2). lia.
Qed.

Lemma cell_text_same d d' : cell_text d = cell_text d' ↔ same_module d d'.
Proof.
  unfold cell_text, same_module. split.
  - destruct (Z.eqb_spec (Z.land d 1) 0) as [->|Hd],
      (Z.eqb_spec (Z.land d' 1) 0) as [->|Hd']; try done.
    intros _. destruct (land_1_cases d), (land_1_cases d'); lia.
  - by intros ->.
Qed.

Lemma cells_text_same row row' t t' :
  length row = length row' →
  (cells_text row ++ t = cells_text row' ++ t')%string →
  Forall2 same_module row row' ∧ t = t'.
Proof.
  revert row'. induction row as [|d row IH]; intros [|d' row'] Hlen Heq;
    try discriminate; [done|].
  cbn [cells_text fold_right] in Heq. fold (cells_text row) in Heq.
  fold (cells_text row') in Heq. rewrite !append_assoc in Heq.
  apply append_same_length in Heq; [|by rewrite !cell_text_length].
  destruct Heq as [Hd Heq]. injection Hlen as Hlen.
  destruct (IH row' Hlen Heq) as [Hrow ->].
  split; [|done]. constructor; [by apply cell_text_same | done].
Qed.

Lemma cells_text_agree row row' :
  Forall2 same_module row row' → cells_text row = cells_text row'.
Proof.
  induction 1 as [|d d' row row' Hd _ IH]; [done|].
  cbn [cells_text fold_right]. fold (cells_text row). fold (cells_text row').
  apply cell_text_same in Hd. by rewrite Hd, IH.
Qed.

Lemma lines_text_same (w : nat) rs : ∀ rs' t t',
  Forall (λ row, length row = w) rs →
  Forall (λ row, length row = w) rs' →
  length rs = length rs' →
  (lines_text rs ++ t = lines_text rs' ++ t')%string →
  Forall2 (Forall2 same_module) rs rs' ∧ t = t'.
Proof.
  induction rs as [|row rs IH]; intros [|row' rs'] t t' Hrs Hrs' Hlen Heq;
    try discriminate; [done|].
  apply Forall_cons_1 in Hrs as [Hrow Hrs]. apply Forall_cons_1 in Hrs' as [Hrow' Hrs'].
  cbn [lines_text fold_right] in Heq. fold (lines_text rs) in Heq.
  fold (lines_text rs') in Heq.
  rewrite !line_text_cells, !append_assoc in Heq.
  apply append_same_length in Heq as [_ Heq]; [|done].
  apply cells_text_same in Heq as [Hsame Heq]; [|congruence].
  apply append_same_length in Heq as [_ Heq]; [|done].
  injection Hlen as Hlen.
  destruct (IH rs' t t' Hrs Hrs' Hlen Heq) as [Hrest ->].
  split; [|done]. by constructor.
Qed.

Lemma lines_text_agree rs rs' :
  Forall2 (Forall2 same_module) rs rs' → lines_text rs = lines_text rs'.
Proof.
  induction 1 as [|row row' rs rs' Hrow _ IH]; [done|].
  cbn [lines_text fold_right]. fold (lines_text rs). fold (lines_text rs').
  by rewrite !line_text_cells, (cells_text_agree _ _ Hrow), IH.
Qed.

Lemma rows_agree (w n : nat) : ∀ ds ds',
  Forall2 same_module ds ds' →
  Forall2 (Forall2 same_module) (rows w n ds) (rows w n ds').
Proof.
  induction n as [|n IH]; intros ds ds' H; cbn [rows]; constructor.
  - by apply Forall2_take.
  - apply IH. by apply Forall2_drop.
Qed.

Lemma rows_same (w n : nat) : ∀ ds ds',
  length ds = (n * w)%nat → length ds' = (n * w)%nat →
  Forall2 (Forall2 same_module) (rows w n ds) (rows w n ds') →
  Forall2 same_module ds ds'.
Proof.
  induction n as [|n IH]; intros ds ds' Hds Hds' H.
  - destruct ds, ds'; try discriminate. constructor.
  - cbn [rows] in H. apply Forall2_cons_1 in H as [Hrow Hrest].
    rewrite <- (take_drop w ds), <- (take_drop w ds').
    apply Forall2_app; [done|].
    apply IH; [rewrite length_drop; lia | rewrite length_drop; lia | done].
Qed.

(** Two valid matrices of the same width have the same picture exactly
    when their modules agree in bit 0. *)
Lemma picture_same q q' :
  0 ≤ width q →
  width q = width q' →
  length (data q) = Z.to_nat (width q * width q) →
  length (data q') = Z.to_nat (width q' * width q') →
  picture q = picture q' ↔ Forall2 same_module (data q) (data q').
Proof.
  intros Hw Hww Hdata Hdata'. rewrite !picture_margins, <- Hww.
  rewrite <- Hww in Hdata'.
  assert (Z.to_nat (width q * width q) =
          (Z.to_nat (width q) * Z.to_nat (width q))%nat) as Hsq by lia.
  rewrite Hsq in Hdata, Hdata'.
  split.
  - intros Heq.
    apply append_same_length in Heq as [_ Heq]; [|done].
    apply lines_text_same with (w := Z.to_nat (width q)) in Heq as [Hrows _].
    + by apply rows_same in Hrows.
    + by apply rows_length.
    + by apply rows_length.
    + by rewrite !rows_count.
  - intros Hsame. do 2 f_equal.
    apply lines_text_agree, rows_agree, Hsame.
Qed.

End QrMore.

(** ** What the branches read of [opt] *)

Module Flags.
Import Tool Summary MainProofs.

Section Alike.
Context {Dev : Type}.
Variable L : libs.
Variable T : @tpm Dev.

Lemma alike_bind {A B} (m m' : @M Dev A) (f f' : A → @M Dev B) :
  alike m m' → (∀ a, alike (f a) (f' a)) → alike (m ≫= f) (m' ≫= f').
Proof.
  intros Hm Hf w w' Hw. unfold mbind, M_bind.
  specialize (Hm w w' Hw).
  destruct (m w) as [r w1], (m' w') as [r' w1']. cbn [fst snd] in Hm.
  destruct Hm as [-> Hag]. destruct r' as [a|s|e]; [by apply Hf|done..].
Qed.

Lemma alike_ret {A} (a : A) : alike (mret a : @M Dev A) (mret a).
Proof. by intros w w' Hw. Qed.

Lemma alike_exit {A} s : alike (exit s : @M Dev A) (exit s).
Proof. by intros w w' Hw. Qed.

Lemma alike_lift {A} (r : res A) : alike (lift r : @M Dev A) (lift r).
Proof. by intros w w' Hw. Qed.

Lemma alike_printf s : alike (printf s : @M Dev unit) (printf s).
Proof.
  intros w w' (Ho & He & Hc & Ht). unfold printf, agree.
  cbn [fst snd w_out w_err w_calls w_tpm]. by rewrite Ho.
Qed.

Lemma alike_ERR m : alike (ERR m : @M Dev unit) (ERR m).
Proof.
  intros w w' (Ho & He & Hc & Ht). unfold ERR, agree.
  cbn [fst snd w_out w_err w_calls w_tpm]. by rewrite He.
Qed.

Lemma alike_invoke {A} c (f : Dev → A * Dev) : alike (invoke c f) (invoke c f).
Proof.
  intros w w' (Ho & He & Hc & Ht). unfold invoke, agree. rewrite Ht.
  destruct (f (w_tpm w')) as [a t].
  cbn [fst snd w_out w_err w_calls w_tpm]. by rewrite Hc.
Qed.

Lemma alike_chkrc line rc : alike (chkrc line rc : @M Dev unit) (chkrc line rc).
Proof.
  unfold chkrc. destruct (rc =? TSS2_RC_SUCCESS); [apply alike_ret|].
  apply alike_bind; [apply alike_ERR|]. intros _. apply alike_exit.
Qed.

Lemma alike_qrencode url : alike (qrencode L url : @M Dev string) (qrencode L url).
Proof.
  unfold qrencode. destruct (QRcode_encodeString L url); [apply alike_lift|].
  apply alike_bind; [apply alike_ERR|]. intros _. apply alike_exit.
Qed.

Lemma alike_show_secret secret :
  alike (show_secret L secret : @M Dev unit) (show_secret L secret).
Proof.
  unfold show_secret.
  apply alike_bind; [apply alike_lift|]. intros key.
  apply alike_bind; [apply alike_qrencode|]. intros pic.
  apply alike_bind; [apply alike_printf|]. intros _. apply alike_printf.
Qed.

Ltac alike_step :=
  first
    [ apply alike_ret | apply alike_exit | apply alike_lift | apply alike_printf
    | apply alike_ERR | apply alike_invoke | apply alike_chkrc
    | apply alike_show_secret
    | apply alike_bind; [|intros ?]
    | match goal with
      | |- alike (let '(_, _) := ?p in _) _ => destruct p
      | |- alike (if ?b then _ else _) _ => destruct b
      end ].

(** A branch reads [opt.nvindex] and [opt.password], the calculate branch
    [opt.time] as well; [opt.verbose] is read by none. *)
Lemma alike_run_branch b o o' :
  nvindex o = nvindex o' → password o = password o' →
  (b = CaseCalculate → time o = time o') →
  alike (run_branch L T b o) (run_branch L T b o').
Proof.
  intros Hnv Hpw Htime.
  destruct b; cbn [run_branch];
    unfold do_generate, do_calculate, do_reseal, do_recover, do_clean;
    rewrite ?Hnv, ?Hpw, ?Htime by done;
    repeat alike_step.
Qed.

End Alike.

End Flags.

(** * The stated properties *)

(** ** Base32 *)

(** C1 (the encoder at the empty input).  [base32enc] is not total: for
    [in_size = 0] the loop body runs once before the size is tested, so
    the first statement reads [in[0]], which lies outside the input; and
    when a byte happens to be readable there, the second statement stores
    into [r[1]], outside the one-byte allocation [malloc(out_size + 1)]. *)
Theorem base32enc_empty_out_of_bounds :
  Base32.base32enc [] 0 = Fault (OobRead BufIn 0) ∧
  ∀ x : byte, Base32.base32enc [x] 0 = Fault (OobWrite BufR 1).
Proof.
  split; [vm_compute; reflexivity|].
  intros x.
  pose proof (Base32Rfc.byte_forall
                (λ x, match Base32.base32enc [x] 0 with
                      | Fault (OobWrite BufR i) => i =? 1
                      | _ => false
                      end)) as H.
  specialize (H ltac:(vm_compute; reflexivity) x). cbv beta in H.
  destruct (Base32.base32enc [x] 0) as [?|?|[b i|b i|b i|v| |]]; try discriminate.
  destruct b; try discriminate. by apply Z.eqb_eq in H as ->.
Qed.



(** C7 (length of the text, empty input).  The length law
    [ceil(len/5) * 8] does not reach the empty input: [base32enc] of the
    empty sequence returns no string at all, so not the empty string; and
    where the allocator leaves room behind the one byte asked for and a
    byte is readable at [in], the text built has two characters. *)
Theorem base32enc_empty_not_empty_string :
  (∀ s, Base32.base32enc [] 0 ≠ Ok s) ∧
  ∀ x : byte,
    String.length <$> Base32.encode_into (replicate 3 None) 0 [x] 0 = Ok 2%nat.
Proof.
  split; [intros s; vm_compute; discriminate|].
  intros x.
  pose proof (Base32Rfc.byte_forall
                (λ x, match String.length <$>
                            Base32.encode_into (replicate 3 None) 0 [x] 0 with
                      | Ok n => Nat.eqb n 2
                      | _ => false
                      end)) as H.
  specialize (H ltac:(vm_compute; reflexivity) x). cbv beta in H.
  destruct (String.length <$> _) as [n| |]; try discriminate.
  by apply Nat.eqb_eq in H as ->.
Qed.

(** C5, as stated, fails: one byte is followed by six ['='], where the
    stated table has one. *)
Lemma base32_padding_counterexample :
  ∃ s, Base32.base32enc [x00] 1 = Ok s ∧
       Base32Spec.count_pad s ≠ Base32Spec.claimed_padding (length [x00]).
Proof. exists "AA======"%string. split; [vm_compute; reflexivity | vm_compute; lia]. Qed.

(** C5, amended.  For every non-empty byte sequence the number of ['=']
    characters of [base32enc]'s text is 0, 6, 4, 3 or 1 according as the
    length is 0, 1, 2, 3 or 4 modulo 5 (the table of RFC 4648). *)
Theorem base32enc_padding_table (l : list byte) :
  l ≠ [] →
  Z.of_nat (length l) < 2^63 →
  ∃ s, Base32.base32enc l (Z.of_nat (length l)) = Ok s ∧
       Base32Spec.count_pad s = Base32Spec.rfc4648_padding (length l).
Proof.
  intros Hne Hsz. eexists. split.
  - by apply Base32Post.base32enc_nonempty.
  - apply Base32Rfc.enc_padding.
Qed.

Lemma base32enc_padding_table_witness :
  ∃ s, Base32.base32enc [x66; x6f] (Z.of_nat (length [x66; x6f])) = Ok s ∧
       Base32Spec.count_pad s = Base32Spec.rfc4648_padding (length [x66; x6f]).
Proof.
  apply (base32enc_padding_table [x66; x6f]); [discriminate | vm_compute; reflexivity].
Defined.

(** C6.  For every non-empty byte sequence [base32enc] returns the RFC 4648
    base32 text of its input: the bytes read as one bit stream, most
    significant bit first; the stream cut into 5-bit groups, the last one
    filled with zero bits; each group mapped through [A-Z], [2-7]; ['=']
    up to a multiple of 8 characters.  Five zero bytes give ["AAAAAAAA"]. *)
Theorem base32enc_rfc4648 (l : list byte) :
  l ≠ [] →
  Z.of_nat (length l) < 2^63 →
  Base32.base32enc l (Z.of_nat (length l)) = Ok (Base32Spec.rfc4648_base32 l) ∧
  Base32.base32enc (replicate 5 x00) 5 = Ok "AAAAAAAA"%string.
Proof.
  intros Hne Hsz. split; [|vm_compute; reflexivity].
  rewrite Base32Post.base32enc_nonempty by done.
  by rewrite Base32Rfc.enc_chars_rfc.
Qed.

Lemma base32enc_rfc4648_witness :
  Base32.base32enc [x66; x6f; x6f] (Z.of_nat (length [x66; x6f; x6f])) =
    Ok (Base32Spec.rfc4648_base32 [x66; x6f; x6f]) ∧
  Base32.base32enc (replicate 5 x00) 5 = Ok "AAAAAAAA"%string.
Proof.
  apply (base32enc_rfc4648 [x66; x6f; x6f]); [discriminate | vm_compute; reflexivity].
Defined.

(** ** The rasterizer *)

(** C8.  For every matrix width [w] from 1 up (to 46340, beyond which the
    [int] index [y*width + x] overflows; a QR symbol has at most 177) and
    every content of the [w * w] modules, [qrencode] runs without a store
    outside [qrpic]: the cells it writes are the picture and its
    terminating NUL, [idx + 1] bytes, two fewer than the size computed in
    the [malloc] expression. *)
Theorem qrencode_within_allocation (q : Qr.QRcode) :
  1 ≤ Qr.width q ≤ 46340 →
  length (Qr.data q) = Z.to_nat (Qr.width q * Qr.width q) →
  ∃ size m idx,
    Qr.qrpic_size (Qr.width q) = Ok size ∧
    Qr.rasterize q = Ok (m, idx) ∧
    Z.of_nat (length m) = size ∧
    m = Qr.filled (Qr.picture q) 2 ∧
    Z.of_nat (Qr.written m) = idx + 1 ∧
    Z.of_nat (Qr.written m) ≤ size.
Proof.
  intros Hw Hdata.
  exists (7 * Qr.width q * Qr.width q + 23 * Qr.width q + 31),
         (Qr.filled (Qr.picture q) 2), (Qr.strlen (Qr.picture q)).
  pose proof (QrProofs.picture_length q Hw Hdata) as Hlen.
  rewrite QrProofs.written_filled, QrProofs.filled_length.
  unfold Qr.strlen in *.
  split; [by apply QrProofs.qrpic_size_spec|].
  split; [by apply QrProofs.rasterize_spec|].
  repeat split; lia.
Qed.

Lemma qrencode_within_allocation_witness :
  ∃ size m idx,
    Qr.qrpic_size 2 = Ok size ∧
    Qr.rasterize {| Qr.version := 1; Qr.width := 2; Qr.data := [1; 0; 0; 1] |}
      = Ok (m, idx) ∧
    Z.of_nat (length m) = size ∧
    m = Qr.filled
          (Qr.picture {| Qr.version := 1; Qr.width := 2; Qr.data := [1; 0; 0; 1] |}) 2 ∧
    Z.of_nat (Qr.written m) = idx + 1 ∧
    Z.of_nat (Qr.written m) ≤ size.
Proof.
  apply (qrencode_within_allocation
           {| Qr.version := 1; Qr.width := 2; Qr.data := [1; 0; 0; 1] |});
    [cbn; lia | reflexivity].
Defined.

(** ** Options *)

(** C10.  Whenever [parse_opts] returns to its caller it returns 0 with
    [opt.cmd] set to one of the five commands, never [CMD_NONE]; the
    [default] label of [main]'s [switch] is not reached, and what [main]
    then runs is the handler of that command and of no other: the
    statements under [case CMD_GENERATE] for generate, and so on.  Whatever
    the secure storage answers, the run makes at least one call, and the
    calls it makes are an initial part of that command's own sequence of
    calls. *)
Theorem parse_opts_selects_command {Dev : Type}
    (L : Tool.libs) (argv : list string) (w w' : @Tool.world Dev) (rc : Z) :
  Tool.parse_opts L argv w = (Ok rc, w') →
  rc = 0 ∧
  Tool.cmd (Tool.w_opt w') ≠ Tool.CMD_NONE ∧
  Tool.cmd (Tool.w_opt w') ∈
    [Tool.CMD_GENERATE; Tool.CMD_CALCULATE; Tool.CMD_RESEAL;
     Tool.CMD_RECOVER; Tool.CMD_CLEAN] ∧
  Tool.switch (Tool.cmd (Tool.w_opt w')) ≠ Tool.CaseDefault ∧
  ∀ T : Tool.tpm,
    Tool.main L T argv w =
    (match Tool.cmd (Tool.w_opt w') with
     | Tool.CMD_GENERATE => Tool.do_generate L T (Tool.w_opt w')
     | Tool.CMD_CALCULATE => Tool.do_calculate L T (Tool.w_opt w')
     | Tool.CMD_RESEAL => Tool.do_reseal T (Tool.w_opt w')
     | Tool.CMD_RECOVER => Tool.do_recover L T (Tool.w_opt w')
     | Tool.CMD_CLEAN => Tool.do_clean T (Tool.w_opt w')
     | Tool.CMD_NONE => Tool.exit 1
     end;;
     mret 0) w' ∧
    ∃ n, (0 < n)%nat ∧
      Tool.w_calls (Tool.main L T argv w).2 =
      Tool.w_calls w ++
      take n (Summary.command_calls T (Tool.w_opt w') (Tool.w_tpm w')).
Proof.
  intros H.
  destruct (ParseProofs.parse_opts_spec L argv w _ _ H)
    as ((_ & Hcalls & _) & _ & [[Hrc Hcmd]|?]); [|done].
  injection Hrc as ->.
  split; [done|]. split; [done|].
  split; [destruct (Tool.cmd (Tool.w_opt w')); [done|..];
          apply list_elem_of_In; cbn; tauto|].
  split; [by destruct (Tool.cmd (Tool.w_opt w'))|].
  intros T. rewrite (MainProofs.main_after_parse L T _ _ _ H). split.
  - by destruct (Tool.cmd (Tool.w_opt w')).
  - rewrite MainCases.then_return_world, <- Hcalls.
    by apply MainCases.handler_calls.
Qed.

Lemma parse_opts_selects_command_witness :
  0 = 0 ∧
  Tool.CMD_CLEAN ≠ Tool.CMD_NONE ∧
  Tool.CMD_CLEAN ∈
    [Tool.CMD_GENERATE; Tool.CMD_CALCULATE; Tool.CMD_RESEAL;
     Tool.CMD_RECOVER; Tool.CMD_CLEAN] ∧
  Tool.switch Tool.CMD_CLEAN ≠ Tool.CaseDefault ∧
  ∀ T : Tool.tpm,
    Tool.main Double.fake_libs T ["tpm2-totp"; "-v"; "clean"]%string
      (Tool.start (None : Double.nv)) =
    (Tool.do_clean T (Tool.Opt Tool.CMD_CLEAN 0 None 0 1);; mret 0)
      (Tool.World (Tool.Opt Tool.CMD_CLEAN 0 None 0 1) EmptyString [] [] None) ∧
    ∃ n, (0 < n)%nat ∧
      Tool.w_calls
        (Tool.main Double.fake_libs T ["tpm2-totp"; "-v"; "clean"]%string
           (Tool.start (None : Double.nv))).2 =
      [] ++ take n [Tool.DeleteKey 0].
Proof.
  apply (parse_opts_selects_command Double.fake_libs
           ["tpm2-totp"; "-v"; "clean"]%string (Tool.start (None : Double.nv))
           (Tool.World (Tool.Opt Tool.CMD_CLEAN 0 None 0 1) EmptyString [] [] None) 0).
  vm_compute. reflexivity.
Defined.

(** C4 (help).  [-h] and [--help] are not recognised: [optstr] has no
    ['h'] and [long_options] no ["help"], so [getopt_long] writes its
    line to the error stream and returns ['?'], the [default] label runs,
    nothing is printed on the standard output, the usage text goes to the
    error stream and the status is 1. *)
Theorem help_flag_exits_1 {Dev : Type} (L : Tool.libs) (T : Tool.tpm) (t : Dev) :
  Tool.main L T ["tpm2-totp"; "-h"]%string (Tool.start t) =
    (Exit 1,
     Tool.World (Tool.Opt Tool.CMD_NONE 0 None 0 0) EmptyString
       [Tool.GetoptSays "tpm2-totp" (Getopt.InvalidOption "h");
        Tool.UnknownOptionAt 0; Tool.Text Tool.help] [] t) ∧
  Tool.main L T ["tpm2-totp"; "--help"]%string (Tool.start t) =
    (Exit 1,
     Tool.World (Tool.Opt Tool.CMD_NONE 0 None 0 0) EmptyString
       [Tool.GetoptSays "tpm2-totp" (Getopt.Unrecognized "help");
        Tool.UnknownOptionAt 0; Tool.Text Tool.help] [] t).
Proof.
  destruct L as [posix scan_x scan_i tm_null tm_text qr].
  destruct posix; split; reflexivity.
Qed.

(** C3 (storage index).  [-N] and [--nvindex] are recognised by
    [getopt_long], but the [switch] has no label ['N'] (the label that
    scans the index is ['e'], which is never returned), so the [default]
    label runs: the process leaves with status 1 before any call to the
    secure storage.  Without the option the index in [opt] is 0, and that
    is the index the calls are made with. *)
Theorem nvindex_option_rejected {Dev : Type} (L : Tool.libs) (T : Tool.tpm) (t : Dev) :
  Tool.main L T ["tpm2-totp"; "-N"; "0x018094AF"; "clean"]%string (Tool.start t) =
    (Exit 1,
     Tool.World (Tool.Opt Tool.CMD_NONE 0 None 0 0) EmptyString
       [Tool.UnknownOptionAt 0; Tool.Text Tool.help] [] t) ∧
  Tool.main L T ["tpm2-totp"; "--nvindex=25203887"; "clean"]%string (Tool.start t) =
    (Exit 1,
     Tool.World (Tool.Opt Tool.CMD_NONE 0 None 0 0) EmptyString
       [Tool.UnknownOptionAt 0; Tool.Text Tool.help] [] t) ∧
  Tool.w_calls
    (Tool.main L T ["tpm2-totp"; "clean"]%string (Tool.start t)).2 =
    [Tool.DeleteKey 0].
Proof.
  assert (Tool.parse_opts L ["tpm2-totp"; "clean"]%string (Tool.start t) =
          (Ok 0, Tool.World (Tool.Opt Tool.CMD_CLEAN 0 None 0 0)
                   EmptyString [] [] t)) as Hparse
    by (destruct L as [[] ? ? ? ? ?]; reflexivity).
  split; [destruct L as [[] ? ? ? ? ?]; reflexivity|].
  split; [destruct L as [[] ? ? ? ? ?]; reflexivity|].
  rewrite (MainProofs.main_after_parse L T _ _ _ Hparse).
  cbn [Tool.w_opt Tool.cmd Tool.switch Tool.run_branch].
  unfold Tool.do_clean, Tool.invoke, Tool.chkrc, mbind, Tool.M_bind.
  cbn [Tool.w_opt Tool.nvindex Tool.w_tpm].
  destruct (Tool.tpm2totp_deleteKey_nv T 0 t) as [rc t'].
  by destruct (rc =? Tool.TSS2_RC_SUCCESS).
Qed.

(** ** The command branches *)

(** C2.  The reseal command calls the secure storage in the order load,
    reseal, delete, store: the calls it makes are always an initial part
    of that sequence, all four when the first three succeed; and when the
    delete call fails the process leaves with status 1 having made the
    first three calls only, never the store. *)
Theorem reseal_call_order {Dev : Type} (L : Tool.libs) (T : Tool.tpm)
    (argv : list string) (w w1 : @Tool.world Dev)
    (rc1 rc2 rc3 : Z) (blob newBlob : list byte) (t1 t2 t3 : Dev) :
  Tool.parse_opts L argv w = (Ok 0, w1) →
  Tool.cmd (Tool.w_opt w1) = Tool.CMD_RESEAL →
  Tool.tpm2totp_loadKey_nv T (Tool.nvindex (Tool.w_opt w1)) (Tool.w_tpm w1)
    = ((rc1, blob), t1) →
  Tool.tpm2totp_reseal T blob (Tool.password (Tool.w_opt w1)) 0 0 t1
    = ((rc2, newBlob), t2) →
  Tool.tpm2totp_deleteKey_nv T (Tool.nvindex (Tool.w_opt w1)) t2 = (rc3, t3) →
  let nv := Tool.nvindex (Tool.w_opt w1) in
  let pw := Tool.password (Tool.w_opt w1) in
  let sequence :=
    [Tool.LoadKey nv; Tool.Reseal blob pw 0 0; Tool.DeleteKey nv;
     Tool.StoreKey newBlob nv] in
  let status := (Tool.main L T argv w).1 in
  let calls := Tool.w_calls (Tool.main L T argv w).2 in
  (∃ n, calls = Tool.w_calls w ++ take n sequence) ∧
  (rc1 = 0 → rc2 = 0 → rc3 = 0 → calls = Tool.w_calls w ++ sequence) ∧
  (rc1 = 0 → rc2 = 0 → rc3 ≠ 0 →
     status = Exit 1 ∧
     calls = Tool.w_calls w ++
               [Tool.LoadKey nv; Tool.Reseal blob pw 0 0; Tool.DeleteKey nv]).
Proof.
  intros Hparse Hcmd H1 H2 H3. cbv zeta.
  destruct (ParseProofs.parse_opts_spec L argv w _ _ Hparse) as ((_ & Hcalls & _) & _).
  rewrite (MainProofs.main_after_parse L T _ _ _ Hparse), Hcmd.
  cbn [Tool.switch Tool.run_branch].
  destruct (Tool.tpm2totp_storeKey_nv T newBlob (Tool.nvindex (Tool.w_opt w1)) t3)
    as [rc4 t4] eqn:H4.
  rewrite MainProofs.then_return.
  rewrite (MainProofs.do_reseal_spec T _ _ _ _ _ _ _ _ _ _ _ _ H1 H2 H3 H4).
  cbv zeta. rewrite <- Hcalls.
  split; [|split].
  - destruct (rc1 =? 0); cbn [negb fst snd Tool.w_calls];
      [|by exists 1%nat].
    destruct (rc2 =? 0); cbn [negb fst snd Tool.w_calls];
      [|by exists 2%nat].
    destruct (rc3 =? 0); cbn [negb fst snd Tool.w_calls];
      [|by exists 3%nat].
    destruct (rc4 =? 0); cbn [negb fst snd Tool.w_calls]; by exists 4%nat.
  - intros -> -> ->. cbn [Z.eqb negb].
    by destruct (rc4 =? 0).
  - intros -> -> Hrc3. cbn [Z.eqb negb].
    destruct (Z.eqb_spec rc3 0); [done|]. by cbn.
Qed.

Lemma reseal_call_order_witness :
  (Tool.main Double.fake_libs Double.stuck_tpm ["tpm2-totp"; "reseal"]%string
     (Tool.start (Some Double.blob1))).1 = Exit 1 ∧
  Tool.w_calls
    (Tool.main Double.fake_libs Double.stuck_tpm ["tpm2-totp"; "reseal"]%string
       (Tool.start (Some Double.blob1))).2 =
  [Tool.LoadKey 0; Tool.Reseal Double.blob1 None 0 0; Tool.DeleteKey 0].
Proof.
  refine (proj2 (proj2
    (reseal_call_order Double.fake_libs Double.stuck_tpm
       ["tpm2-totp"; "reseal"]%string (Tool.start (Some Double.blob1))
       (Tool.World (Tool.Opt Tool.CMD_RESEAL 0 None 0 0) EmptyString [] []
          (Some Double.blob1))
       0 0 5 Double.blob1 Double.blob2
       (Some Double.blob1) (Some Double.blob1) (Some Double.blob1)
       _ _ _ _ _)) _ _ _);
    first [reflexivity | discriminate].
Defined.

(** C9.  When the load and calculate calls succeed with a code below one
    million (and, with the time flag given, the local time can be
    formatted: [localtime] returns a time and its text is not empty and
    fits), the calculate command returns 0 and appends to the
    standard output the time stamp text exactly when the flag was given,
    followed by the six decimal digits of the code, zeros first, then
    nothing: no line break.  The output is a function of the flag, the
    time stamp and the code.  The code 42 is printed as ["000042"]. *)
Theorem calculate_output {Dev : Type} (L : Tool.libs) (T : Tool.tpm)
    (argv : list string) (w w1 : @Tool.world Dev)
    (blob : list byte) (now totp : Z) (t1 t2 : Dev) :
  Tool.parse_opts L argv w = (Ok 0, w1) →
  Tool.cmd (Tool.w_opt w1) = Tool.CMD_CALCULATE →
  Tool.tpm2totp_loadKey_nv T (Tool.nvindex (Tool.w_opt w1)) (Tool.w_tpm w1)
    = ((0, blob), t1) →
  Tool.tpm2totp_calculate T blob t1 = ((0, now, totp), t2) →
  0 ≤ totp < 1000000 →
  (Tool.time (Tool.w_opt w1) ≠ 0 →
   Tool.localtime_null L now = false ∧
   (0 < String.length (Tool.strftime_local L now) < 99)%nat) →
  let stamp :=
    if Tool.time (Tool.w_opt w1) =? 0 then EmptyString
    else Tool.strftime_local L now in
  (Tool.main L T argv w).1 = Ok 0 ∧
  Tool.w_out (Tool.main L T argv w).2 =
    (Tool.w_out w ++ stamp ++ Tool.six_digits totp)%string ∧
  (stamp = EmptyString ↔ Tool.time (Tool.w_opt w1) = 0) ∧
  String.length (Tool.six_digits totp) = 6%nat ∧
  Forall (λ c, code_of "0" ≤ c ≤ code_of "9")
    (chars_of_string (Tool.six_digits totp)) ∧
  Tool.fmt_06ld 42 = "000042"%string.
Proof.
  intros Hparse Hcmd H1 H2 Htotp Htime. cbv zeta.
  destruct (ParseProofs.parse_opts_spec L argv w _ _ Hparse) as ((Hout & _ & _) & _).
  rewrite (MainProofs.main_after_parse L T _ _ _ Hparse), Hcmd.
  cbn [Tool.switch Tool.run_branch].
  rewrite MainProofs.then_return.
  rewrite (MainProofs.do_calculate_spec L T _ _ _ _ _ _ _ H1 H2).
  cbv zeta. rewrite <- Hout, <- (MainProofs.fmt_06ld_six totp Htotp).
  split; [|split; [|split; [|split; [|split]]]].
  - destruct (Z.eqb_spec (Tool.time (Tool.w_opt w1)) 0) as [|Hne]; [done|].
    destruct (Htime Hne) as [Hnull Hlen].
    rewrite (MainProofs.strftime_ok L now Hnull).
    destruct (Z.leb_spec (Z.of_nat (String.length (Tool.strftime_local L now)) + 1) 99);
      [|lia].
    by destruct (Z.eqb_spec (Z.of_nat (String.length (Tool.strftime_local L now))) 0);
      [lia|].
  - destruct (Z.eqb_spec (Tool.time (Tool.w_opt w1)) 0) as [|Hne]; [done|].
    destruct (Htime Hne) as [Hnull Hlen].
    rewrite (MainProofs.strftime_ok L now Hnull).
    destruct (Z.leb_spec (Z.of_nat (String.length (Tool.strftime_local L now)) + 1) 99);
      [|lia].
    by destruct (Z.eqb_spec (Z.of_nat (String.length (Tool.strftime_local L now))) 0);
      [lia|].
  - destruct (Z.eqb_spec (Tool.time (Tool.w_opt w1)) 0) as [|Hne]; [done|].
    destruct (Htime Hne) as [Hnull Hlen]. split; [|done].
    intros Hs. rewrite Hs in Hlen. cbn in Hlen. lia.
  - by rewrite MainProofs.fmt_06ld_six.
  - rewrite MainProofs.fmt_06ld_six by done. apply MainProofs.six_digits_range. lia.
  - reflexivity.
Qed.

Lemma calculate_output_witness :
  (Tool.main Double.fake_libs (Double.fake_tpm 42)
     ["tpm2-totp"; "-t"; "calculate"]%string (Tool.start (Some Double.blob1))).1
    = Ok 0 ∧
  Tool.w_out
    (Tool.main Double.fake_libs (Double.fake_tpm 42)
       ["tpm2-totp"; "-t"; "calculate"]%string (Tool.start (Some Double.blob1))).2
    = "2018-01-01 00:00:00: 000042"%string.
Proof.
  pose proof
    (calculate_output Double.fake_libs (Double.fake_tpm 42)
       ["tpm2-totp"; "-t"; "calculate"]%string (Tool.start (Some Double.blob1))
       (Tool.World (Tool.Opt Tool.CMD_CALCULATE 0 None 1 0) EmptyString [] []
          (Some Double.blob1))
       Double.blob1 1514764800 42 (Some Double.blob1) (Some Double.blob1)
       eq_refl eq_refl eq_refl eq_refl
       ltac:(lia) ltac:(intros _; split; [reflexivity | vm_compute; lia]))
    as (H1 & H2 & _).
  split; [exact H1 | exact H2].
Defined.

(** * Further properties *)

(** X1.  On every non-empty input (of a size below [2^63], so that
    [size_t] arithmetic does not wrap) [base32enc] completes: every read
    of [in] is below [in_size], every access to [r] is inside the
    [out_size + 1] bytes allocated and reads a byte written before, and
    the loop ends. *)
Theorem base32enc_total_nonempty (l : list byte) :
  l ≠ [] →
  Z.of_nat (length l) < 2^63 →
  ∃ s, Base32.base32enc l (Z.of_nat (length l)) = Ok s.
Proof. intros. eexists. by apply Base32Post.base32enc_nonempty. Qed.

Lemma base32enc_total_nonempty_witness :
  ∃ s, Base32.base32enc [xff] (Z.of_nat (length [xff])) = Ok s.
Proof.
  apply (base32enc_total_nonempty [xff]); [discriminate | vm_compute; reflexivity].
Defined.

(** X2.  On every non-empty input the text [base32enc] returns has
    exactly [ceil(len/5) * 8] characters. *)
Theorem base32enc_length_nonempty (l : list byte) :
  l ≠ [] →
  Z.of_nat (length l) < 2^63 →
  ∃ s, Base32.base32enc l (Z.of_nat (length l)) = Ok s ∧
       String.length s = (8 * ((length l + 4) / 5))%nat.
Proof.
  intros. eexists. split; [by apply Base32Post.base32enc_nonempty|].
  by rewrite Base32Rfc.string_of_chars_length, Base32Post.enc_chars_length.
Qed.

Lemma base32enc_length_nonempty_witness :
  ∃ s, Base32.base32enc [x01; x02; x03; x04; x05; x06]
         (Z.of_nat (length [x01; x02; x03; x04; x05; x06])) = Ok s ∧
       String.length s = (8 * ((length [x01; x02; x03; x04; x05; x06] + 4) / 5))%nat.
Proof.
  apply (base32enc_length_nonempty [x01; x02; x03; x04; x05; x06]);
    [discriminate | vm_compute; reflexivity].
Defined.

(** X3.  Whatever the arguments, [parse_opts] ends in one of two ways: it
    returns 0, or it calls [exit(1)]; it never calls [exit(0)], never
    writes to the standard output, makes no secure-storage call, and
    leaves [opt.nvindex] at 0.  (The labels ['h'] and ['e'] of its
    [switch] are never selected.) *)
Theorem parse_opts_outcomes {Dev : Type}
    (L : Tool.libs) (argv : list string) (w : @Tool.world Dev) :
  ((Tool.parse_opts L argv w).1 = Ok 0 ∨ (Tool.parse_opts L argv w).1 = Exit 1) ∧
  Tool.w_out (Tool.parse_opts L argv w).2 = Tool.w_out w ∧
  Tool.w_calls (Tool.parse_opts L argv w).2 = Tool.w_calls w ∧
  Tool.nvindex (Tool.w_opt (Tool.parse_opts L argv w).2) = 0.
Proof.
  destruct (Tool.parse_opts L argv w) as [r w'] eqn:H.
  destruct (ParseProofs.parse_opts_spec L argv w r w' H)
    as ((Hout & Hcalls & _) & Hnv & Hr).
  cbn [fst snd]. repeat split; try done. tauto.
Qed.

(** X4.  The clean command makes one call, delete at [opt.nvindex]; when
    it fails the process leaves with status 1 without a further call,
    otherwise [main] returns 0. *)
Theorem clean_calls {Dev : Type} (L : Tool.libs) (T : Tool.tpm)
    (argv : list string) (w w1 : @Tool.world Dev) (rc : Z) (t1 : Dev) :
  Tool.parse_opts L argv w = (Ok 0, w1) →
  Tool.cmd (Tool.w_opt w1) = Tool.CMD_CLEAN →
  Tool.tpm2totp_deleteKey_nv T (Tool.nvindex (Tool.w_opt w1)) (Tool.w_tpm w1)
    = (rc, t1) →
  (Tool.main L T argv w).1 = (if rc =? 0 then Ok 0 else Exit 1) ∧
  Tool.w_calls (Tool.main L T argv w).2 =
    Tool.w_calls w ++ [Tool.DeleteKey (Tool.nvindex (Tool.w_opt w1))] ∧
  Tool.w_out (Tool.main L T argv w).2 = Tool.w_out w.
Proof.
  intros Hparse Hcmd Hdel.
  destruct (ParseProofs.parse_opts_spec L argv w _ _ Hparse)
    as ((Hout & Hcalls & _) & _).
  rewrite (MainProofs.main_after_parse L T _ _ _ Hparse), Hcmd.
  cbn [Tool.switch Tool.run_branch].
  rewrite MainProofs.then_return, (MainProofs.do_clean_spec T _ _ _ _ Hdel).
  rewrite <- Hout, <- Hcalls. by destruct (rc =? 0).
Qed.

Lemma clean_calls_witness :
  (Tool.main Double.fake_libs (Double.fake_tpm 0) ["tpm2-totp"; "clean"]%string
     (Tool.start None)).1 = Exit 1 ∧
  Tool.w_calls
    (Tool.main Double.fake_libs (Double.fake_tpm 0) ["tpm2-totp"; "clean"]%string
       (Tool.start None)).2 = [Tool.DeleteKey 0] ∧
  Tool.w_out
    (Tool.main Double.fake_libs (Double.fake_tpm 0) ["tpm2-totp"; "clean"]%string
       (Tool.start None)).2 = EmptyString.
Proof.
  exact (clean_calls Double.fake_libs (Double.fake_tpm 0)
           ["tpm2-totp"; "clean"]%string (Tool.start None)
           (Tool.World (Tool.Opt Tool.CMD_CLEAN 0 None 0 0) EmptyString [] [] None)
           1 None eq_refl eq_refl eq_refl).
Defined.

(** X5.  When key generation and the store succeed, the generate command
    calls generate then store, and prints the picture of the QR matrix of
    the URL, an empty line, and the URL: the fixed prefix followed by the
    RFC 4648 base32 text of the secret and nothing else. *)
Theorem generate_output {Dev : Type} (L : Tool.libs) (T : Tool.tpm)
    (argv : list string) (w w1 : @Tool.world Dev)
    (secret keyBlob : list byte) (t1 t2 : Dev) (q : Qr.QRcode) :
  Tool.parse_opts L argv w = (Ok 0, w1) →
  Tool.cmd (Tool.w_opt w1) = Tool.CMD_GENERATE →
  Tool.tpm2totp_generateKey T 0 0 (Tool.password (Tool.w_opt w1)) (Tool.w_tpm w1)
    = ((0, secret, keyBlob), t1) →
  Tool.tpm2totp_storeKey_nv T keyBlob (Tool.nvindex (Tool.w_opt w1)) t1 = (0, t2) →
  secret ≠ [] →
  Z.of_nat (length secret) < 2^63 →
  Tool.QRcode_encodeString L
    (Tool.URL_PREFIX ++ Base32Spec.rfc4648_base32 secret) = Some q →
  1 ≤ Qr.width q ≤ 46340 →
  length (Qr.data q) = Z.to_nat (Qr.width q * Qr.width q) →
  (Tool.main L T argv w).1 = Ok 0 ∧
  Tool.w_out (Tool.main L T argv w).2 =
    (Tool.w_out w ++ Qr.picture q ++ Qr.LF ++
     Tool.URL_PREFIX ++ Base32Spec.rfc4648_base32 secret ++ Qr.LF)%string ∧
  Tool.w_calls (Tool.main L T argv w).2 =
    Tool.w_calls w ++
    [Tool.GenerateKey 0 0 (Tool.password (Tool.w_opt w1));
     Tool.StoreKey keyBlob (Tool.nvindex (Tool.w_opt w1))].
Proof.
  intros Hparse Hcmd H1 H2 Hne Hsz Hq Hw Hdata.
  destruct (ParseProofs.parse_opts_spec L argv w _ _ Hparse)
    as ((Hout & Hcalls & _) & _).
  rewrite (MainProofs.main_after_parse L T _ _ _ Hparse), Hcmd.
  cbn [Tool.switch Tool.run_branch].
  rewrite MainProofs.then_return.
  rewrite (MainProofs.do_generate_spec L T _ _ _ _ _ _ _ H1 H2 Hne Hsz Hq Hw Hdata).
  by rewrite <- Hout, <- Hcalls.
Qed.

Lemma generate_output_witness :
  (Tool.main Double.fake_libs (Double.fake_tpm 0) ["tpm2-totp"; "generate"]%string
     (Tool.start None)).1 = Ok 0 ∧
  Tool.w_out
    (Tool.main Double.fake_libs (Double.fake_tpm 0) ["tpm2-totp"; "generate"]%string
       (Tool.start None)).2 =
    (Qr.picture {| Qr.version := 1; Qr.width := 1; Qr.data := [1] |} ++ Qr.LF ++
     "otpauth://totp/TPM2-TOTP?secret=AAAAAAAA" ++ Qr.LF)%string ∧
  Tool.w_calls
    (Tool.main Double.fake_libs (Double.fake_tpm 0) ["tpm2-totp"; "generate"]%string
       (Tool.start None)).2 =
    [Tool.GenerateKey 0 0 None; Tool.StoreKey Double.blob1 0].
Proof.
  refine (generate_output Double.fake_libs (Double.fake_tpm 0)
            ["tpm2-totp"; "generate"]%string (Tool.start None)
            (Tool.World (Tool.Opt Tool.CMD_GENERATE 0 None 0 0) EmptyString [] [] None)
            Double.secret5 Double.blob1 None (Some Double.blob1)
            {| Qr.version := 1; Qr.width := 1; Qr.data := [1] |}
            eq_refl eq_refl eq_refl eq_refl _ _ eq_refl _ eq_refl);
    [discriminate | vm_compute; reflexivity | cbn; lia].
Defined.

(** X6.  When the load and the unsealing succeed, the secret recovered is
    not empty, and the QR encoder returns a matrix of a width from 1 to
    46340 with its [width * width] modules, the recover command calls load
    then unseal, and prints the picture of the matrix, an empty line, and
    the URL: the fixed prefix followed by the RFC 4648 base32 text of the
    secret and nothing else. *)
Theorem recover_output {Dev : Type} (L : Tool.libs) (T : Tool.tpm)
    (argv : list string) (w w1 : @Tool.world Dev)
    (secret keyBlob : list byte) (t1 t2 : Dev) (q : Qr.QRcode) :
  Tool.parse_opts L argv w = (Ok 0, w1) →
  Tool.cmd (Tool.w_opt w1) = Tool.CMD_RECOVER →
  Tool.tpm2totp_loadKey_nv T (Tool.nvindex (Tool.w_opt w1)) (Tool.w_tpm w1)
    = ((0, keyBlob), t1) →
  Tool.tpm2totp_getSecret T keyBlob (Tool.password (Tool.w_opt w1)) t1
    = ((0, secret), t2) →
  secret ≠ [] →
  Z.of_nat (length secret) < 2^63 →
  Tool.QRcode_encodeString L
    (Tool.URL_PREFIX ++ Base32Spec.rfc4648_base32 secret) = Some q →
  1 ≤ Qr.width q ≤ 46340 →
  length (Qr.data q) = Z.to_nat (Qr.width q * Qr.width q) →
  (Tool.main L T argv w).1 = Ok 0 ∧
  Tool.w_out (Tool.main L T argv w).2 =
    (Tool.w_out w ++ Qr.picture q ++ Qr.LF ++
     Tool.URL_PREFIX ++ Base32Spec.rfc4648_base32 secret ++ Qr.LF)%string ∧
  Tool.w_calls (Tool.main L T argv w).2 =
    Tool.w_calls w ++
    [Tool.LoadKey (Tool.nvindex (Tool.w_opt w1));
     Tool.GetSecret keyBlob (Tool.password (Tool.w_opt w1))].
Proof.
  intros Hparse Hcmd H1 H2 Hne Hsz Hq Hw Hdata.
  destruct (ParseProofs.parse_opts_spec L argv w _ _ Hparse)
    as ((Hout & Hcalls & _) & _).
  rewrite (MainProofs.main_after_parse L T _ _ _ Hparse), Hcmd.
  cbn [Tool.switch Tool.run_branch].
  rewrite MainProofs.then_return.
  rewrite (MainProofs.do_recover_spec L T _ _ _ _ _ _ _ H1 H2 Hne Hsz Hq Hw Hdata).
  by rewrite <- Hout, <- Hcalls.
Qed.

Lemma recover_output_witness :
  (Tool.main Double.fake_libs (Double.fake_tpm 0)
     ["tpm2-totp"; "recover"; "-P"; "pw"]%string (Tool.start (Some Double.blob1))).1
    = Ok 0 ∧
  Tool.w_out
    (Tool.main Double.fake_libs (Double.fake_tpm 0)
       ["tpm2-totp"; "recover"; "-P"; "pw"]%string (Tool.start (Some Double.blob1))).2 =
    (Qr.picture {| Qr.version := 1; Qr.width := 1; Qr.data := [1] |} ++ Qr.LF ++
     "otpauth://totp/TPM2-TOTP?secret=AAAAAAAA" ++ Qr.LF)%string ∧
  Tool.w_calls
    (Tool.main Double.fake_libs (Double.fake_tpm 0)
       ["tpm2-totp"; "recover"; "-P"; "pw"]%string (Tool.start (Some Double.blob1))).2 =
    [Tool.LoadKey 0; Tool.GetSecret Double.blob1 (Some "pw"%string)].
Proof.
  refine (recover_output Double.fake_libs (Double.fake_tpm 0)
            ["tpm2-totp"; "recover"; "-P"; "pw"]%string (Tool.start (Some Double.blob1))
            (Tool.World (Tool.Opt Tool.CMD_RECOVER 0 (Some "pw"%string) 0 0)
               EmptyString [] [] (Some Double.blob1))
            Double.secret5 Double.blob1 (Some Double.blob1) (Some Double.blob1)
            {| Qr.version := 1; Qr.width := 1; Qr.data := [1] |}
            eq_refl eq_refl eq_refl eq_refl _ _ eq_refl _ eq_refl);
    [discriminate | vm_compute; reflexivity | cbn; lia].
Defined.

(** X7.  For a matrix of width [w] the text [qrencode] returns has exactly
    [w + 2] lines: a margin line, one line per row, a margin line; and it
    is the picture in which a module is dark exactly when bit 0 of its
    byte is set. *)
Theorem qrencode_lines (q : Qr.QRcode) :
  1 ≤ Qr.width q ≤ 46340 →
  length (Qr.data q) = Z.to_nat (Qr.width q * Qr.width q) →
  Qr.qrencode_text q = Ok (Qr.picture q) ∧
  Z.of_nat (Qr.line_breaks (Qr.picture q)) = Qr.width q + 2.
Proof.
  intros Hw Hdata. split; [by apply QrProofs.qrencode_text_spec|].
  rewrite QrProofs.line_breaks_picture. lia.
Qed.

Lemma qrencode_lines_witness :
  Qr.qrencode_text {| Qr.version := 1; Qr.width := 2; Qr.data := [0; 1; 1; 0] |} =
    Ok (Qr.picture {| Qr.version := 1; Qr.width := 2; Qr.data := [0; 1; 1; 0] |}) ∧
  Z.of_nat (Qr.line_breaks
              (Qr.picture {| Qr.version := 1; Qr.width := 2; Qr.data := [0; 1; 1; 0] |}))
    = 2 + 2.
Proof.
  apply (qrencode_lines {| Qr.version := 1; Qr.width := 2; Qr.data := [0; 1; 1; 0] |});
    [cbn; lia | reflexivity].
Defined.

(** ** More on [parse_opts] *)

(** X8.  [parse_opts] returns exactly when every option [getopt_long]
    reports is ['P'], ['t'] or ['v'] and precisely one argument is left
    that is, letter for letter, one of the five command words; in every
    other case it leaves the process, with status 1.  This holds in
    either mode of [getopt_long], with [POSIXLY_CORRECT] set or not. *)
Theorem parse_opts_returns_iff {Dev : Type}
    (L : Tool.libs) (argv : list string) (w : @Tool.world Dev) :
  ((Tool.parse_opts L argv w).1 = Ok 0 ↔
   forallb Summary.accepted
     (Getopt.getopt_long (Tool.posixly_correct L) argv Tool.optstr
        Tool.long_options).1 = true ∧
   ∃ arg c,
     (Getopt.getopt_long (Tool.posixly_correct L) argv Tool.optstr
        Tool.long_options).2 = [arg] ∧
     Summary.command_of arg = Some c) ∧
  ((Tool.parse_opts L argv w).1 ≠ Ok 0 →
   (Tool.parse_opts L argv w).1 = Exit 1).
Proof.
  destruct (ParseCases.parse_opts_outcome L argv w)
    as [(arg & c & Hno & Hacc & Hc & Hrun)|(Hnot & o & m & _ & Hrun)];
    rewrite Hrun; cbn [fst].
  - split; [|done]. split; [|done]. intros _. split; [done|]. by exists arg, c.
  - split; [|done]. split; [discriminate|]. intros H. by destruct Hnot.
Qed.

(** X9.  When [parse_opts] returns, [opt.cmd] is the command the remaining
    word names, [opt.password] the argument of the last [-P]/[--password]
    (null without one), [opt.time] and [opt.verbose] are 1 exactly when
    [-t]/[--time] and [-v]/[--verbose] were given and 0 otherwise, and
    nothing has been written to the error stream. *)
Theorem parse_opts_options {Dev : Type}
    (L : Tool.libs) (argv : list string) (w w' : @Tool.world Dev) (rc : Z) :
  Tool.parse_opts L argv w = (Ok rc, w') →
  let rs :=
    (Getopt.getopt_long (Tool.posixly_correct L) argv Tool.optstr
       Tool.long_options).1 in
  (∃ arg,
     (Getopt.getopt_long (Tool.posixly_correct L) argv Tool.optstr
        Tool.long_options).2 = [arg] ∧
     Summary.command_of arg = Some (Tool.cmd (Tool.w_opt w'))) ∧
  Tool.password (Tool.w_opt w') = Summary.last_password None rs ∧
  Tool.time (Tool.w_opt w') = Summary.flag "t" rs ∧
  Tool.verbose (Tool.w_opt w') = Summary.flag "v" rs ∧
  Tool.w_err w' = Tool.w_err w.
Proof.
  intros H. cbv zeta.
  destruct (ParseCases.parse_opts_outcome L argv w)
    as [(arg & c & Hno & Hacc & Hc & Hrun)|(_ & o & m & _ & Hrun)];
    rewrite Hrun in H; [|discriminate].
  injection H as <- <-. cbn [Tool.w_opt Tool.w_err Tool.cmd Tool.password
                             Tool.time Tool.verbose].
  split; [by exists arg|done].
Qed.

Lemma parse_opts_options_witness :
  (∃ arg, ["recover"]%string = [arg] ∧
          Summary.command_of arg = Some Tool.CMD_RECOVER) ∧
  Some "b"%string =
    Summary.last_password None
      (Getopt.getopt_long false
         ["tpm2-totp"; "-P"; "a"; "recover"; "--password=b"; "-t"]%string
         Tool.optstr Tool.long_options).1 ∧
  1 = Summary.flag "t"
        (Getopt.getopt_long false
         ["tpm2-totp"; "-P"; "a"; "recover"; "--password=b"; "-t"]%string
           Tool.optstr Tool.long_options).1 ∧
  0 = Summary.flag "v"
        (Getopt.getopt_long false
         ["tpm2-totp"; "-P"; "a"; "recover"; "--password=b"; "-t"]%string
           Tool.optstr Tool.long_options).1 ∧
  @nil Tool.message = [].
Proof.
  exact (parse_opts_options Double.fake_libs
           ["tpm2-totp"; "-P"; "a"; "recover"; "--password=b"; "-t"]%string
           (Tool.start (None : Double.nv))
           (Tool.World (Tool.Opt Tool.CMD_RECOVER 0 (Some "b"%string) 1 0)
              EmptyString [] [] None)
           0 eq_refl).
Defined.



(** ** More on [main] *)

(** X11.  Whatever the arguments and whatever the secure storage and the
    libraries do, a run of [main] that returns returns 0 and has written
    nothing to the error stream, and a run that leaves through [exit]
    leaves with status 1, has written at least one message to the error
    stream and nothing to the standard output: output is only produced by
    runs that succeed. *)
Theorem main_exit_discipline {Dev : Type} (L : Tool.libs) (T : Tool.tpm)
    (argv : list string) (w : @Tool.world Dev) :
  let '(r, w') := Tool.main L T argv w in
  match r with
  | Ok v => v = 0 ∧ Tool.w_err w' = Tool.w_err w
  | Exit s =>
      s = 1 ∧ Tool.w_out w' = Tool.w_out w ∧
      ∃ m errs, Tool.w_err w' = Tool.w_err w ++ m :: errs
  | Fault _ => True
  end.
Proof.
  destruct (Tool.main L T argv w) as [r w'] eqn:Hrun.
  destruct (MainCases.main_outcome L T argv w w' r Hrun)
    as (calls & errs & _ & Herrs & _ & Hr).
  destruct r as [v|s|e]; [| |done].
  - destruct Hr as (-> & ->). by rewrite app_nil_r in Herrs.
  - destruct Hr as (-> & Hout & Hne). repeat split; [done|].
    destruct errs as [|m errs]; [done|]. by exists m, errs.
Qed.

(** X12.  Every call [main] makes to the secure storage that names an NV
    index names index 0 ([opt.nvindex] is never anything else, whatever
    the usage text says about a default), every call that takes a PCR
    selection and a bank selection is given [0x00] for both, and every
    call that takes a password is given the argument of the last
    [-P]/[--password] option, null without one. *)
Theorem main_call_arguments {Dev : Type} (L : Tool.libs) (T : Tool.tpm)
    (argv : list string) (w : @Tool.world Dev) :
  ∃ calls,
    Tool.w_calls (Tool.main L T argv w).2 = Tool.w_calls w ++ calls ∧
    Forall
      (λ c,
         (∀ nv, Summary.call_nv c = Some nv → nv = 0) ∧
         (∀ p, Summary.call_pcrs c = Some p → p = (0, 0)) ∧
         (∀ pw, Summary.call_pw c = Some pw →
                pw = Summary.last_password None
                       (Getopt.getopt_long (Tool.posixly_correct L) argv
                          Tool.optstr Tool.long_options).1))
      calls.
Proof.
  destruct (Tool.main L T argv w) as [r w'] eqn:Hrun.
  destruct (MainCases.main_outcome L T argv w w' r Hrun)
    as (calls & errs & Hcalls & _ & Huses & _).
  exists calls. split; [done|]. exact Huses.
Qed.

(** X13.  The generate command stops at the first step that fails, with
    status 1 and nothing on the standard output.  When key generation
    fails nothing is stored; when the store fails the secret is not shown;
    and when the QR encoder returns null, the key is already stored and
    the process leaves with the message ["QRcode failed."] without a line
    break, the secret never having been shown. *)
Theorem generate_failures {Dev : Type} (L : Tool.libs) (T : Tool.tpm)
    (argv : list string) (w w1 : @Tool.world Dev)
    (rc1 rc2 : Z) (secret keyBlob : list byte) (t1 t2 : Dev) :
  Tool.parse_opts L argv w = (Ok 0, w1) →
  Tool.cmd (Tool.w_opt w1) = Tool.CMD_GENERATE →
  Tool.tpm2totp_generateKey T 0 0 (Tool.password (Tool.w_opt w1)) (Tool.w_tpm w1)
    = ((rc1, secret, keyBlob), t1) →
  Tool.tpm2totp_storeKey_nv T keyBlob (Tool.nvindex (Tool.w_opt w1)) t1
    = (rc2, t2) →
  let generate := Tool.GenerateKey 0 0 (Tool.password (Tool.w_opt w1)) in
  let store := Tool.StoreKey keyBlob (Tool.nvindex (Tool.w_opt w1)) in
  let left errs calls t :=
    (Exit 1,
     Tool.World (Tool.w_opt w1) (Tool.w_out w) (Tool.w_err w ++ errs)
       (Tool.w_calls w ++ calls) t) in
  (rc1 ≠ 0 →
   Tool.main L T argv w = left [Tool.ErrorIn 232 rc1] [generate] t1) ∧
  (rc1 = 0 → rc2 ≠ 0 →
   Tool.main L T argv w = left [Tool.ErrorIn 236 rc2] [generate; store] t2) ∧
  (rc1 = 0 → rc2 = 0 →
   secret ≠ [] → Z.of_nat (length secret) < 2^63 →
   Tool.QRcode_encodeString L
     (Tool.URL_PREFIX ++ Base32Spec.rfc4648_base32 secret) = None →
   Tool.main L T argv w =
   left [Tool.Text "QRcode failed."] [generate; store] t2).
Proof.
  intros Hparse Hcmd H1 H2. cbv zeta.
  destruct (MainCases.parse_opts_frame L argv w w1 0 Hparse)
    as (Hout & Herr & Hcalls & _).
  rewrite (MainProofs.main_after_parse L T _ _ _ Hparse), Hcmd.
  cbn [Tool.switch Tool.run_branch].
  rewrite MainProofs.then_return, (MainCases.do_generate_full L T _ _ _ _ _ _ _ _ H1 H2).
  cbv zeta. rewrite Hout, Hcalls, Herr.
  split; [|split].
  - intros Hrc. by destruct (Z.eqb_spec rc1 0).
  - intros -> Hrc. cbn [Z.eqb negb]. by destruct (Z.eqb_spec rc2 0).
  - intros -> -> Hne Hsz Hq. cbn [Z.eqb negb].
    unfold Tool.show_secret, Tool.lift, Tool.qrencode, mbind, Tool.M_bind.
    rewrite Base32Post.base32enc_nonempty, Base32Rfc.enc_chars_rfc by done.
    rewrite Hq. unfold Tool.ERR, Tool.exit.
    cbn [Tool.w_opt Tool.w_out Tool.w_err Tool.w_calls Tool.w_tpm].
    by rewrite app_nil_r.
Qed.

Lemma generate_failures_witness :
  Tool.main Double.no_qr_libs (Double.fake_tpm 0) ["tpm2-totp"; "generate"]%string
    (Tool.start None) =
  (Exit 1,
   Tool.World (Tool.Opt Tool.CMD_GENERATE 0 None 0 0) EmptyString
     [Tool.Text "QRcode failed."]
     [Tool.GenerateKey 0 0 None; Tool.StoreKey Double.blob1 0]
     (Some Double.blob1)).
Proof.
  refine (proj2 (proj2
    (generate_failures Double.no_qr_libs (Double.fake_tpm 0)
       ["tpm2-totp"; "generate"]%string (Tool.start None)
       (Tool.World (Tool.Opt Tool.CMD_GENERATE 0 None 0 0) EmptyString [] [] None)
       0 0 Double.secret5 Double.blob1 None (Some Double.blob1)
       _ _ _ _)) _ _ _ _ _);
    first [reflexivity | discriminate | vm_compute; reflexivity].
Defined.

(** X14.  The calculate command stops at the first step that fails, with
    status 1 and nothing on the standard output: after the load alone when
    the load fails, after load and calculate when the calculation fails,
    and, with the time flag given, when [strftime] returns 0 (the time
    stamp is empty or does not fit in 99 bytes) the code is not printed
    although it was calculated, the diagnostic carrying the value 1.
    When [localtime] returns a null pointer the run does not come that
    far: [strftime] reads through the pointer, after both calls and
    before anything is printed. *)
Theorem calculate_failures {Dev : Type} (L : Tool.libs) (T : Tool.tpm)
    (argv : list string) (w w1 : @Tool.world Dev)
    (rc1 rc2 : Z) (blob : list byte) (now totp : Z) (t1 t2 : Dev) :
  Tool.parse_opts L argv w = (Ok 0, w1) →
  Tool.cmd (Tool.w_opt w1) = Tool.CMD_CALCULATE →
  Tool.tpm2totp_loadKey_nv T (Tool.nvindex (Tool.w_opt w1)) (Tool.w_tpm w1)
    = ((rc1, blob), t1) →
  Tool.tpm2totp_calculate T blob t1 = ((rc2, now, totp), t2) →
  let load := Tool.LoadKey (Tool.nvindex (Tool.w_opt w1)) in
  let calculate := Tool.Calculate blob in
  let left errs calls t :=
    (Exit 1,
     Tool.World (Tool.w_opt w1) (Tool.w_out w) (Tool.w_err w ++ errs)
       (Tool.w_calls w ++ calls) t) in
  (rc1 ≠ 0 →
   Tool.main L T argv w = left [Tool.ErrorIn 252 rc1] [load] t1) ∧
  (rc1 = 0 → rc2 ≠ 0 →
   Tool.main L T argv w = left [Tool.ErrorIn 256 rc2] [load; calculate] t2) ∧
  (rc1 = 0 → rc2 = 0 → Tool.time (Tool.w_opt w1) ≠ 0 →
   Tool.localtime_null L now = false →
   (Tool.strftime_local L now = EmptyString ∨
    (99 ≤ String.length (Tool.strftime_local L now))%nat) →
   Tool.main L T argv w = left [Tool.ErrorIn 260 1] [load; calculate] t2) ∧
  (rc1 = 0 → rc2 = 0 → Tool.time (Tool.w_opt w1) ≠ 0 →
   Tool.localtime_null L now = true →
   Tool.main L T argv w =
   (Fault NullPointer,
    Tool.World (Tool.w_opt w1) (Tool.w_out w) (Tool.w_err w)
      (Tool.w_calls w ++ [load; calculate]) t2)).
Proof.
  intros Hparse Hcmd H1 H2. cbv zeta.
  destruct (MainCases.parse_opts_frame L argv w w1 0 Hparse)
    as (Hout & Herr & Hcalls & _).
  rewrite (MainProofs.main_after_parse L T _ _ _ Hparse), Hcmd.
  cbn [Tool.switch Tool.run_branch].
  rewrite MainProofs.then_return,
    (MainCases.do_calculate_full L T _ _ _ _ _ _ _ _ _ H1 H2).
  cbv zeta. rewrite Hout, Hcalls, Herr, QrProofs.append_nil_r.
  split; [|split; [|split]].
  - intros Hrc. by destruct (Z.eqb_spec rc1 0).
  - intros -> Hrc. cbn [Z.eqb negb]. by destruct (Z.eqb_spec rc2 0).
  - intros -> -> Htime Hnull Hclock. cbn [Z.eqb negb].
    destruct (Z.eqb_spec (Tool.time (Tool.w_opt w1)) 0); [done|].
    rewrite (MainProofs.strftime_ok L now Hnull).
    destruct (Z.leb_spec
                (Z.of_nat (String.length (Tool.strftime_local L now)) + 1) 99);
      [|done].
    destruct Hclock as [->|?]; [done|lia].
  - intros -> -> Htime Hnull. cbn [Z.eqb negb].
    destruct (Z.eqb_spec (Tool.time (Tool.w_opt w1)) 0); [done|].
    unfold Tool.strftime. rewrite Hnull. by rewrite app_nil_r.
Qed.

Lemma calculate_failures_witness :
  Tool.main Double.blank_clock_libs (Double.fake_tpm 42)
    ["tpm2-totp"; "-t"; "calculate"]%string (Tool.start (Some Double.blob1)) =
  (Exit 1,
   Tool.World (Tool.Opt Tool.CMD_CALCULATE 0 None 1 0) EmptyString
     [Tool.ErrorIn 260 1]
     [Tool.LoadKey 0; Tool.Calculate Double.blob1]
     (Some Double.blob1)).
Proof.
  refine (proj1 (proj2 (proj2
    (calculate_failures Double.blank_clock_libs (Double.fake_tpm 42)
       ["tpm2-totp"; "-t"; "calculate"]%string (Tool.start (Some Double.blob1))
       (Tool.World (Tool.Opt Tool.CMD_CALCULATE 0 None 1 0) EmptyString [] []
          (Some Double.blob1))
       0 0 Double.blob1 1514764800 42 (Some Double.blob1) (Some Double.blob1)
       _ _ _ _))) _ _ _ _ _);
    first [reflexivity | discriminate | by left].
Defined.

(** X15.  The recover command stops at the first step that fails, with
    status 1 and nothing on the standard output: after the load alone when
    the load fails, after load and unsealing when the unsealing fails, and
    after both calls with the message ["QRcode failed."] when the QR
    encoder returns null.  It never deletes or stores a key. *)
Theorem recover_failures {Dev : Type} (L : Tool.libs) (T : Tool.tpm)
    (argv : list string) (w w1 : @Tool.world Dev)
    (rc1 rc2 : Z) (secret keyBlob : list byte) (t1 t2 : Dev) :
  Tool.parse_opts L argv w = (Ok 0, w1) →
  Tool.cmd (Tool.w_opt w1) = Tool.CMD_RECOVER →
  Tool.tpm2totp_loadKey_nv T (Tool.nvindex (Tool.w_opt w1)) (Tool.w_tpm w1)
    = ((rc1, keyBlob), t1) →
  Tool.tpm2totp_getSecret T keyBlob (Tool.password (Tool.w_opt w1)) t1
    = ((rc2, secret), t2) →
  let load := Tool.LoadKey (Tool.nvindex (Tool.w_opt w1)) in
  let unseal := Tool.GetSecret keyBlob (Tool.password (Tool.w_opt w1)) in
  let left errs calls t :=
    (Exit 1,
     Tool.World (Tool.w_opt w1) (Tool.w_out w) (Tool.w_err w ++ errs)
       (Tool.w_calls w ++ calls) t) in
  (rc1 ≠ 0 →
   Tool.main L T argv w = left [Tool.ErrorIn 283 rc1] [load] t1) ∧
  (rc1 = 0 → rc2 ≠ 0 →
   Tool.main L T argv w = left [Tool.ErrorIn 288 rc2] [load; unseal] t2) ∧
  (rc1 = 0 → rc2 = 0 →
   secret ≠ [] → Z.of_nat (length secret) < 2^63 →
   Tool.QRcode_encodeString L
     (Tool.URL_PREFIX ++ Base32Spec.rfc4648_base32 secret) = None →
   Tool.main L T argv w =
   left [Tool.Text "QRcode failed."] [load; unseal] t2) ∧
  Forall (λ c, ∀ nv blob, c ≠ Tool.DeleteKey nv ∧ c ≠ Tool.StoreKey blob nv)
    (drop (length (Tool.w_calls w)) (Tool.w_calls (Tool.main L T argv w).2)).
Proof.
  intros Hparse Hcmd H1 H2. cbv zeta.
  destruct (MainCases.parse_opts_frame L argv w w1 0 Hparse)
    as (Hout & Herr & Hcalls & _).
  rewrite (MainProofs.main_after_parse L T _ _ _ Hparse), Hcmd.
  cbn [Tool.switch Tool.run_branch].
  rewrite MainProofs.then_return, (MainCases.do_recover_full L T _ _ _ _ _ _ _ _ H1 H2).
  cbv zeta. rewrite Hout, Hcalls, Herr.
  split; [|split; [|split]].
  - intros Hrc. by destruct (Z.eqb_spec rc1 0).
  - intros -> Hrc. cbn [Z.eqb negb]. by destruct (Z.eqb_spec rc2 0).
  - intros -> -> Hne Hsz Hq. cbn [Z.eqb negb].
    unfold Tool.show_secret, Tool.lift, Tool.qrencode, mbind, Tool.M_bind.
    rewrite Base32Post.base32enc_nonempty, Base32Rfc.enc_chars_rfc by done.
    rewrite Hq. unfold Tool.ERR, Tool.exit.
    cbn [Tool.w_opt Tool.w_out Tool.w_err Tool.w_calls Tool.w_tpm].
    by rewrite app_nil_r.
  - destruct (rc1 =? 0); cbn [negb].
    2: { cbn [snd Tool.w_calls]. rewrite drop_app_length.
         by repeat constructor. }
    destruct (rc2 =? 0); cbn [negb].
    2: { cbn [snd Tool.w_calls]. rewrite drop_app_length.
         by repeat constructor. }
    destruct (Tool.show_secret L secret _) as [r w'] eqn:Hs.
    destruct (MainCases.show_secret_cases L _ _ _ _ Hs) as (_ & Hc & _).
    cbn [Tool.w_calls] in Hc.
    assert (Tool.w_calls
              (match r with
               | Ok _ => (Ok 0, w')
               | Exit s => (Exit s, w')
               | Fault e => (Fault e, w')
               end).2 = Tool.w_calls w') as -> by (by destruct r).
    rewrite Hc, drop_app_length. by repeat constructor.
Qed.

Lemma recover_failures_witness :
  Tool.main Double.fake_libs (Double.fake_tpm 0) ["tpm2-totp"; "recover"]%string
    (Tool.start None) =
  (Exit 1,
   Tool.World (Tool.Opt Tool.CMD_RECOVER 0 None 0 0) EmptyString
     [Tool.ErrorIn 283 1] [Tool.LoadKey 0] None).
Proof.
  refine (proj1
    (recover_failures Double.fake_libs (Double.fake_tpm 0)
       ["tpm2-totp"; "recover"]%string (Tool.start None)
       (Tool.World (Tool.Opt Tool.CMD_RECOVER 0 None 0 0) EmptyString [] [] None)
       1 0 Double.secret5 [] None None
       _ _ _ _) _);
    first [reflexivity | discriminate].
Defined.

(** X16.  The reseal and clean commands print nothing: whatever the calls
    return, the standard output after [main] is what it was before, and
    a run that returns has written nothing to the error stream either. *)
Theorem reseal_clean_silent {Dev : Type} (L : Tool.libs) (T : Tool.tpm)
    (argv : list string) (w w1 : @Tool.world Dev) :
  Tool.parse_opts L argv w = (Ok 0, w1) →
  Tool.cmd (Tool.w_opt w1) = Tool.CMD_RESEAL ∨
  Tool.cmd (Tool.w_opt w1) = Tool.CMD_CLEAN →
  Tool.w_out (Tool.main L T argv w).2 = Tool.w_out w ∧
  ((Tool.main L T argv w).1 = Ok 0 →
   Tool.w_err (Tool.main L T argv w).2 = Tool.w_err w).
Proof.
  intros Hparse Hcmd.
  destruct (MainCases.parse_opts_frame L argv w w1 0 Hparse)
    as (Hout & Herr & Hcalls & _).
  rewrite (MainProofs.main_after_parse L T _ _ _ Hparse), MainProofs.then_return.
  rewrite <- Hout, <- Herr.
  destruct Hcmd as [-> | ->]; cbn [Tool.switch Tool.run_branch].
  - destruct (Tool.tpm2totp_loadKey_nv T (Tool.nvindex (Tool.w_opt w1)) (Tool.w_tpm w1))
      as [[rc1 blob] t1] eqn:H1.
    destruct (Tool.tpm2totp_reseal T blob (Tool.password (Tool.w_opt w1)) 0 0 t1)
      as [[rc2 newBlob] t2] eqn:H2.
    destruct (Tool.tpm2totp_deleteKey_nv T (Tool.nvindex (Tool.w_opt w1)) t2)
      as [rc3 t3] eqn:H3.
    destruct (Tool.tpm2totp_storeKey_nv T newBlob (Tool.nvindex (Tool.w_opt w1)) t3)
      as [rc4 t4] eqn:H4.
    rewrite (MainProofs.do_reseal_spec T _ _ _ _ _ _ _ _ _ _ _ _ H1 H2 H3 H4).
    cbv zeta.
    destruct (rc1 =? 0); cbn [negb fst snd Tool.w_out Tool.w_err]; [|done].
    destruct (rc2 =? 0); cbn [negb fst snd Tool.w_out Tool.w_err]; [|done].
    destruct (rc3 =? 0); cbn [negb fst snd Tool.w_out Tool.w_err]; [|done].
    destruct (rc4 =? 0); cbn [negb fst snd Tool.w_out Tool.w_err]; [|done].
    by rewrite app_nil_r.
  - destruct (Tool.tpm2totp_deleteKey_nv T (Tool.nvindex (Tool.w_opt w1)) (Tool.w_tpm w1))
      as [rc t1] eqn:H1.
    rewrite (MainProofs.do_clean_spec T _ _ _ _ H1).
    by destruct (rc =? 0).
Qed.

Lemma reseal_clean_silent_witness :
  Tool.w_out
    (Tool.main Double.fake_libs (Double.fake_tpm 0) ["tpm2-totp"; "reseal"]%string
       (Tool.start (Some Double.blob1))).2 = EmptyString.
Proof.
  exact (proj1
    (reseal_clean_silent Double.fake_libs (Double.fake_tpm 0)
       ["tpm2-totp"; "reseal"]%string (Tool.start (Some Double.blob1))
       (Tool.World (Tool.Opt Tool.CMD_RESEAL 0 None 0 0) EmptyString [] []
          (Some Double.blob1))
       eq_refl (or_introl eq_refl))).
Defined.

(** ** More on [base32enc] *)

(** X17.  The text [base32enc] returns for a non-empty input decodes to
    that input: dropping the ['='] characters, reading each remaining
    character as its 5-bit value in the alphabet [A-Z], [2-7], and cutting
    the bit stream into bytes (left-over bits dropped) gives the bytes
    back.  The secret can be recovered from the printed key. *)
Theorem base32enc_decodes (l : list byte) :
  l ≠ [] →
  Z.of_nat (length l) < 2^63 →
  ∃ key, Base32.base32enc l (Z.of_nat (length l)) = Ok key ∧
         Base32Decode.rfc4648_decode key = l.
Proof.
  intros Hne Hsz. exists (string_of_chars (Base32Spec.enc_chars l)).
  split; [by apply Base32Post.base32enc_nonempty|].
  apply Base32More.decode_enc_chars.
Qed.

Lemma base32enc_decodes_witness :
  ∃ key, Base32.base32enc [x66; x6f; x6f; x62] (Z.of_nat (length [x66; x6f; x6f; x62]))
           = Ok key ∧
         Base32Decode.rfc4648_decode key = [x66; x6f; x6f; x62].
Proof.
  apply (base32enc_decodes [x66; x6f; x6f; x62]);
    [discriminate | vm_compute; reflexivity].
Defined.

(** X18.  [base32enc] is injective on non-empty inputs: two different
    byte sequences, of whatever lengths, never give the same text. *)
Theorem base32enc_injective (l1 l2 : list byte) :
  l1 ≠ [] → l2 ≠ [] →
  Z.of_nat (length l1) < 2^63 → Z.of_nat (length l2) < 2^63 →
  Base32.base32enc l1 (Z.of_nat (length l1)) =
  Base32.base32enc l2 (Z.of_nat (length l2)) →
  l1 = l2.
Proof.
  intros Hne1 Hne2 Hsz1 Hsz2.
  rewrite !Base32Post.base32enc_nonempty by done.
  intros [= Heq].
  rewrite <- (Base32More.decode_enc_chars l1), <- (Base32More.decode_enc_chars l2).
  by rewrite Heq.
Qed.

Lemma base32enc_injective_witness : [x00; x00] = [x00; x00] :> list byte.
Proof.
  apply (base32enc_injective [x00; x00] [x00; x00]);
    first [discriminate | vm_compute; reflexivity].
Defined.



(** X20.  The text [base32enc] returns for a non-empty input consists of
    upper-case letters and the digits 2 to 7, followed by ['='] characters
    only: no lower-case letter, no digit 0, 1, 8 or 9, and no ['='] before
    a character of the alphabet. *)
Theorem base32enc_alphabet (l : list byte) :
  l ≠ [] →
  Z.of_nat (length l) < 2^63 →
  ∃ key body fill,
    Base32.base32enc l (Z.of_nat (length l)) = Ok key ∧
    chars_of_string key = body ++ replicate fill (code_of "=") ∧
    Forall (λ c, code_of "A" ≤ c ≤ code_of "Z" ∨ code_of "2" ≤ c ≤ code_of "7")
      body.
Proof.
  intros Hne Hsz.
  exists (string_of_chars (Base32Spec.enc_chars l)),
         (Base32Spec.base32_char <$> Base32Spec.loop_symbols l),
         (8 * ((length l + 4) / 5) - length (Base32Spec.loop_symbols l))%nat.
  split; [by apply Base32Post.base32enc_nonempty|].
  split.
  - by rewrite QrProofs.string_of_chars_chars by apply Base32More.enc_chars_bounds.
  - apply Forall_fmap.
    generalize (Base32Post.loop_symbols_bounds l). apply List.Forall_impl.
    intros v Hv. cbn.
    destruct (Base32Post.base32_char_facts v Hv) as (_ & _ & _ & ->).
    by apply Base32More.rfc4648_alphabet_range.
Qed.

Lemma base32enc_alphabet_witness :
  ∃ key body fill,
    Base32.base32enc [xff; x00] (Z.of_nat (length [xff; x00])) = Ok key ∧
    chars_of_string key = body ++ replicate fill (code_of "=") ∧
    Forall (λ c, code_of "A" ≤ c ≤ code_of "Z" ∨ code_of "2" ≤ c ≤ code_of "7")
      body.
Proof.
  apply (base32enc_alphabet [xff; x00]); [discriminate | vm_compute; reflexivity].
Defined.

(** ** More on [qrencode] *)

(** X21.  The text [qrencode] returns shows the matrix and nothing else:
    two matrices (of widths from 1 to 46340, each with its
    [width * width] modules) give the same text exactly when they have the
    same width and their modules agree in bit 0.  The [version] field and
    the other seven bits of a module byte never show, and no two patterns
    of dark modules are drawn alike. *)
Theorem qrencode_shows_modules (q q' : Qr.QRcode) :
  1 ≤ Qr.width q ≤ 46340 →
  1 ≤ Qr.width q' ≤ 46340 →
  length (Qr.data q) = Z.to_nat (Qr.width q * Qr.width q) →
  length (Qr.data q') = Z.to_nat (Qr.width q' * Qr.width q') →
  Qr.qrencode_text q = Qr.qrencode_text q' ↔ QrSame.same_modules q q'.
Proof.
  intros Hw Hw' Hdata Hdata'.
  rewrite !QrProofs.qrencode_text_spec by done.
  unfold QrSame.same_modules. split.
  - intros Hok.
    assert (Qr.picture q = Qr.picture q') as Heq by congruence.
    assert (Qr.width q = Qr.width q') as Hww.
    { pose proof (QrProofs.picture_length q Hw Hdata) as H1.
      pose proof (QrProofs.picture_length q' Hw' Hdata') as H2.
      rewrite Heq in H1. nia. }
    split; [done|].
    apply (QrMore.picture_same q q'); [lia | done..].
  - intros [Hww Hsame]. f_equal.
    apply (QrMore.picture_same q q'); [lia | done..].
Qed.

Lemma qrencode_shows_modules_witness :
  Qr.qrencode_text {| Qr.version := 1; Qr.width := 2; Qr.data := [1; 0; 2; 3] |} =
  Qr.qrencode_text {| Qr.version := 7; Qr.width := 2; Qr.data := [3; 4; 0; 255] |} ↔
  QrSame.same_modules
    {| Qr.version := 1; Qr.width := 2; Qr.data := [1; 0; 2; 3] |}
    {| Qr.version := 7; Qr.width := 2; Qr.data := [3; 4; 0; 255] |}.
Proof.
  apply (qrencode_shows_modules
           {| Qr.version := 1; Qr.width := 2; Qr.data := [1; 0; 2; 3] |}
           {| Qr.version := 7; Qr.width := 2; Qr.data := [3; 4; 0; 255] |});
    first [cbn; lia | reflexivity].
Defined.

(** ** Options without effect *)

(** X22.  [opt.verbose] is never read, and [opt.time] only by the
    calculate command: two runs from the same state whose command lines
    select the same command and the same password end with the same
    status, the same standard output, the same error stream, the same
    calls and the same state of the secure storage, whether or not
    [-v]/[--verbose] was given, and, for every command but calculate,
    whether or not [-t]/[--time] was given. *)
Theorem flags_without_effect {Dev : Type} (L : Tool.libs) (T : Tool.tpm)
    (argv argv' : list string) (w w1 w1' : @Tool.world Dev) :
  Tool.parse_opts L argv w = (Ok 0, w1) →
  Tool.parse_opts L argv' w = (Ok 0, w1') →
  Tool.cmd (Tool.w_opt w1) = Tool.cmd (Tool.w_opt w1') →
  Tool.password (Tool.w_opt w1) = Tool.password (Tool.w_opt w1') →
  (Tool.cmd (Tool.w_opt w1) = Tool.CMD_CALCULATE →
   Tool.time (Tool.w_opt w1) = Tool.time (Tool.w_opt w1')) →
  (Tool.main L T argv w).1 = (Tool.main L T argv' w).1 ∧
  Summary.agree (Tool.main L T argv w).2 (Tool.main L T argv' w).2.
Proof.
  intros Hparse Hparse' Hcmd Hpw Htime.
  destruct (MainCases.parse_opts_frame L argv w w1 0 Hparse)
    as (Hout & Herr & Hcalls & Htpm).
  destruct (MainCases.parse_opts_frame L argv' w w1' 0 Hparse')
    as (Hout' & Herr' & Hcalls' & Htpm').
  destruct (ParseProofs.parse_opts_spec L argv w _ _ Hparse) as (_ & Hnv & _).
  destruct (ParseProofs.parse_opts_spec L argv' w _ _ Hparse') as (_ & Hnv' & _).
  rewrite (MainProofs.main_after_parse L T _ _ _ Hparse),
    (MainProofs.main_after_parse L T _ _ _ Hparse'), !MainProofs.then_return.
  rewrite <- Hcmd.
  assert (Summary.agree w1 w1') as Hag
    by (unfold Summary.agree; repeat split; congruence).
  destruct (Flags.alike_run_branch L T (Tool.switch (Tool.cmd (Tool.w_opt w1)))
              (Tool.w_opt w1) (Tool.w_opt w1')
              ltac:(congruence) Hpw
              ltac:(intros Hb; apply Htime;
                    by destruct (Tool.cmd (Tool.w_opt w1)))
              w1 w1' Hag) as [Hr Hw].
  destruct (Tool.run_branch L T _ (Tool.w_opt w1) w1) as [r w2],
    (Tool.run_branch L T _ (Tool.w_opt w1') w1') as [r' w2'].
  cbn [fst snd] in Hr, Hw. subst r'. by destruct r.
Qed.

Lemma flags_without_effect_witness :
  (Tool.main Double.fake_libs (Double.fake_tpm 0) ["tpm2-totp"; "generate"]%string
     (Tool.start None)).1 =
  (Tool.main Double.fake_libs (Double.fake_tpm 0)
     ["tpm2-totp"; "-v"; "--time"; "generate"]%string (Tool.start None)).1.
Proof.
  exact (proj1
    (flags_without_effect Double.fake_libs (Double.fake_tpm 0)
       ["tpm2-totp"; "generate"]%string
       ["tpm2-totp"; "-v"; "--time"; "generate"]%string
       (Tool.start None)
       (Tool.World (Tool.Opt Tool.CMD_GENERATE 0 None 0 0) EmptyString [] [] None)
       (Tool.World (Tool.Opt Tool.CMD_GENERATE 0 None 1 1) EmptyString [] [] None)
       eq_refl eq_refl eq_refl eq_refl ltac:(discriminate))).
Defined.

(** X23.  The reseal command stops at the first call that fails, with
    status 1, the diagnostic of that call's line and nothing on the
    standard output.  In particular, when the final store fails the old
    key has already been deleted: the process leaves after all four calls
    with the secure storage in the state the failed store left. *)
Theorem reseal_failures {Dev : Type} (L : Tool.libs) (T : Tool.tpm)
    (argv : list string) (w w1 : @Tool.world Dev)
    (rc1 rc2 rc3 rc4 : Z) (blob newBlob : list byte) (t1 t2 t3 t4 : Dev) :
  Tool.parse_opts L argv w = (Ok 0, w1) →
  Tool.cmd (Tool.w_opt w1) = Tool.CMD_RESEAL →
  Tool.tpm2totp_loadKey_nv T (Tool.nvindex (Tool.w_opt w1)) (Tool.w_tpm w1)
    = ((rc1, blob), t1) →
  Tool.tpm2totp_reseal T blob (Tool.password (Tool.w_opt w1)) 0 0 t1
    = ((rc2, newBlob), t2) →
  Tool.tpm2totp_deleteKey_nv T (Tool.nvindex (Tool.w_opt w1)) t2 = (rc3, t3) →
  Tool.tpm2totp_storeKey_nv T newBlob (Tool.nvindex (Tool.w_opt w1)) t3
    = (rc4, t4) →
  let load := Tool.LoadKey (Tool.nvindex (Tool.w_opt w1)) in
  let reseal := Tool.Reseal blob (Tool.password (Tool.w_opt w1)) 0 0 in
  let delete := Tool.DeleteKey (Tool.nvindex (Tool.w_opt w1)) in
  let store := Tool.StoreKey newBlob (Tool.nvindex (Tool.w_opt w1)) in
  let left errs calls t :=
    (Exit 1,
     Tool.World (Tool.w_opt w1) (Tool.w_out w) (Tool.w_err w ++ errs)
       (Tool.w_calls w ++ calls) t) in
  (rc1 ≠ 0 →
   Tool.main L T argv w = left [Tool.ErrorIn 266 rc1] [load] t1) ∧
  (rc1 = 0 → rc2 ≠ 0 →
   Tool.main L T argv w = left [Tool.ErrorIn 271 rc2] [load; reseal] t2) ∧
  (rc1 = 0 → rc2 = 0 → rc3 ≠ 0 →
   Tool.main L T argv w = left [Tool.ErrorIn 275 rc3] [load; reseal; delete] t3) ∧
  (rc1 = 0 → rc2 = 0 → rc3 = 0 → rc4 ≠ 0 →
   Tool.main L T argv w =
   left [Tool.ErrorIn 279 rc4] [load; reseal; delete; store] t4) ∧
  (rc1 = 0 → rc2 = 0 → rc3 = 0 → rc4 = 0 →
   Tool.main L T argv w =
   (Ok 0,
    Tool.World (Tool.w_opt w1) (Tool.w_out w) (Tool.w_err w)
      (Tool.w_calls w ++ [load; reseal; delete; store]) t4)).
Proof.
  intros Hparse Hcmd H1 H2 H3 H4. cbv zeta.
  destruct (MainCases.parse_opts_frame L argv w w1 0 Hparse)
    as (Hout & Herr & Hcalls & _).
  rewrite (MainProofs.main_after_parse L T _ _ _ Hparse), Hcmd.
  cbn [Tool.switch Tool.run_branch].
  rewrite MainProofs.then_return,
    (MainProofs.do_reseal_spec T _ _ _ _ _ _ _ _ _ _ _ _ H1 H2 H3 H4).
  cbv zeta. rewrite Hout, Hcalls, Herr.
  split; [|split; [|split; [|split]]].
  - intros Hrc. by destruct (Z.eqb_spec rc1 0).
  - intros -> Hrc. cbn [Z.eqb negb]. by destruct (Z.eqb_spec rc2 0).
  - intros -> -> Hrc. cbn [Z.eqb negb]. by destruct (Z.eqb_spec rc3 0).
  - intros -> -> -> Hrc. cbn [Z.eqb negb]. by destruct (Z.eqb_spec rc4 0).
  - intros -> -> -> ->. cbn [Z.eqb negb]. by rewrite app_nil_r.
Qed.

Lemma reseal_failures_witness :
  Tool.main Double.fake_libs Double.readonly_tpm ["tpm2-totp"; "reseal"]%string
    (Tool.start (Some Double.blob1)) =
  (Exit 1,
   Tool.World (Tool.Opt Tool.CMD_RESEAL 0 None 0 0) EmptyString
     [Tool.ErrorIn 279 7]
     [Tool.LoadKey 0; Tool.Reseal Double.blob1 None 0 0; Tool.DeleteKey 0;
      Tool.StoreKey Double.blob2 0]
     None).
Proof.
  refine (proj1 (proj2 (proj2 (proj2
    (reseal_failures Double.fake_libs Double.readonly_tpm
       ["tpm2-totp"; "reseal"]%string (Tool.start (Some Double.blob1))
       (Tool.World (Tool.Opt Tool.CMD_RESEAL 0 None 0 0) EmptyString [] []
          (Some Double.blob1))
       0 0 0 7 Double.blob1 Double.blob2
       (Some Double.blob1) (Some Double.blob1) None None
       _ _ _ _ _ _)))) _ _ _ _);
    first [reflexivity | discriminate].
Defined.
